(** * Verification of the documentation tooling of aleph-code-mine

    Shallow embedding of
    - [remove_empty_headings.py]  (the heading-cleanup utility),
    - [tooling/validate-docs/validate.py]  (the RAG documentation validator),
    - [tooling/validate-docs/section-analyzer.py]  (the section analyzer),
    and the properties of their specification.

    A Python [str] is a sequence of Unicode code points: a character is a
    number [N] and a string a [list N], so that [len] is [length] and the
    whitespace and line-boundary tables are the ones of Python. *)

From Stdlib Require Import NArith Lia.
From Stdlib Require DecimalString.
From stdpp Require Import base option list strings gmap sets sorting.

Set Warnings "-register-all,-clear-no-such-hyp".

Open Scope N_scope.
Open Scope nat_scope.

Abbreviation char := N (only parsing).
Abbreviation str := (list N) (only parsing).

(** A string literal of the source as a list of code points. *)
Definition lit (s : string) : str :=
  map Ascii.N_of_ascii (String.list_ascii_of_string s).
Arguments lit s%_string.

(** ** Python string primitives *)

Module Py.

(** [str.isspace] on one character, which is also the class [\s] of a
    [str] pattern of [re]: the characters of bidirectional type WS, B or S
    or of category Zs. *)
Definition isspace (c : char) : bool :=
  ((9 <=? c) && (c <=? 13) || (28 <=? c) && (c <=? 32)
   || (c =? 133) || (c =? 160) || (c =? 5760)
   || (8192 <=? c) && (c <=? 8202)
   || (c =? 8232) || (c =? 8233) || (c =? 8239) || (c =? 8287)
   || (c =? 12288))%N.

Definition NL : char := 10%N.

(** [s.startswith(p)] *)
Fixpoint startswith (p s : str) : bool :=
  match p, s with
  | [], _ => true
  | a :: p', b :: s' => (a =? b)%N && startswith p' s'
  | _ :: _, [] => false
  end.

(** [s.lstrip()], [s.rstrip()], [s.strip()] *)
Fixpoint lstrip (s : str) : str :=
  match s with
  | c :: s' => if isspace c then lstrip s' else s
  | [] => []
  end.

Fixpoint rstrip (s : str) : str :=
  match s with
  | c :: s' =>
      match rstrip s' with
      | [] => if isspace c then [] else [c]
      | r => c :: r
      end
  | [] => []
  end.

Definition strip (s : str) : str := rstrip (lstrip s).

(** Splitting on a literal separator, [s.split(sep)], which is also
    [re.split(sep, s)] for a pattern without special characters: the
    occurrences of [sep] are taken leftmost first and do not overlap.
    [skip] counts the characters of an occurrence still to pass over. *)
Fixpoint split_from (sep : str) (skip : nat) (s : str) : list str :=
  match s with
  | [] => [[]]
  | c :: s' =>
      match skip with
      | S k => split_from sep k s'
      | O =>
          if startswith sep s
          then [] :: split_from sep (length sep - 1) s'
          else match split_from sep 0 s' with
               | piece :: pieces => (c :: piece) :: pieces
               | [] => [[c]]
               end
      end
  end.

Definition split (sep : str) (s : str) : list str := split_from sep 0 s.

(** [sep.join(pieces)] *)
Fixpoint join (sep : str) (pieces : list str) : str :=
  match pieces with
  | [] => []
  | [p] => p
  | p :: ps => p ++ sep ++ join sep ps
  end.

(** [s.find(sub, start)], with [None] for the result -1. *)
Fixpoint find_from (sub : str) (pos : nat) (s : str) : option nat :=
  if startswith sub s then Some pos
  else match s with
       | [] => None
       | _ :: s' => find_from sub (S pos) s'
       end.

Definition find (sub : str) (start : nat) (s : str) : option nat :=
  if decide (start ≤ length s) then find_from sub start (drop start s) else None.

(** The boundaries of [str.splitlines]. *)
Definition is_linebreak (c : char) : bool :=
  ((10 <=? c) && (c <=? 13) || (28 <=? c) && (c <=? 30)
   || (c =? 133) || (c =? 8232) || (c =? 8233))%N.

(** [s.splitlines()]: a carriage return followed by a line feed is one
    boundary, and a final boundary opens no empty last line. *)
Fixpoint splitlines (s : str) : list str :=
  match s with
  | [] => []
  | c :: s' =>
      if is_linebreak c then
        match s' with
        | d :: s'' => if (c =? 13)%N && (d =? 10)%N then [] :: splitlines s''
                      else [] :: splitlines s'
        | [] => [[]]
        end
      else match splitlines s' with
           | line :: lines => (c :: line) :: lines
           | [] => [[c]]
           end
  end.

(** The characters of [s] before its first newline. *)
Fixpoint line_prefix (s : str) : str :=
  match s with
  | c :: s' => if (c =? NL)%N then [] else c :: line_prefix s'
  | [] => []
  end.

End Py.

(** ** remove_empty_headings.py *)

Module RemoveEmptyHeadings.

Definition H2 : str := Eval cbv in lit "## ".

(** [re.match(r'^## ', line)] *)
Definition is_h2 (line : str) : bool := Py.startswith H2 line.

(** [line.strip() == ''] *)
Definition is_blank (line : str) : bool :=
  match Py.strip line with [] => true | _ :: _ => false end.

(** The inner loop
    [while j < len(lines) and lines[j].strip() == '': j += 1],
    run on the lines from index [j] on; it returns the final [j]. *)
Fixpoint skip_blank (from_j : list str) (j : nat) : nat :=
  match from_j with
  | line :: rest => if is_blank line then skip_blank rest (S j) else j
  | [] => j
  end.

(** The test made on the heading at index [i]:
    [j = i + 1], the blank lines are skipped, and then
    [j < len(lines) and re.match(r'^## ', lines[j])]. *)
Definition next_is_h2 (lines : list str) (i : nat) : bool :=
  let j := skip_blank (drop (i + 1) lines) (i + 1) in
  match lines !! j with
  | Some line => is_h2 line
  | None => false
  end.

(** The loop of [find_empty_headings] from index [i] on, [todo] being the
    lines not yet visited. *)
Fixpoint find_loop (lines todo : list str) (i : nat)
    (empty_headings : list (nat * str)) : list (nat * str) :=
  match todo with
  | [] => empty_headings
  | line :: todo' =>
      find_loop lines todo' (S i)
        (if is_h2 line && next_is_h2 lines i
         then empty_headings ++ [(i + 1, line)]
         else empty_headings)
  end.

Definition find_empty_headings (content : str) : list (nat * str) :=
  let lines := Py.split [Py.NL] content in
  find_loop lines lines 0 [].

(** The loop of [remove_empty_headings]; [lines_to_remove] is the set of
    indices of the source. *)
Fixpoint remove_loop (lines todo : list str) (i : nat)
    (lines_to_remove : gset nat) : gset nat :=
  match todo with
  | [] => lines_to_remove
  | line :: todo' =>
      remove_loop lines todo' (S i)
        (if is_h2 line && next_is_h2 lines i
         then lines_to_remove ∪ {[ i ]}
         else lines_to_remove)
  end.

Definition lines_to_remove (lines : list str) : gset nat :=
  remove_loop lines lines 0 ∅.

(** [[line for i, line in enumerate(lines) if i not in lines_to_remove]] *)
Definition new_lines (lines : list str) (removed : gset nat) : list str :=
  (filter (λ p : nat * str, p.1 ∉ removed) (imap pair lines)).*2.

Definition remove_empty_headings (content : str) : str * nat :=
  let lines := Py.split [Py.NL] content in
  let removed := lines_to_remove lines in
  (Py.join [Py.NL] (new_lines lines removed), size removed).

(** [process_file] on the content read from the file: the statistics
    [empty_count] and [removed], and the content written back, if any. *)
Record stats := { empty_count : nat; removed : nat; empty_headings : list str }.

Definition process_file (original_content : str) (dry_run : bool)
    : stats * option str :=
  let found := find_empty_headings original_content in
  match found with
  | [] => ({| empty_count := 0; removed := 0; empty_headings := [] |}, None)
  | _ :: _ =>
      let '(new_content, removed_count) := remove_empty_headings original_content in
      ({| empty_count := length found; removed := removed_count;
          empty_headings := found.*2 |},
       if dry_run then None else Some new_content)
  end.

(** The counters of [main] and the list [files_with_empty]. *)
Record totals := {
  total_files : nat;
  total_empty : nat;
  total_removed : nat;
  files_with_empty : list stats
}.

(** The body that the two loops of [main] share, for one file whose
    content is [content]: the file is processed and counted. *)
Definition count_file (dry_run : bool) (t : totals) (content : str) : totals :=
  let result := (process_file content dry_run).1 in
  if 0 <? empty_count result then
    {| total_files := total_files t + 1;
       total_empty := total_empty t + empty_count result;
       total_removed := total_removed t + removed result;
       files_with_empty := files_with_empty t ++ [result] |}
  else
    {| total_files := total_files t + 1;
       total_empty := total_empty t;
       total_removed := total_removed t;
       files_with_empty := files_with_empty t |}.

(** [main] over the contents of the files its two loops reach, in the
    order they are reached: the final counters and the exit status
    [0 if total_empty == 0 else (1 if dry_run else 0)]. *)
Definition main (dry_run : bool) (visited : list str) : totals * nat :=
  let t := foldl (count_file dry_run)
                 {| total_files := 0; total_empty := 0; total_removed := 0;
                    files_with_empty := [] |} visited in
  (t, if total_empty t =? 0 then 0 else if dry_run then 1 else 0).

End RemoveEmptyHeadings.

(** ** tooling/validate-docs/validate.py *)

Module Validate.

Import Py.

(** *** Validation constants *)

Definition MAX_SECTION_LENGTH : nat := 1500.
Definition STUB_LINE_COUNT : nat := 80.
Definition OVERSIZED_LINE_COUNT : nat := 600.
Definition CODE_BLOCK_LONG_THRESHOLD : nat := 10.

(** The enum values are Python sets, here the lists of their elements;
    the order in which a set is enumerated is not that of the source (it
    changes with the hash seed of the run): see [iter_set] below. *)
Definition VALID_STACKS : list str :=
  Eval cbv in [lit "js-nextjs"; lit "sanity"; lit "php-wp"; lit "cross-stack"].
Definition VALID_PRIORITIES : list str :=
  Eval cbv in [lit "high"; lit "medium"; lit "low"].
Definition VALID_AUDIENCES : list str :=
  Eval cbv in [lit "frontend"; lit "backend"; lit "fullstack"].
Definition VALID_COMPLEXITIES : list str :=
  Eval cbv in [lit "beginner"; lit "intermediate"; lit "advanced"].
Definition VALID_DOC_TYPES : list str :=
  Eval cbv in [lit "standard"; lit "guide"; lit "reference"; lit "decision"].

(** [PRONOUN_PATTERN = re.compile(r'^(It|This|These|They|That|We)\s', re.MULTILINE)] *)
Definition PRONOUNS : list str :=
  Eval cbv in [lit "It"; lit "This"; lit "These"; lit "They"; lit "That"; lit "We"].

Definition REQUIRED_FRONTMATTER : list str :=
  Eval cbv in
    [lit "title"; lit "category"; lit "subcategory"; lit "tags"; lit "stack";
     lit "priority"; lit "audience"; lit "complexity"; lit "doc_type";
     lit "source_confidence"; lit "last_updated"].

(** *** Issues *)

Inductive Level := FAIL | WARN | INFO.

Record ValidationIssue := {
  level : Level;
  check : str;
  message : str;
  line_number : option nat;
  details : option str
}.

Global Instance Level_eq_dec : EqDecision Level.
Proof. solve_decision. Defined.

Definition issue (lv : Level) (chk msg : str) : ValidationIssue :=
  {| level := lv; check := chk; message := msg;
     line_number := None; details := None |}.

(** The double quote inside the messages of the source. *)
Definition DQ : str := [34%N].

(** [str(n)] for a natural number. *)
Definition str_of_nat (n : nat) : str :=
  lit (DecimalString.NilZero.string_of_uint (Nat.to_uint n)).

(** ["#" * n] *)
Definition hashes (n : nat) : str := replicate n 35%N.

(** *** Values of the YAML decoder and exceptions *)

(** What [yaml.safe_load] returns, as far as the checker looks at it:
    strings, lists and dicts, and every other value (int, float, bool,
    None, date, ...) with its [type(v).__name__] and its [str(v)]. *)
Inductive yaml :=
| YStr (s : str)
| YList (items : list yaml)
| YDict (entries : list (yaml * yaml))
| YOther (type_name text : str).

Inductive exn :=
| TypeError (msg : str)
| ValueError (msg : str).

(** The outcomes of [yaml.safe_load]: a value, a [yaml.YAMLError] with
    its text, or an exception that is no [YAMLError]; the constructor of
    timestamps calls [datetime.date] and lets its [ValueError] through,
    as on [last_updated: 2024-02-30]. *)
Inductive load_result :=
| Loaded (v : yaml)
| YAMLError (e : str)
| LoadRaises (e : exn).

Inductive result (A : Type) :=
| Ok (a : A)
| Raise (e : exn).
Arguments Ok {A} a.
Arguments Raise {A} e.

Global Instance result_bind : MBind result :=
  λ A B f r, match r with Ok a => f a | Raise e => Raise e end.

(** The library functions the checker calls and whose code is not part of
    the repository. *)
Class Libraries := {
  (** [yaml.safe_load] *)
  safe_load : str → load_result;
  (** [str(v)] of a list or a dict *)
  container_str : yaml → str;
  (** the class [\d] of [re] on [str]: the Unicode decimal digits *)
  isdecimal : char → bool;
  (** [datetime.fromisoformat] raises no [ValueError] *)
  fromisoformat_ok : str → bool;
  (** the order in which this run enumerates a set of strings, as
      [", ".join] does: some arrangement of its elements *)
  iter_set : list str → list str;
  iter_set_perm : ∀ elements, iter_set elements ≡ₚ elements
}.

(** [key in d] and [d[key]] for a string key. *)
Fixpoint dict_get (entries : list (yaml * yaml)) (key : str) : option yaml :=
  match entries with
  | [] => None
  | (YStr k, v) :: rest => if decide (k = key) then Some v else dict_get rest key
  | _ :: rest => dict_get rest key
  end.

Definition type_name_of (v : yaml) : str :=
  match v with
  | YStr _ => lit "str"
  | YList _ => lit "list"
  | YDict _ => lit "dict"
  | YOther tn _ => tn
  end.

Section Frontmatter.
Context {libs : Libraries}.

(** [str(v)], which is also how an f-string formats [v]. *)
Definition str_of (v : yaml) : str :=
  match v with
  | YStr s => s
  | YOther _ text => text
  | _ => container_str v
  end.

(** [v not in VALID], [VALID] a set of strings: a list or a dict cannot
    be hashed. *)
Definition not_in_set (v : yaml) (valid : list str) : result bool :=
  match v with
  | YStr s => Ok (bool_decide (s ∉ valid))
  | YOther _ _ => Ok true
  | YList _ => Raise (TypeError (lit "unhashable type: 'list'"))
  | YDict _ => Raise (TypeError (lit "unhashable type: 'dict'"))
  end.

(** One of the four enum checks. *)
Definition check_enum (frontmatter : list (yaml * yaml)) (field : str)
    (valid : list str) (issues : list ValidationIssue)
    : result (list ValidationIssue) :=
  match dict_get frontmatter field with
  | None => Ok issues
  | Some v =>
      bad ← not_in_set v valid;
      if (bad : bool) then
        Ok (issues ++
          [issue FAIL (lit "frontmatter_" ++ field)
             (lit "Invalid " ++ field ++ lit " value: " ++ DQ ++ str_of v ++ DQ
              ++ lit ". Must be one of: " ++ join (lit ", ") (iter_set valid))])
      else Ok issues
  end.

(** [re.match(r'^\d+%$', confidence)]: [$] also matches before a final
    newline. *)
Fixpoint confidence_rest (s : str) : bool :=
  bool_decide (s = [37%N]) || bool_decide (s = [37%N; NL])
  || match s with
     | c :: s' => isdecimal c && confidence_rest s'
     | [] => false
     end.

Definition confidence_match (s : str) : bool :=
  match s with
  | c :: s' => isdecimal c && confidence_rest s'
  | [] => false
  end.

(** Lines 197-204: the required fields. *)
Definition check_required (frontmatter : list (yaml * yaml))
    (issues : list ValidationIssue) : list ValidationIssue :=
  let missing_fields :=
    filter (λ field, dict_get frontmatter field = None) REQUIRED_FRONTMATTER in
  match missing_fields with
  | [] => issues
  | _ :: _ =>
      issues ++ [issue FAIL (lit "frontmatter_required_fields")
                   (lit "Missing required frontmatter fields: "
                    ++ join (lit ", ") missing_fields)]
  end.

(** Lines 235-243: the format of [source_confidence]. *)
Definition check_confidence (frontmatter : list (yaml * yaml))
    (issues : list ValidationIssue) : list ValidationIssue :=
  match dict_get frontmatter (lit "source_confidence") with
  | Some v =>
      let confidence := str_of v in
      if confidence_match confidence then issues
      else issues ++
        [issue FAIL (lit "frontmatter_confidence")
           (lit "Invalid source_confidence format: " ++ DQ ++ confidence ++ DQ
            ++ lit ". Must match pattern: \d+%")]
  | None => issues
  end.

(** Lines 245-255: [last_updated] is a date. *)
Definition check_date (frontmatter : list (yaml * yaml))
    (issues : list ValidationIssue) : list ValidationIssue :=
  match dict_get frontmatter (lit "last_updated") with
  | Some v =>
      if fromisoformat_ok (str_of v) then issues
      else issues ++
        [issue FAIL (lit "frontmatter_date")
           (lit "Invalid last_updated date: " ++ DQ ++ str_of v ++ DQ
            ++ lit ". Must be ISO format (YYYY-MM-DD)")]
  | None => issues
  end.

(** Lines 257-271: [tags] is a non-empty list. *)
Definition check_tags (frontmatter : list (yaml * yaml))
    (issues : list ValidationIssue) : list ValidationIssue :=
  match dict_get frontmatter (lit "tags") with
  | Some (YList []) =>
      issues ++ [issue FAIL (lit "frontmatter_tags")
                   (lit "Tags list must not be empty")]
  | Some (YList (_ :: _)) => issues
  | Some tags =>
      issues ++ [issue FAIL (lit "frontmatter_tags")
                   (lit "Tags must be a list, got: " ++ type_name_of tags)]
  | None => issues
  end.

(** Lines 197-271: the checks made on the parsed frontmatter, in the
    order of the source. *)
Definition check_schema (frontmatter : list (yaml * yaml))
    (issues : list ValidationIssue) : result (list ValidationIssue) :=
  let issues := check_required frontmatter issues in
  issues ← check_enum frontmatter (lit "stack") VALID_STACKS issues;
  issues ← check_enum frontmatter (lit "priority") VALID_PRIORITIES issues;
  issues ← check_enum frontmatter (lit "audience") VALID_AUDIENCES issues;
  issues ← check_enum frontmatter (lit "complexity") VALID_COMPLEXITIES issues;
  let issues := check_confidence frontmatter issues in
  let issues := check_date frontmatter issues in
  let issues := check_tags frontmatter issues in
  Ok issues.

Definition DELIM : str := Eval cbv in lit "---".

(** [_check_frontmatter]; [issues] is the list the method appends to, and
    the result is that list afterwards, or the exception that leaves the
    method: the [try] around the decoding catches [yaml.YAMLError]
    only. *)
Definition _check_frontmatter (content : str) (lines : list str)
    (issues : list ValidationIssue) : result (list ValidationIssue) :=
  if negb (startswith DELIM content) then
    Ok (issues ++
      [{| level := FAIL; check := lit "frontmatter_start";
          message := lit "File must start with " ++ DQ ++ DELIM ++ DQ
                     ++ lit " (frontmatter delimiter)";
          line_number := Some 1; details := None |}])
  else if match lines with
          | line0 :: _ => startswith (lit "# ") line0
          | [] => false
          end then
    Ok (issues ++
      [{| level := FAIL; check := lit "frontmatter_h1_before";
          message := lit "File has H1 heading before frontmatter (remove the H1 line)";
          line_number := Some 1; details := None |}])
  else
    match find DELIM 3 content with
    | None =>
        Ok (issues ++
          [issue FAIL (lit "frontmatter_end")
             (lit "Frontmatter not properly closed (missing second "
              ++ DQ ++ DELIM ++ DQ ++ lit ")")])
    | Some second_delim =>
        let frontmatter_text := strip (take (second_delim - 3) (drop 3 content)) in
        match safe_load frontmatter_text with
        | YAMLError e =>
            Ok (issues ++
              [issue FAIL (lit "frontmatter_parse")
                 (lit "Frontmatter YAML parse error: " ++ e)])
        | LoadRaises e => Raise e
        | Loaded (YDict frontmatter) => check_schema frontmatter issues
        | Loaded _ =>
            Ok (issues ++
              [issue FAIL (lit "frontmatter_parse")
                 (lit "Frontmatter did not parse to a dictionary")])
        end
    end.

End Frontmatter.

(** *** Section checks *)

Definition H2 : str := Eval cbv in lit "## ".
(** The pattern [r'\n## '] of [re.split]. *)
Definition SECTION_SEP : str := NL :: H2.
(** The pattern [r'\n### '] of [re.search]. *)
Definition SUBSECTION : str := Eval cbv in NL :: lit "### ".
Definition FENCE : str := [96%N; 96%N; 96%N].

(** [s.count('\n')] *)
Definition count_nl (s : str) : nat := length (filter (λ c, c = NL) s).

(** The rest of [s] after the prefix [p], when [s] starts with [p]. *)
Fixpoint after_prefix (p s : str) : option str :=
  match p, s with
  | [], _ => Some s
  | a :: p', b :: s' => if (a =? b)%N then after_prefix p' s' else None
  | _ :: _, [] => None
  end.

(** [PRONOUN_PATTERN.match(s)]: [match] tries the pattern at the start of
    the string only, also under [re.MULTILINE]. *)
Definition pronoun_match (s : str) : bool :=
  existsb (λ pronoun,
             match after_prefix pronoun s with
             | Some (c :: _) => isspace c
             | _ => false
             end) PRONOUNS.

(** [re.findall(r'```[\s\S]*?```', s)]: an opening fence with the nearest
    closing one; the search goes on after the closing fence. *)
Fixpoint findall_fenced (skip : nat) (s : str) : list str :=
  match s with
  | [] => []
  | _ :: s' =>
      match skip with
      | S k => findall_fenced k s'
      | O =>
          if startswith FENCE s then
            match find FENCE 3 s with
            | Some close => take (close + 3) s :: findall_fenced (close + 2) s'
            | None => findall_fenced 0 s'
            end
          else findall_fenced 0 s'
      end
  end.

Definition check_code_block (section section_title code_block : str)
    (issues : list ValidationIssue) : list ValidationIssue :=
  let lines_in_block := count_nl code_block in
  if CODE_BLOCK_LONG_THRESHOLD <? lines_in_block then
    let before_code :=
      strip (match find code_block 0 section with
             | Some code_block_pos => take code_block_pos section
             | None => take (length section - 1) section
             end) in
    let recent_text :=
      if 200 <? length before_code
      then drop (length before_code - 200) before_code
      else before_code in
    match find SUBSECTION 0 recent_text with
    | Some _ => issues
    | None =>
        issues ++
          [{| level := WARN; check := lit "code_block_subsection";
              message := lit "Code block with " ++ str_of_nat lines_in_block
                         ++ lit " lines should have its own ### subsection";
              line_number := None;
              details := Some (lit "In section: " ++ DQ ++ section_title ++ DQ) |}]
    end
  else issues.

Definition _check_code_blocks_in_section (section section_title : str)
    (issues : list ValidationIssue) : list ValidationIssue :=
  foldl (λ issues code_block,
           check_code_block section section_title code_block issues)
        issues (findall_fenced 0 section).

(** A match of [r'(#{2,4}[^\n]+\n)\s*```'] at the start of [s]: group 1
    and the length of the match. The heading part is the line up to its
    newline, which starts with two hash marks and has a third character;
    all the whitespace that follows is passed, then comes the fence. *)
Definition bare_match (s : str) : option (str * nat) :=
  let run := line_prefix s in
  if startswith [35%N; 35%N] s && (3 <=? length run)
     && startswith [NL] (drop (length run) s) then
    let after := drop (length run + 1) s in
    let rest := lstrip after in
    if startswith FENCE rest
    then Some (run ++ [NL], length run + 1 + (length after - length rest) + 3)
    else None
  else None.

(** [re.finditer] of that pattern: group 1 of the successive matches. *)
Fixpoint bare_matches (skip : nat) (s : str) : list str :=
  match s with
  | [] => []
  | _ :: s' =>
      match skip with
      | S k => bare_matches k s'
      | O =>
          match bare_match s with
          | Some (group1, len) => group1 :: bare_matches (len - 1) s'
          | None => bare_matches 0 s'
          end
      end
  end.

Definition _check_bare_code_blocks (content : str)
    (issues : list ValidationIssue) : list ValidationIssue :=
  foldl (λ issues group1,
           let heading := strip group1 in
           issues ++
             [{| level := WARN; check := lit "bare_code_block";
                 message := lit "Code block immediately follows heading without prose";
                 line_number := None;
                 details := Some (lit "After: " ++ DQ ++ heading ++ DQ) |}])
        issues (bare_matches 0 content).

(** [len(re.match(r'^#+', line).group())] *)
Fixpoint heading_level (line : str) : nat :=
  match line with
  | c :: line' => if (c =? 35)%N then S (heading_level line') else 0
  | [] => 0
  end.

(** The loop of [_check_heading_hierarchy] over the lines from number
    [line_num] on. *)
Fixpoint hierarchy_loop (lines : list str) (line_num prev_level : nat)
    (issues : list ValidationIssue) : list ValidationIssue :=
  match lines with
  | [] => issues
  | line :: rest =>
      if startswith [35%N] line then
        let level := heading_level line in
        hierarchy_loop rest (S line_num) level
          (if prev_level + 1 <? level then
             issues ++
               [{| level := WARN; check := lit "heading_hierarchy";
                   message := lit "Heading hierarchy skip detected: went from "
                              ++ hashes prev_level ++ lit " to " ++ hashes level;
                   line_number := Some line_num;
                   details := Some (strip line) |}]
           else issues)
      else hierarchy_loop rest (S line_num) prev_level issues
  end.

Definition _check_heading_hierarchy (content : str)
    (issues : list ValidationIssue) : list ValidationIssue :=
  hierarchy_loop (split [NL] content) 1 1 issues.

(** The first sentence after the heading, when there is one: the test
    [if section_text:] and the computation of [first_sentence]. *)
Definition first_sentence (section_lines : list str) : option str :=
  let section_text := strip (join [NL] (tail section_lines)) in
  match section_text with
  | [] => None
  | _ :: _ =>
      Some (strip (match split [NL] section_text with
                   | first :: _ => first
                   | [] => []
                   end))
  end.

(** The body of the loop of [_check_sections] for the [i]-th section. *)
Definition check_section (i : nat) (section : str)
    (issues : list ValidationIssue) : list ValidationIssue :=
  let section_content := H2 ++ section in
  let section_lines := split [NL] section_content in
  let section_title :=
    match section_lines with
    | title :: _ => title
    | [] => lit "Section " ++ str_of_nat i
    end in
  let section_length := length section_content in
  let issues :=
    if MAX_SECTION_LENGTH <? section_length then
      issues ++
        [{| level := FAIL; check := lit "section_length";
            message := lit "Section " ++ DQ ++ section_title ++ DQ
                       ++ lit " exceeds " ++ str_of_nat MAX_SECTION_LENGTH
                       ++ lit " characters (" ++ str_of_nat section_length
                       ++ lit " chars)";
            line_number := None;
            details := Some section_title |}]
    else issues in
  let issues :=
    match first_sentence section_lines with
    | Some first_sentence =>
        if pronoun_match first_sentence then
          issues ++
            [{| level := FAIL; check := lit "section_pronoun";
                message := lit "Section " ++ DQ ++ section_title ++ DQ
                           ++ lit " starts with pronoun";
                line_number := None;
                details := Some (lit "First sentence: " ++ DQ
                                 ++ take 100 first_sentence ++ lit "..." ++ DQ) |}]
        else issues
    | None => issues
    end in
  _check_code_blocks_in_section section_content section_title issues.

Fixpoint sections_loop (i : nat) (sections : list str)
    (issues : list ValidationIssue) : list ValidationIssue :=
  match sections with
  | [] => issues
  | section :: rest => sections_loop (S i) rest (check_section i section issues)
  end.

Definition _check_sections (content : str)
    (issues : list ValidationIssue) : list ValidationIssue :=
  let sections := split SECTION_SEP content in
  if length sections <? 2 then
    issues ++ [issue WARN (lit "sections_exist")
                 (lit "No ## sections found in document")]
  else
    let issues := sections_loop 1 (tail sections) issues in
    let issues := _check_bare_code_blocks content issues in
    _check_heading_hierarchy content issues.

(** *** Structural checks and the validation of one file *)

Definition is_lower_alnum (c : char) : bool :=
  ((97 <=? c) && (c <=? 122) || (48 <=? c) && (c <=? 57))%N.

(** [re.match(r'^[a-z0-9]+(-[a-z0-9]+)*$', s)], read from left to right;
    [in_run] tells that the character before was a letter or a digit.
    [$] also matches before a final newline. *)
Fixpoint kebab_from (in_run : bool) (s : str) : bool :=
  match s with
  | [] => in_run
  | c :: s' =>
      if is_lower_alnum c then kebab_from true s'
      else if (c =? 45)%N then in_run && kebab_from false s'
      else if (c =? NL)%N then in_run && bool_decide (s' = [])
      else false
  end.

(** [_check_structural]; [filename] is [file_path.stem]. *)
Definition _check_structural (content : str) (lines : list str)
    (filename : str) (issues : list ValidationIssue) : list ValidationIssue :=
  let line_count := length lines in
  let issues :=
    if line_count <? STUB_LINE_COUNT then
      issues ++
        [issue WARN (lit "stub_file")
           (lit "File is classified as stub (" ++ str_of_nat line_count
            ++ lit " lines, threshold: " ++ str_of_nat STUB_LINE_COUNT ++ lit ")")]
    else if OVERSIZED_LINE_COUNT <? line_count then
      issues ++
        [issue INFO (lit "oversized_file")
           (lit "File is classified as oversized (" ++ str_of_nat line_count
            ++ lit " lines, threshold: " ++ str_of_nat OVERSIZED_LINE_COUNT
            ++ lit ")")]
    else issues in
  let issues :=
    if kebab_from false filename then issues
    else issues ++
      [issue FAIL (lit "filename_convention")
         (lit "Filename " ++ DQ ++ filename ++ DQ
          ++ lit " is not lowercase-kebab-case")] in
  match last content with
  | Some c =>
      if (c =? NL)%N then issues
      else issues ++ [issue WARN (lit "trailing_newline")
                        (lit "File does not end with a newline")]
  | None => issues
  end.

Record FileValidationResult := {
  file_path : str;
  relative_path : str;
  line_count : nat;
  issues : list ValidationIssue
}.

Section File.
Context {libs : Libraries}.

(** [validate_file]; [read] is the outcome of reading the file, its
    content or the text of the exception, and [filename] the stem of the
    path. An exception of a check is not caught here. *)
Definition validate_file (path relative filename : str) (read : str + str)
    : result FileValidationResult :=
  match read with
  | inr e =>
      Ok {| file_path := path; relative_path := relative; line_count := 0;
            issues := [issue FAIL (lit "file_read")
                         (lit "Failed to read file: " ++ e)] |}
  | inl content =>
      let lines := splitlines content in
      issues ← _check_frontmatter content lines [];
      let issues := _check_sections content issues in
      let issues := _check_structural content lines filename issues in
      Ok {| file_path := path; relative_path := relative;
            line_count := length lines; issues := issues |}
  end.

End File.

(** *** The derived properties of a result *)

Definition has_failures (r : FileValidationResult) : bool :=
  existsb (λ i, bool_decide (level i = FAIL)) (issues r).

Definition has_warnings (r : FileValidationResult) : bool :=
  existsb (λ i, bool_decide (level i = WARN)) (issues r).

Definition failure_count (r : FileValidationResult) : nat :=
  length (filter (λ i, level i = FAIL) (issues r)).

Definition warning_count (r : FileValidationResult) : nat :=
  length (filter (λ i, level i = WARN) (issues r)).

(** *** The scan and the report *)

(** One markdown file as [validate_all] meets it: its path, its path
    relative to the root, the stem of its name and what reading it
    gives. *)
Record md_file := {
  md_path : str;
  md_relative : str;
  md_stem : str;
  md_read : str + str
}.

Section Scan.
Context {libs : Libraries}.

(** [validate_all] over the sorted files; [results] is [self.results]. *)
Fixpoint validate_all (md_files : list md_file)
    (results : list FileValidationResult)
    : result (list FileValidationResult) :=
  match md_files with
  | [] => Ok results
  | f :: rest =>
      r ← validate_file (md_path f) (md_relative f) (md_stem f) (md_read f);
      validate_all rest (results ++ [r])
  end.

End Scan.

Record summary := {
  summary_total_files : nat;
  files_with_failures : nat;
  files_with_warnings : nat;
  files_passing : Z;
  total_failures : nat;
  total_warnings : nat;
  duplicate_basenames_count : nat
}.

Record report := {
  report_summary : summary;
  failures_by_check : gmap str nat;
  warnings_by_check : gmap str nat;
  duplicate_basenames : gmap str (list str);
  report_files : list (str * nat * nat * nat * list ValidationIssue)
}.

(** [d[key] += 1] on a [defaultdict(int)] *)
Definition bump (d : gmap str nat) (key : str) : gmap str nat :=
  <[key := default 0 (d !! key) + 1]> d.

(** The loop that groups the issues by check: the two histograms. *)
Definition count_issue (d : gmap str nat * gmap str nat) (i : ValidationIssue)
    : gmap str nat * gmap str nat :=
  match level i with
  | FAIL => (bump d.1 (check i), d.2)
  | WARN => (d.1, bump d.2 (check i))
  | INFO => d
  end.

Definition by_check (results : list FileValidationResult)
    : gmap str nat * gmap str nat :=
  foldl (λ d r, foldl count_issue d (issues r)) (∅, ∅) results.

Section Report.
(** [Path(p).name], the last component of a path. *)
Variable path_name : str → str.

(** [basename_map[basename].append(result.relative_path)] *)
Definition add_basename (d : gmap str (list str)) (r : FileValidationResult)
    : gmap str (list str) :=
  let basename := path_name (file_path r) in
  <[basename := default [] (d !! basename) ++ [relative_path r]]> d.

Definition basename_map (results : list FileValidationResult)
    : gmap str (list str) :=
  foldl add_basename ∅ results.

(** [generate_report]; a Python dict keeps its keys in insertion order,
    which only the printing of the report looks at. *)
Definition generate_report (results : list FileValidationResult) : report :=
  let total_files := length results in
  let with_failures := length (filter (λ r, has_failures r = true) results) in
  let with_warnings := length (filter (λ r, has_warnings r = true) results) in
  let failures := sum_list (failure_count <$> results) in
  let warnings := sum_list (warning_count <$> results) in
  let duplicates :=
    filter (λ kv : str * list str, 1 < length kv.2) (basename_map results) in
  {| report_summary :=
       {| summary_total_files := total_files;
          files_with_failures := with_failures;
          files_with_warnings := with_warnings;
          files_passing :=
            (Z.of_nat total_files - Z.of_nat with_failures
             - Z.of_nat with_warnings)%Z;
          total_failures := failures;
          total_warnings := warnings;
          duplicate_basenames_count := size duplicates |};
     failures_by_check := (by_check results).1;
     warnings_by_check := (by_check results).2;
     duplicate_basenames := duplicates;
     report_files :=
       (λ r, (relative_path r, line_count r, failure_count r,
              warning_count r, issues r)) <$> results |}.

End Report.

(** The exit status of [main]: [1 if has_failures else 0]. *)
Definition exit_status (results : list FileValidationResult) : nat :=
  if existsb has_failures results then 1 else 0.

End Validate.

(** ** tooling/validate-docs/section-analyzer.py *)

Module SectionAnalyzer.

Import Py.

Definition MAX_LENGTH : nat := 1500.

(** The two counters of [analyze_file] after its loop over
    [sections[1:]]: [(violations, total_sections)]. *)
Definition analyze_file (content : str) : nat * nat :=
  let sections := split Validate.SECTION_SEP content in
  foldl (λ '(violations, total_sections) section,
           let section_content := Validate.H2 ++ section in
           let section_length := length section_content in
           ((if MAX_LENGTH <? section_length
             then violations + 1 else violations),
            total_sections + 1))
        (0, 0) (tail sections).

End SectionAnalyzer.

(** * Notions of the specification *)

Module Spec.

Import Py.

(** ** Heading cleanup *)

Section Cleanup.
Import RemoveEmptyHeadings.

(** The first non-blank line of [rest] exists and is a level-2 heading. *)
Fixpoint first_nonblank_is_h2 (rest : list str) : bool :=
  match rest with
  | [] => false
  | line :: rest' =>
      if is_blank line then first_nonblank_is_h2 rest' else is_h2 line
  end.

(** The lines with every empty level-2 heading left out. *)
Fixpoint cleanup (lines : list str) : list str :=
  match lines with
  | [] => []
  | line :: rest =>
      if is_h2 line && first_nonblank_is_h2 rest
      then cleanup rest
      else line :: cleanup rest
  end.

(** The heading at index [k] of [lines] is empty. *)
Definition is_empty_heading (lines : list str) (k : nat) : bool :=
  match lines !! k with
  | Some line => is_h2 line && first_nonblank_is_h2 (drop (S k) lines)
  | None => false
  end.

(** The indices, from [i] on and in increasing order, that the two loops
    of the utility select; [todo] is [lines] from index [i] on. *)
Fixpoint selected (lines todo : list str) (i : nat) : list nat :=
  match todo with
  | [] => []
  | line :: todo' =>
      (if is_h2 line && next_is_h2 lines i then [i] else [])
      ++ selected lines todo' (S i)
  end.

End Cleanup.

(** ** Validator *)

Section Validator.
Import Validate.

(** The number of issues of a check among [issues]. *)
Definition count_check (chk : str) (issues : list ValidationIssue) : nat :=
  length (filter (λ i, check i = chk) issues).

(** The number of issues of a level among [issues]. *)
Definition count_level (lv : Level) (issues : list ValidationIssue) : nat :=
  length (filter (λ i, level i = lv) issues).

(** [sub] occurs in [s]. *)
Definition occurs (sub s : str) : Prop := ∃ a b, s = a ++ sub ++ b.

(** A heading line of the hierarchy check: it starts with a hash mark. *)
Definition is_heading (line : str) : bool := startswith [35%N] line.

(** The level of the last heading among the lines [before], 1 when there
    is none. *)
Definition previous_level (before : list str) : nat :=
  default 1 (heading_level <$> last (filter (λ l, is_heading l = true) before)).

(** Line [n] (from 0) of [lines] is a heading that skips a level. *)
Definition skips_level (lines : list str) (n : nat) : bool :=
  match lines !! n with
  | Some line =>
      is_heading line && (previous_level (take n lines) + 1 <? heading_level line)
  | None => false
  end.

(** The number of level skips in a sequence of heading levels. *)
Fixpoint count_skips (prev : nat) (levels : list nat) : nat :=
  match levels with
  | [] => 0
  | lv :: rest => (if prev + 1 <? lv then 1 else 0) + count_skips lv rest
  end.

(** The content after the frontmatter block, the block being delimited as
    [_check_frontmatter] does: it ends with the first delimiter found
    from offset 3 on. A content without a closed block has no
    frontmatter. *)
Definition post_frontmatter (content : str) : str :=
  if startswith DELIM content then
    match find DELIM 3 content with
    | Some second_delim => drop (second_delim + 3) content
    | None => content
    end
  else content.

(** The length of the frontmatter block, delimited as for
    [post_frontmatter]; 0 without a closed block. *)
Definition frontmatter_length (content : str) : nat :=
  if startswith DELIM content then
    match find DELIM 3 content with
    | Some second_delim => second_delim + 3
    | None => 0
    end
  else 0.

(** The Sections of a document in the words of the specification: a new
    Section begins at any line that starts with two hash marks and a
    space, and it ends at the start of the next such line or at the end
    of the input. [cut at_start s] scans [s], [at_start] telling that the
    scan is at the start of a line, and gives the text before the first
    Section and the Sections, in order. *)
Fixpoint cut (at_start : bool) (s : str) : str * list str :=
  match s with
  | [] => ([], [])
  | c :: s' =>
      let '(pre, secs) := cut (c =? NL)%N s' in
      if at_start && startswith H2 s then ([], (c :: pre) :: secs)
      else (c :: pre, secs)
  end.

Definition preamble (content : str) : str := (cut true content).1.

Definition document_sections (content : str) : list str :=
  (cut true content).2.

(** A text without the newline at its end, if it has one. *)
Definition chop_newline (s : str) : str :=
  match last s with
  | Some c => if (c =? NL)%N then removelast s else s
  | None => s
  end.

(** Sections as the checks are given them: a Section that another one
    follows comes without the newline that ends it, the last one
    whole. *)
Fixpoint as_checked (secs : list str) : list str :=
  match secs with
  | [] => []
  | [sec] => [sec]
  | sec :: rest => chop_newline sec :: as_checked rest
  end.

(** The other way round: a newline after every piece but the last. *)
Fixpoint with_newlines (pieces : list str) : list str :=
  match pieces with
  | [] => []
  | [piece] => [piece]
  | piece :: rest => (piece ++ [NL]) :: with_newlines rest
  end.

(** The text before the first Section and the Sections, from the pieces
    of the split on [SECTION_SEP]. *)
Definition unsplit (pieces : list str) : str * list str :=
  match pieces with
  | [] => ([], [])
  | [intro] => (intro, [])
  | intro :: rest => (intro ++ [NL], with_newlines ((λ piece, H2 ++ piece) <$> rest))
  end.

(** The section strings the checks are run on: [sections[1:]], each
    with its heading marker put back. *)
Definition section_contents (content : str) : list str :=
  (λ section, H2 ++ section) <$> tail (split SECTION_SEP content).

Definition SL : str := Eval cbv in lit "section_length".
Definition SP : str := Eval cbv in lit "section_pronoun".
Definition HH : str := Eval cbv in lit "heading_hierarchy".

(** A section is over the length limit. *)
Definition is_long (section_content : str) : bool :=
  MAX_SECTION_LENGTH <? length section_content.

(** The pronoun check fires on a section. *)
Definition pronoun_fires (section_content : str) : bool :=
  match first_sentence (split [NL] section_content) with
  | Some sentence => pronoun_match sentence
  | None => false
  end.

(** The lines of the body of a section: those after its heading line. *)
Definition body_lines (section_content : str) : list str :=
  tail (split [NL] section_content).

(** The first line of the body that is not empty. *)
Definition first_nonempty_line (section_content : str) : option str :=
  head (filter (λ line, line ≠ []) (body_lines section_content)).

(** The first line of the body that has a character other than
    whitespace. *)
Definition first_nonblank_line (section_content : str) : option str :=
  head (filter (λ line, RemoveEmptyHeadings.is_blank line = false)
               (body_lines section_content)).

(** The first non-blank line of the body, without the whitespace around
    it, starts with a pronoun followed by whitespace. *)
Definition pronoun_lead (section_content : str) : bool :=
  match first_nonblank_line section_content with
  | Some line => pronoun_match (strip line)
  | None => false
  end.

(** The pronoun rule read on the first non-empty line as it stands. *)
Definition pronoun_lead_as_stated (section_content : str) : bool :=
  match first_nonempty_line section_content with
  | Some line => pronoun_match line
  | None => false
  end.

(** A value that can be looked up in a set. *)
Definition hashable (v : yaml) : bool :=
  match v with
  | YList _ | YDict _ => false
  | YStr _ | YOther _ _ => true
  end.

Definition ENUM_FIELDS : list str :=
  Eval cbv in [lit "stack"; lit "priority"; lit "audience"; lit "complexity"].

(** The values of the enum fields that are present can be hashed. *)
Definition enums_hashable (frontmatter : list (yaml * yaml)) : Prop :=
  ∀ field v, field ∈ ENUM_FIELDS → dict_get frontmatter field = Some v →
    hashable v = true.

(** The issues of one enum check run on its own. *)
Definition enum_issues `{Libraries} (frontmatter : list (yaml * yaml))
    (field : str) (valid : list str) : list ValidationIssue :=
  match check_enum frontmatter field valid [] with
  | Ok issues => issues
  | Raise _ => []
  end.

(** At most one issue, a FAIL of the check [chk]. *)
Definition one_fail (chk : str) (part : list ValidationIssue) : Prop :=
  part = [] ∨ ∃ x, part = [x] ∧ level x = FAIL ∧ check x = chk.

(** The checks of the schema, in the order they are made. *)
Definition SCHEMA_CHECKS : list str :=
  Eval cbv in
    [lit "frontmatter_required_fields"; lit "frontmatter_stack";
     lit "frontmatter_priority"; lit "frontmatter_audience";
     lit "frontmatter_complexity"; lit "frontmatter_confidence";
     lit "frontmatter_date"; lit "frontmatter_tags"].

(** A frontmatter that meets the schema. *)
Definition valid_frontmatter `{Libraries} (fm : list (yaml * yaml)) : Prop :=
  (∀ field, field ∈ REQUIRED_FRONTMATTER → dict_get fm field ≠ None)
  ∧ (∃ s, dict_get fm (lit "stack") = Some (YStr s) ∧ s ∈ VALID_STACKS)
  ∧ (∃ s, dict_get fm (lit "priority") = Some (YStr s) ∧ s ∈ VALID_PRIORITIES)
  ∧ (∃ s, dict_get fm (lit "audience") = Some (YStr s) ∧ s ∈ VALID_AUDIENCES)
  ∧ (∃ s, dict_get fm (lit "complexity") = Some (YStr s)
          ∧ s ∈ VALID_COMPLEXITIES)
  ∧ (∃ v, dict_get fm (lit "source_confidence") = Some v
          ∧ confidence_match (str_of v) = true)
  ∧ (∃ v, dict_get fm (lit "last_updated") = Some v
          ∧ fromisoformat_ok (str_of v) = true)
  ∧ (∃ x xs, dict_get fm (lit "tags") = Some (YList (x :: xs))).

(** The two issues of a frontmatter that is not delimited. *)
Definition frontmatter_start_issue : ValidationIssue :=
  {| level := FAIL; check := lit "frontmatter_start";
     message := lit "File must start with " ++ DQ ++ DELIM ++ DQ
                ++ lit " (frontmatter delimiter)";
     line_number := Some 1; details := None |}.

Definition frontmatter_end_issue : ValidationIssue :=
  issue FAIL (lit "frontmatter_end")
    (lit "Frontmatter not properly closed (missing second "
     ++ DQ ++ DELIM ++ DQ ++ lit ")").

(** The number of issues of level [lv] and check [chk] in all the
    results. *)
Definition count_issues (lv : Level) (chk : str)
    (results : list FileValidationResult) : nat :=
  sum_list_with
    (λ r, length (filter (λ i, level i = lv ∧ check i = chk) (issues r)))
    results.

(** The sum of the counts of a histogram. *)
Definition histogram_total (d : gmap str nat) : nat :=
  map_fold (λ _ n acc, n + acc) 0 d.

(** A result with neither a FAIL nor a WARN, and one with both. *)
Definition is_clean (r : FileValidationResult) : bool :=
  negb (has_failures r) && negb (has_warnings r).

Definition is_mixed (r : FileValidationResult) : bool :=
  has_failures r && has_warnings r.

(** The relative paths of the results whose file is named [basename], in
    the order of the results. *)
Definition paths_named (path_name : str → str) (basename : str)
    (results : list FileValidationResult) : list str :=
  relative_path <$> filter (λ r, path_name (file_path r) = basename) results.

(** What [validate_file] is given for a file of the scan. *)
Definition validate_md `{Libraries} (f : md_file) : result FileValidationResult :=
  validate_file (md_path f) (md_relative f) (md_stem f) (md_read f).

(** A stand-in for the library functions, for the examples: ASCII
    digits, dates of the shape YYYY-MM-DD, and a decoder that knows the
    frontmatter texts of the examples only. *)
Definition sample_libraries : Libraries := {|
  safe_load := λ text,
    if decide (text = lit "stack: [js-nextjs, sanity]") then
      Loaded (YDict [(YStr (lit "stack"),
                      YList [YStr (lit "js-nextjs"); YStr (lit "sanity")])])
    else if decide (text = lit "title: Guide
category: tooling
subcategory: docs
stack: invalid-value
priority: high
audience: backend
complexity: beginner
doc_type: guide
source_confidence: 90%
last_updated: 2026-01-15") then
      Loaded (YDict [(YStr (lit "title"), YStr (lit "Guide"));
                     (YStr (lit "category"), YStr (lit "tooling"));
                     (YStr (lit "subcategory"), YStr (lit "docs"));
                     (YStr (lit "stack"), YStr (lit "invalid-value"));
                     (YStr (lit "priority"), YStr (lit "high"));
                     (YStr (lit "audience"), YStr (lit "backend"));
                     (YStr (lit "complexity"), YStr (lit "beginner"));
                     (YStr (lit "doc_type"), YStr (lit "guide"));
                     (YStr (lit "source_confidence"), YStr (lit "90%"));
                     (YStr (lit "last_updated"),
                      YOther (lit "date") (lit "2026-01-15"))])
    else if decide (text = lit "last_updated: 2024-02-30") then
      LoadRaises (ValueError (lit "day is out of range for month"))
    else YAMLError (lit "unknown text");
  container_str := λ _, lit "[...]";
  isdecimal := λ c, ((48 <=? c) && (c <=? 57))%N;
  fromisoformat_ok := λ s,
    match s with
    | [y1; y2; y3; y4; 45%N; m1; m2; 45%N; d1; d2] =>
        forallb (λ c, ((48 <=? c) && (c <=? 57))%N)
                [y1; y2; y3; y4; m1; m2; d1; d2]
    | _ => false
    end;
  iter_set := λ elements, elements;
  iter_set_perm := λ elements, Permutation_refl elements
|}.

End Validator.

End Spec.

(** * Properties *)

(** ** Facts on the string primitives *)

Section PyFacts.
Import Py.

Example split_overlapping :
  split (lit "ab") (lit "xabyabab") = [lit "x"; lit "y"; lit ""; lit ""].
Proof. reflexivity. Qed.

Example splitlines_final_newline :
  splitlines (lit "ab
c

d
") = [lit "ab"; lit "c"; lit ""; lit "d"].
Proof. reflexivity. Qed.

Example strip_both_ends : strip (lit "  a b  ") = lit "a b".
Proof. reflexivity. Qed.

Example find_second_delimiter : find (lit "---") 3 (lit "---
a: b
---
") = Some 9.
Proof. reflexivity. Qed.

Lemma startswith_app (p r : str) : startswith p (p ++ r) = true.
Proof. induction p as [|a p IH]; simpl; [done|]. by rewrite N.eqb_refl. Qed.

Lemma startswith_inv (p s : str) :
  startswith p s = true → ∃ r, s = p ++ r.
Proof.
  revert s. induction p as [|a p IH]; intros s Hs; simpl in *.
  - by exists s.
  - destruct s as [|b s]; [done|].
    apply andb_true_iff in Hs as [Hab Hs]. apply N.eqb_eq in Hab as ->.
    destruct (IH _ Hs) as [r ->]. by exists r.
Qed.

Lemma split_from_nonempty (sep : str) (k : nat) (s : str) :
  split_from sep k s ≠ [].
Proof.
  revert k. induction s as [|c s IH]; intros k; simpl; [done|].
  destruct k as [|k]; [|apply IH].
  destruct (startswith sep (c :: s)); [done|].
  by destruct (split_from sep 0 s).
Qed.

Lemma join_cons_char (sep : str) (c : char) (p : str) (ps : list str) :
  join sep ((c :: p) :: ps) = c :: join sep (p :: ps).
Proof. by destruct ps. Qed.

Lemma join_cons (sep p : str) (ps : list str) :
  join sep (p :: ps) = p ++ concat (map (λ x, sep ++ x) ps).
Proof.
  revert p. induction ps as [|q ps IH]; intros p.
  - simpl. by rewrite app_nil_r.
  - change (join sep (p :: q :: ps)) with (p ++ sep ++ join sep (q :: ps)).
    rewrite IH. simpl. by rewrite <-!app_assoc.
Qed.

(** Joining the pieces of a split with the separator gives the string
    back: nothing but the separators is taken away by [split]. *)
Lemma join_split_from (sep : str) (s : str) (k : nat) :
  sep ≠ [] → k ≤ length s →
  join sep (split_from sep k s) = drop k s.
Proof.
  intros Hsep. revert k.
  induction s as [|c s IH]; intros k Hk; simpl in *.
  - by replace k with 0 by lia.
  - destruct k as [|k]; [|apply IH; lia].
    destruct (startswith sep (c :: s)) eqn:Hst.
    + destruct (startswith_inv _ _ Hst) as [r Hr].
      destruct sep as [|a sep]; [done|]. simpl in Hr.
      injection Hr as Hc Hs. subst c s.
      pose proof (split_from_nonempty (a :: sep) (length (a :: sep) - 1) (sep ++ r)) as Hne.
      destruct (split_from (a :: sep) (length (a :: sep) - 1) (sep ++ r))
        as [|q qs] eqn:Hq; [done|].
      change (join (a :: sep) ([] :: q :: qs))
        with ((a :: sep) ++ join (a :: sep) (q :: qs)).
      rewrite <-Hq, IH; simpl; rewrite ?Nat.sub_0_r, ?length_app; [|lia].
      by rewrite drop_app_length.
    + pose proof (split_from_nonempty sep 0 s) as Hne.
      destruct (split_from sep 0 s) as [|q qs] eqn:Hq; [done|].
      rewrite join_cons_char, <-Hq, IH by lia. done.
Qed.

Lemma join_split (sep s : str) : sep ≠ [] → join sep (split sep s) = s.
Proof. intros Hsep. unfold split. by rewrite join_split_from by (done || lia). Qed.

(** The equations of a split on the newline. *)
Lemma split_nl_nil : split [NL] [] = [[]].
Proof. done. Qed.

Lemma split_nl_cons (c : char) (s : str) :
  split [NL] (c :: s) =
    if (c =? NL)%N then [] :: split [NL] s
    else match split [NL] s with
         | p :: ps => (c :: p) :: ps
         | [] => [[c]]
         end.
Proof.
  unfold split. cbn [split_from startswith length Nat.sub].
  rewrite andb_true_r, (N.eqb_sym NL c). by destruct (c =? NL)%N.
Qed.

Lemma split_nl_lines (s : str) : Forall (λ line, NL ∉ line) (split [NL] s).
Proof.
  induction s as [|c s IH].
  - rewrite split_nl_nil. repeat constructor. by intros ?%elem_of_nil.
  - rewrite split_nl_cons. destruct (c =? NL)%N eqn:Hc.
    + constructor; [by intros ?%elem_of_nil | done].
    + destruct (split [NL] s) as [|p ps]; inversion IH; subst.
      all: constructor; [|done]; apply not_elem_of_cons.
      all: split; [intros Heq; by rewrite <-Heq, N.eqb_refl in Hc|].
      all: done || by intros ?%elem_of_nil.
Qed.

Lemma split_nl_app (line rest : str) :
  NL ∉ line → split [NL] (line ++ NL :: rest) = line :: split [NL] rest.
Proof.
  induction line as [|c line IH]; intros Hnl.
  - simpl. by rewrite split_nl_cons, N.eqb_refl.
  - simpl. rewrite split_nl_cons.
    destruct (c =? NL)%N eqn:Hc.
    { apply N.eqb_eq in Hc as ->. exfalso. apply Hnl. by left. }
    rewrite IH; [done|]. intros ?. apply Hnl. by right.
Qed.

Lemma split_nl_line (line : str) : NL ∉ line → split [NL] line = [line].
Proof.
  induction line as [|c line IH]; intros Hnl; [done|].
  rewrite split_nl_cons.
  destruct (c =? NL)%N eqn:Hc.
  { apply N.eqb_eq in Hc as ->. exfalso. apply Hnl. by left. }
  rewrite IH; [done|]. intros ?. apply Hnl. by right.
Qed.

(** Splitting what [join] has built from lines gives the lines back. *)
Lemma split_join_nl (lines : list str) :
  lines ≠ [] → Forall (λ line, NL ∉ line) lines →
  split [NL] (join [NL] lines) = lines.
Proof.
  induction lines as [|l lines IH]; intros Hne Hall; [done|].
  inversion Hall as [|?? Hl Hls]; subst.
  destruct lines as [|l' lines].
  - simpl. by apply split_nl_line.
  - change (join [NL] (l :: l' :: lines)) with (l ++ NL :: join [NL] (l' :: lines)).
    rewrite split_nl_app by done. by rewrite IH.
Qed.

(** The first piece of a split is a prefix of the string. *)
Lemma split_from_head (sep s p : str) (ps : list str) :
  sep ≠ [] → split_from sep 0 s = p :: ps → ∃ r, s = p ++ r.
Proof.
  intros Hsep Hsplit.
  pose proof (join_split_from sep s 0 Hsep ltac:(lia)) as Hjoin.
  rewrite Hsplit, join_cons in Hjoin. simpl in Hjoin. eauto.
Qed.

(** No piece of a split contains the separator: every occurrence that
    the scan meets is a cut. *)
Lemma split_from_pieces (sep s : str) (k : nat) :
  sep ≠ [] →
  Forall (λ p, ∀ a b, p ≠ a ++ sep ++ b) (split_from sep k s).
Proof.
  intros Hsep. revert k.
  induction s as [|c s IH]; intros k; simpl.
  - repeat constructor. intros a b Hab.
    symmetry in Hab. apply app_eq_nil in Hab as [_ Hab].
    apply app_eq_nil in Hab as [Hab _]. done.
  - destruct k as [|k]; [|apply IH].
    destruct (startswith sep (c :: s)) eqn:Hst.
    + constructor; [|apply IH]. intros a b Hab.
      symmetry in Hab. apply app_eq_nil in Hab as [_ Hab].
      apply app_eq_nil in Hab as [Hab _]. done.
    + specialize (IH 0).
      destruct (split_from sep 0 s) as [|p ps] eqn:Hsplit.
      { by destruct (split_from_nonempty sep 0 s). }
      inversion IH as [|?? Hp Hps]; subst. constructor; [|done].
      intros [|x a] b Hab.
      * destruct (split_from_head sep s p ps Hsep Hsplit) as [r ->].
        simpl in Hab. rewrite app_comm_cons, Hab, <-app_assoc in Hst.
        by rewrite startswith_app in Hst.
      * simpl in Hab. injection Hab as -> Hab. by apply (Hp a b).
Qed.

(** *** Stripping *)

Lemma lstrip_head (s : str) (c : char) (r : str) :
  lstrip s = c :: r → isspace c = false.
Proof.
  induction s as [|d s IH]; simpl; [done|].
  destruct (isspace d) eqn:Hd; [done|]. by intros [= <- _].
Qed.

Lemma lstrip_nonspace (c : char) (s : str) :
  isspace c = false → lstrip (c :: s) = c :: s.
Proof. intros Hc. simpl. by rewrite Hc. Qed.

Lemma lstrip_lstrip (s : str) : lstrip (lstrip s) = lstrip s.
Proof.
  destruct (lstrip s) as [|c r] eqn:Hs; [done|].
  apply lstrip_nonspace. by eapply lstrip_head.
Qed.

Lemma lstrip_app (l t : str) :
  lstrip (l ++ t) = match lstrip l with [] => lstrip t | _ :: _ => lstrip l ++ t end.
Proof.
  induction l as [|c l IH]; simpl; [by destruct (lstrip t)|].
  by destruct (isspace c).
Qed.

Lemma lstrip_suffix (s : str) : ∃ ws, s = ws ++ lstrip s.
Proof.
  induction s as [|c s [ws IH]]; simpl; [by exists []|].
  destruct (isspace c); [|by exists []].
  exists (c :: ws). simpl. by rewrite <-IH.
Qed.

Lemma rstrip_cons (c : char) (s : str) :
  rstrip (c :: s) =
    match rstrip s with
    | [] => if isspace c then [] else [c]
    | r => c :: r
    end.
Proof. done. Qed.

Lemma rstrip_nonspace (c : char) (s : str) :
  isspace c = false → rstrip (c :: s) = c :: rstrip s.
Proof. intros Hc. rewrite rstrip_cons, Hc. by destruct (rstrip s). Qed.

Lemma rstrip_app_nonspace (a : str) (c : char) (x : str) :
  isspace c = false → rstrip (a ++ c :: x) = a ++ c :: rstrip x.
Proof.
  intros Hc. induction a as [|d a IH]; simpl app.
  - by apply rstrip_nonspace.
  - rewrite rstrip_cons, IH. by destruct a.
Qed.

Lemma lstrip_rstrip (s : str) : lstrip (rstrip s) = rstrip (lstrip s).
Proof.
  induction s as [|c s IH]; [done|].
  destruct (isspace c) eqn:Hc.
  - rewrite rstrip_cons. cbn [lstrip]. rewrite Hc, <-IH.
    destruct (rstrip s) as [|d r]; [done|]. cbn [lstrip]. by rewrite Hc.
  - rewrite (lstrip_nonspace c s Hc), rstrip_nonspace by done.
    by apply lstrip_nonspace.
Qed.

Lemma strip_nil_iff (s : str) : strip s = [] ↔ lstrip s = [].
Proof.
  unfold strip. split; [|by intros ->].
  destruct (lstrip s) as [|c r] eqn:Hs; [done|].
  rewrite rstrip_nonspace by (by eapply lstrip_head). done.
Qed.

(** *** The first line *)

Lemma split_nl_head (s : str) : ∃ rest, split [NL] s = line_prefix s :: rest.
Proof.
  induction s as [|c s [rest IH]]; [by exists []|].
  rewrite split_nl_cons. simpl.
  destruct (c =? NL)%N; [by eexists|]. rewrite IH. by eexists.
Qed.

Lemma line_prefix_line (l t : str) :
  NL ∉ l → t = [] ∨ (∃ t', t = NL :: t') → line_prefix (l ++ t) = l.
Proof.
  intros Hl Ht. induction l as [|c l IH]; simpl.
  - by destruct Ht as [->|[t' ->]].
  - apply not_elem_of_cons in Hl as [Hc Hl].
    destruct (c =? NL)%N eqn:Hcn; [by apply N.eqb_eq in Hcn|].
    by rewrite IH.
Qed.

(** Cutting the trailing whitespace before or after taking the first line
    gives the same first line, up to its own trailing whitespace. *)
Lemma rstrip_line_prefix (s : str) :
  rstrip (line_prefix (rstrip s)) = rstrip (line_prefix s).
Proof.
  induction s as [|c s IH]; [done|].
  rewrite rstrip_cons. cbn [line_prefix].
  destruct (c =? NL)%N eqn:Hc.
  - destruct (rstrip s); [destruct (isspace c)|];
      cbn [line_prefix]; by rewrite ?Hc.
  - rewrite rstrip_cons, <-IH.
    destruct (rstrip s) as [|d r] eqn:Hr.
    + destruct (isspace c) eqn:Hs; cbn [line_prefix rstrip];
        rewrite ?Hc; cbn [rstrip]; by rewrite ?Hs.
    + cbn [line_prefix]. rewrite Hc. by rewrite rstrip_cons.
Qed.

Lemma join_nl_cons (l : str) (ls : list str) :
  join [NL] (l :: ls)
  = l ++ match ls with [] => [] | _ :: _ => NL :: join [NL] ls end.
Proof. destruct ls; [by rewrite app_nil_r|done]. Qed.

End PyFacts.

(** ** The heading-cleanup utility *)

Section CleanupFacts.
Import Py RemoveEmptyHeadings Spec.

Lemma filter_iff_in {A : Type} (P1 P2 : A → Prop)
    `{!∀ x, Decision (P1 x), !∀ x, Decision (P2 x)} (l : list A) :
  (∀ x, x ∈ l → P1 x ↔ P2 x) → filter P1 l = filter P2 l.
Proof.
  induction l as [|a l IH]; intros Hiff; [done|].
  rewrite !filter_cons, IH by (intros x Hx; apply Hiff; by right).
  destruct (decide (P1 a)) as [H1|H1], (decide (P2 a)) as [H2|H2]; try done.
  - exfalso. apply H2, (Hiff a); [by left|done].
  - exfalso. apply H1, (Hiff a); [by left|done].
Qed.

Lemma is_h2_not_blank (line : str) : is_h2 line = true → is_blank line = false.
Proof.
  intros Hh. destruct (startswith_inv _ _ Hh) as [r ->].
  unfold is_blank, strip. cbn. by destruct (rstrip _).
Qed.

Lemma drop_eq_cons (lines : list str) (j : nat) (line : str) (rest : list str) :
  drop j lines = line :: rest → lines !! j = Some line ∧ drop (S j) lines = rest.
Proof.
  intros Hd. split.
  - rewrite <-(Nat.add_0_r j), <-lookup_drop, Hd. done.
  - rewrite <-Nat.add_1_r, <-drop_drop, Hd. done.
Qed.

Lemma drop_eq_nil (lines : list str) (j : nat) :
  drop j lines = [] → lines !! j = None.
Proof.
  intros Hd. apply lookup_ge_None_2.
  pose proof (length_drop lines j) as Hl. rewrite Hd in Hl. simpl in Hl. lia.
Qed.

(** The index loop reads the line that the structural scan reads. *)
Lemma skip_blank_first_nonblank (lines rest : list str) (j : nat) :
  drop j lines = rest →
  match lines !! skip_blank rest j with
  | Some line => is_h2 line
  | None => false
  end = first_nonblank_is_h2 rest.
Proof.
  revert j. induction rest as [|line rest IH]; intros j Hd; simpl.
  - by rewrite (drop_eq_nil _ _ Hd).
  - destruct (drop_eq_cons _ _ _ _ Hd) as [Hj Hrest].
    destruct (is_blank line); [by apply IH|]. by rewrite Hj.
Qed.

Lemma next_is_h2_spec (lines : list str) (i : nat) :
  next_is_h2 lines i = first_nonblank_is_h2 (drop (S i) lines).
Proof.
  unfold next_is_h2. rewrite Nat.add_1_r.
  by apply skip_blank_first_nonblank.
Qed.

Lemma selected_spec (lines todo : list str) (i k : nat) :
  drop i lines = todo →
  k ∈ selected lines todo i ↔ i ≤ k ∧ is_empty_heading lines k = true.
Proof.
  revert i. induction todo as [|line todo IH]; intros i Hd; simpl.
  - split; [by intros ?%elem_of_nil|]. intros [Hik He].
    unfold is_empty_heading in He.
    rewrite (lookup_ge_None_2 lines k) in He; [done|].
    pose proof (length_drop lines i) as Hl. rewrite Hd in Hl. simpl in Hl. lia.
  - destruct (drop_eq_cons _ _ _ _ Hd) as [Hi Hrest].
    rewrite elem_of_app, (IH (S i) Hrest), next_is_h2_spec.
    assert (is_empty_heading lines i = is_h2 line && first_nonblank_is_h2 (drop (S i) lines))
      as Hei by (unfold is_empty_heading; by rewrite Hi).
    destruct (is_h2 line && first_nonblank_is_h2 (drop (S i) lines)) eqn:Hsel.
    + rewrite list_elem_of_singleton. split.
      * intros [->|[? ?]]; split; (done || lia).
      * intros [Hik He]. destruct (decide (k = i)) as [->|]; [by left|right].
        split; [lia|done].
    + split.
      * intros [?%elem_of_nil|[? ?]]; [done|]. split; [lia|done].
      * intros [Hik He]. right. split; [|done].
        destruct (decide (k = i)) as [->|]; [congruence|lia].
Qed.

Lemma selected_lower (lines todo : list str) (i k : nat) :
  k ∈ selected lines todo i → i ≤ k.
Proof.
  revert i. induction todo as [|line todo IH]; intros i; simpl.
  - by intros ?%elem_of_nil.
  - intros [Hk|Hk]%elem_of_app; [|apply IH in Hk; lia].
    destruct (_ && _); [|by apply elem_of_nil in Hk].
    apply list_elem_of_singleton in Hk. lia.
Qed.

Lemma selected_NoDup (lines todo : list str) (i : nat) :
  NoDup (selected lines todo i).
Proof.
  revert i. induction todo as [|line todo IH]; intros i; simpl; [constructor|].
  destruct (_ && _); simpl; [|done].
  constructor; [|done]. intros Hi%selected_lower. lia.
Qed.

Lemma remove_loop_selected (lines todo : list str) (i : nat) (acc : gset nat) :
  remove_loop lines todo i acc = acc ∪ list_to_set (selected lines todo i).
Proof.
  revert i acc. induction todo as [|line todo IH]; intros i acc; simpl.
  - set_solver.
  - rewrite IH. destruct (_ && _); set_solver.
Qed.

Lemma lines_to_remove_spec (lines : list str) (k : nat) :
  k ∈ lines_to_remove lines ↔ is_empty_heading lines k = true.
Proof.
  unfold lines_to_remove. rewrite remove_loop_selected.
  rewrite elem_of_union, elem_of_list_to_set, (selected_spec lines lines 0 k) by done.
  split; [intros [?%not_elem_of_empty|[_ ?]]; done|]. intros ?. right. split; [lia|done].
Qed.

Lemma lines_to_remove_size (lines : list str) :
  size (lines_to_remove lines) = length (selected lines lines 0).
Proof.
  unfold lines_to_remove. rewrite remove_loop_selected, (left_id_L ∅ (∪)).
  apply size_list_to_set, selected_NoDup.
Qed.

(** The comprehension that builds [new_lines] is the structural
    [cleanup]. *)
Lemma new_lines_from (lines todo : list str) (i : nat) :
  drop i lines = todo →
  (filter (λ p : nat * str, p.1 ∉ lines_to_remove lines)
          (imap (λ k line, (i + k, line)) todo)).*2
  = cleanup todo.
Proof.
  revert i. induction todo as [|line todo IH]; intros i Hd; [done|].
  destruct (drop_eq_cons _ _ _ _ Hd) as [Hi Hrest].
  cbn [imap cleanup]. rewrite filter_cons.
  assert (imap ((λ k l, (i + k, l)) ∘ S) todo
          = imap (λ k l, (S i + k, l)) todo) as ->.
  { apply imap_ext. intros k l _. simpl. f_equal. lia. }
  pose proof (lines_to_remove_spec lines i) as Hspec.
  unfold is_empty_heading in Hspec. rewrite Hi, Hrest in Hspec.
  rewrite Nat.add_0_r. cbn [fst].
  destruct (is_h2 line && first_nonblank_is_h2 todo).
  - rewrite decide_False by (intros Hn; apply Hn, Hspec; done).
    by apply IH.
  - rewrite decide_True by (intros Hin%Hspec; done).
    rewrite fmap_cons. cbn [snd]. f_equal. by apply IH.
Qed.

Lemma new_lines_cleanup (lines : list str) :
  new_lines lines (lines_to_remove lines) = cleanup lines.
Proof. unfold new_lines. by apply (new_lines_from lines lines 0). Qed.

Lemma selected_cleanup_length (lines todo : list str) (i : nat) :
  drop i lines = todo →
  length (selected lines todo i) + length (cleanup todo) = length todo.
Proof.
  revert i. induction todo as [|line todo IH]; intros i Hd; [done|].
  destruct (drop_eq_cons _ _ _ _ Hd) as [Hi Hrest].
  cbn [selected cleanup]. rewrite next_is_h2_spec, Hrest, length_app.
  specialize (IH (S i) Hrest).
  destruct (is_h2 line && first_nonblank_is_h2 todo); simpl; lia.
Qed.

(** Removing empty headings never makes the next non-blank line of a
    kept heading a heading. *)
Lemma first_nonblank_cleanup (rest : list str) :
  first_nonblank_is_h2 (cleanup rest) = true → first_nonblank_is_h2 rest = true.
Proof.
  induction rest as [|line rest IH]; [done|]. simpl.
  destruct (is_blank line) eqn:Hb.
  - assert (is_h2 line = false) as ->.
    { destruct (is_h2 line) eqn:Hh; [|done].
      apply is_h2_not_blank in Hh. congruence. }
    simpl. by rewrite Hb.
  - destruct (is_h2 line) eqn:Hh; simpl.
    + done.
    + by rewrite Hb, Hh.
Qed.

Lemma cleanup_idempotent (lines : list str) :
  cleanup (cleanup lines) = cleanup lines.
Proof.
  induction lines as [|line rest IH]; [done|]. simpl.
  destruct (is_h2 line && first_nonblank_is_h2 rest) eqn:Hsel; [done|].
  simpl. rewrite IH.
  destruct (is_h2 line && first_nonblank_is_h2 (cleanup rest)) eqn:Hsel'; [|done].
  apply andb_true_iff in Hsel' as [Hh Hf%first_nonblank_cleanup].
  by rewrite Hh, Hf in Hsel.
Qed.

Lemma cleanup_nonempty (lines : list str) : lines ≠ [] → cleanup lines ≠ [].
Proof.
  induction lines as [|line rest IH]; [done|]. intros _. simpl.
  destruct rest as [|line' rest].
  - simpl. by rewrite andb_false_r.
  - destruct (_ && _); [by apply IH|done].
Qed.

Lemma cleanup_sublist (lines : list str) : cleanup lines `sublist_of` lines.
Proof.
  induction lines as [|line rest IH]; simpl; [constructor|].
  destruct (_ && _); by constructor.
Qed.

Lemma split_cleanup (content : str) :
  split [NL] (join [NL] (cleanup (split [NL] content)))
  = cleanup (split [NL] content).
Proof.
  apply split_join_nl.
  - apply cleanup_nonempty, split_from_nonempty.
  - apply Forall_forall. intros line Hline.
    pose proof (split_nl_lines content) as Hall.
    rewrite Forall_forall in Hall. apply Hall.
    eapply elem_of_sublist; [done|apply cleanup_sublist].
Qed.

(** A heading with content after it, before any other level-2 heading,
    is not empty. *)
Lemma first_nonblank_content (mid : list str) (line : str) (post : list str) :
  Forall (λ l, is_h2 l = false) mid →
  is_blank line = false → is_h2 line = false →
  first_nonblank_is_h2 (mid ++ line :: post) = false.
Proof.
  intros Hmid Hb Hh. induction Hmid as [|l mid Hl _ IH]; simpl.
  - by rewrite Hb.
  - by destruct (is_blank l).
Qed.

Lemma first_nonblank_all_blank (rest : list str) :
  Forall (λ l, is_blank l = true) rest → first_nonblank_is_h2 rest = false.
Proof. induction 1 as [|l rest Hl _ IH]; simpl; [done|]. by rewrite Hl. Qed.

(** The look-ahead succeeds only when it reaches a level-2 heading. *)
Lemma first_nonblank_reaches (rest : list str) :
  first_nonblank_is_h2 rest = true →
  ∃ pre line post, rest = pre ++ line :: post
    ∧ Forall (λ l, is_blank l = true) pre ∧ is_h2 line = true.
Proof.
  induction rest as [|l rest IH]; [done|]. simpl.
  destruct (is_blank l) eqn:Hb.
  - intros (pre & line & post & -> & Hpre & Hh)%IH.
    exists (l :: pre), line, post. repeat split; [|done]. by constructor.
  - intros Hh. by exists [], l, rest.
Qed.

Lemma find_loop_selected (lines todo : list str) (i : nat)
    (acc : list (nat * str)) :
  drop i lines = todo →
  find_loop lines todo i acc
  = acc ++ map (λ k, (k + 1, default [] (lines !! k))) (selected lines todo i).
Proof.
  revert i acc. induction todo as [|line todo IH]; intros i acc Hd; simpl.
  - by rewrite app_nil_r.
  - destruct (drop_eq_cons _ _ _ _ Hd) as [Hi Hrest].
    rewrite (IH _ _ Hrest), map_app.
    destruct (_ && _); simpl; [|done].
    by rewrite Hi, <-app_assoc.
Qed.

Lemma kept_line (lines : list str) (i : nat) (line : str) :
  lines !! i = Some line → i ∉ lines_to_remove lines →
  line ∈ new_lines lines (lines_to_remove lines).
Proof.
  intros Hi Hkeep. unfold new_lines.
  apply list_elem_of_fmap. exists (i, line). split; [done|].
  apply list_elem_of_filter. split; [done|].
  by apply (elem_of_lookup_imap_2 pair).
Qed.

Lemma remove_empty_headings_eq (content : str) :
  remove_empty_headings content
  = (join [NL] (cleanup (split [NL] content)),
     length (selected (split [NL] content) (split [NL] content) 0)).
Proof.
  unfold remove_empty_headings.
  by rewrite new_lines_cleanup, lines_to_remove_size.
Qed.

Lemma lookup_between (lines : list str) (i k : nat) (line_k : str) :
  i < k → lines !! k = Some line_k →
  drop (S i) lines
  = take (k - S i) (drop (S i) lines) ++ line_k :: drop (S k) lines.
Proof.
  intros Hik Hk.
  rewrite <-(take_drop_middle (drop (S i) lines) (k - S i) line_k) at 1.
  - do 2 f_equal. rewrite drop_drop. f_equal. lia.
  - rewrite lookup_drop, <-Hk. f_equal. lia.
Qed.

End CleanupFacts.

Section CleanupClaims.
Import Py RemoveEmptyHeadings Spec.

Example remove_first_of_two_headings :
  remove_empty_headings (lit "## A

## B
text
## C
") = (lit "
## B
text
## C
", 1).
Proof. by vm_compute. Qed.

Example find_first_of_two_headings :
  find_empty_headings (lit "## A

## B
text
## C
") = [(1, lit "## A")].
Proof. by vm_compute. Qed.

(** C8. The heading cleanup is idempotent: run on its own output,
    [remove_empty_headings] returns that text unchanged with a removal
    count of zero; and a level-2 heading followed, before any further
    level-2 heading, by a line that is neither blank nor a level-2 heading
    is not removed: its index is not marked and its line is in the
    output. *)
Theorem remove_empty_headings_idempotent_and_safe :
  (∀ content : str,
     remove_empty_headings (remove_empty_headings content).1
     = ((remove_empty_headings content).1, 0))
  ∧ (∀ (content : str) (i k : nat) (line_i line_k : str),
       let lines := split [NL] content in
       lines !! i = Some line_i → is_h2 line_i = true →
       i < k → lines !! k = Some line_k →
       is_blank line_k = false → is_h2 line_k = false →
       (∀ m line_m, i < m < k → lines !! m = Some line_m → is_h2 line_m = false) →
       (i ∉ lines_to_remove lines)
       ∧ line_i ∈ split [NL] (remove_empty_headings content).1).
Proof.
  split.
  - intros content. rewrite !remove_empty_headings_eq. cbn [fst].
    rewrite split_cleanup, cleanup_idempotent. f_equal.
    pose proof (selected_cleanup_length (cleanup (split [NL] content))
                  (cleanup (split [NL] content)) 0 eq_refl) as Hlen.
    rewrite cleanup_idempotent in Hlen. lia.
  - intros content i k line_i line_k lines Hi Hh Hik Hk Hb Hnh Hmid.
    assert (i ∉ lines_to_remove lines) as Hkeep.
    { rewrite lines_to_remove_spec. unfold is_empty_heading.
      rewrite Hi, (lookup_between lines i k line_k Hik Hk).
      rewrite first_nonblank_content; [by rewrite andb_false_r| |done|done].
      apply Forall_lookup_2. intros j l [Hj Hlt]%lookup_take_Some.
      rewrite lookup_drop in Hj. eapply Hmid; [|exact Hj]. lia. }
    split; [done|].
    rewrite remove_empty_headings_eq. cbn [fst]. rewrite split_cleanup.
    rewrite <-new_lines_cleanup. by apply (kept_line lines i).
Qed.

Lemma remove_empty_headings_idempotent_and_safe_witness :
  let content := lit "## A
text
## B" in
  (0 ∉ lines_to_remove (split [NL] content))
  ∧ lit "## A" ∈ split [NL] (remove_empty_headings content).1.
Proof.
  intros content.
  apply (proj2 remove_empty_headings_idempotent_and_safe
           content 0 1 (lit "## A") (lit "text")).
  - reflexivity.
  - reflexivity.
  - lia.
  - reflexivity.
  - reflexivity.
  - reflexivity.
  - intros m line_m Hm. lia.
Defined.

(** C9. A level-2 heading after which only blank lines (or nothing)
    follow up to the end of the content is kept by
    [remove_empty_headings] and not reported by [find_empty_headings];
    a heading is selected only when the look-ahead, over blank lines,
    reaches a further level-2 heading. *)
Theorem trailing_empty_heading_kept :
  (∀ (content : str) (i : nat) (line : str),
     let lines := split [NL] content in
     lines !! i = Some line → is_h2 line = true →
     (∀ k l, i < k → lines !! k = Some l → is_blank l = true) →
     (i ∉ lines_to_remove lines)
     ∧ (∀ text, (i + 1, text) ∉ find_empty_headings content)
     ∧ line ∈ split [NL] (remove_empty_headings content).1)
  ∧ (∀ (content : str) (i : nat),
       let lines := split [NL] content in
       i ∈ lines_to_remove lines ∨ (∃ text, (i + 1, text) ∈ find_empty_headings content) →
       ∃ j next, i < j ∧ lines !! j = Some next ∧ is_h2 next = true
         ∧ ∀ m l, i < m < j → lines !! m = Some l → is_blank l = true).
Proof.
  assert (∀ (content : str) i text,
            (i + 1, text) ∈ find_empty_headings content →
            i ∈ lines_to_remove (split [NL] content)) as Hfound.
  { intros content i text. unfold find_empty_headings.
    rewrite find_loop_selected by done. simpl.
    intros (k & [= Hik _] & Hk)%list_elem_of_fmap.
    assert (i = k) as -> by lia.
    apply lines_to_remove_spec. by apply (selected_spec _ _ 0 k eq_refl). }
  split.
  - intros content i line lines Hi Hh Hblank.
    assert (i ∉ lines_to_remove lines) as Hkeep.
    { rewrite lines_to_remove_spec. unfold is_empty_heading. rewrite Hi.
      rewrite first_nonblank_all_blank; [by rewrite andb_false_r|].
      apply Forall_lookup_2. intros j l Hj. rewrite lookup_drop in Hj.
      eapply Hblank; [|exact Hj]. lia. }
    split; [done|]. split.
    + intros text Hin. by apply Hkeep, (Hfound content i text).
    + rewrite remove_empty_headings_eq. cbn [fst]. rewrite split_cleanup.
      rewrite <-new_lines_cleanup. by apply (kept_line lines i).
  - intros content i lines Hsel.
    assert (i ∈ lines_to_remove lines) as Hin.
    { destruct Hsel as [?|[text Ht]]; [done|]. by apply (Hfound content i text). }
    apply lines_to_remove_spec in Hin. unfold is_empty_heading in Hin.
    destruct (lines !! i) as [line|] eqn:Hi; [|done].
    apply andb_true_iff in Hin as [_ Hf].
    destruct (first_nonblank_reaches _ Hf) as (pre & next & post & Hd & Hpre & Hh).
    exists (S i + length pre), next. split; [lia|]. split; [|split; [done|]].
    + rewrite <-lookup_drop, Hd. by rewrite list_lookup_middle.
    + intros m l Hm Hl.
      assert (pre !! (m - S i) = Some l) as Hp.
      { rewrite <-(lookup_app_l pre (next :: post)) by lia.
        rewrite <-Hd, lookup_drop, <-Hl. f_equal. lia. }
      by apply (Forall_lookup_1 _ _ _ _ Hpre Hp).
Qed.

Lemma trailing_empty_heading_kept_witness :
  let content := lit "intro
## Last

" in
  (1 ∉ lines_to_remove (split [NL] content))
  ∧ (∀ text, (1 + 1, text) ∉ find_empty_headings content)
  ∧ lit "## Last" ∈ split [NL] (remove_empty_headings content).1.
Proof.
  intros content.
  apply (proj1 trailing_empty_heading_kept content 1 (lit "## Last")).
  - reflexivity.
  - reflexivity.
  - intros k l Hk Hl.
    destruct k as [|[|[|[|k]]]]; try lia; vm_compute in Hl;
      try discriminate; by injection Hl as <-.
Defined.

(** C10. [find_empty_headings] and [remove_empty_headings] agree: a line
    is reported, with its 1-based number, exactly when its index is
    marked for removal; the lines of the returned text are the lines of
    the content whose number is not reported, in their order, so the
    reported headings are exactly the lines removed; the number of
    reported headings is the removed count and the number of lines the
    text has lost, and the two counts of [process_file] are equal. *)
Theorem find_and_remove_agree (content : str) (dry_run : bool) :
  let lines := split [NL] content in
  let found := find_empty_headings content in
  let new_content := (remove_empty_headings content).1 in
  (∀ n text, (n, text) ∈ found ↔
     ∃ i, n = i + 1 ∧ i ∈ lines_to_remove lines ∧ lines !! i = Some text)
  ∧ split [NL] new_content
    = (filter (λ p : nat * str, (p.1 + 1) ∉ found.*1) (imap pair lines)).*2
  ∧ length (split [NL] new_content) + length found = length lines
  ∧ length found = (remove_empty_headings content).2
  ∧ empty_count (process_file content dry_run).1
    = removed (process_file content dry_run).1.
Proof.
  intros lines found new_content.
  assert (found = map (λ k, (k + 1, default [] (lines !! k)))
                      (selected lines lines 0)) as Hfound.
  { unfold found, find_empty_headings. by rewrite find_loop_selected. }
  assert (length found = (remove_empty_headings content).2) as Hlen.
  { rewrite Hfound, remove_empty_headings_eq, length_map. done. }
  assert (∀ n text, (n, text) ∈ found ↔
            ∃ i, n = i + 1 ∧ i ∈ lines_to_remove lines ∧ lines !! i = Some text)
    as Hagree.
  { intros n text. rewrite Hfound. split.
    - intros (k & [= -> ->] & Hk)%list_elem_of_fmap.
      apply (selected_spec _ _ 0 k eq_refl) in Hk as [_ Hk].
      exists k. split; [done|]. split; [by apply lines_to_remove_spec|].
      unfold is_empty_heading in Hk. by destruct (lines !! k).
    - intros (i & -> & Hi & Ht). apply list_elem_of_fmap. exists i.
      split; [by rewrite Ht|].
      apply (selected_spec _ _ 0 i eq_refl). split; [lia|].
      by apply lines_to_remove_spec. }
  assert (split [NL] new_content = new_lines lines (lines_to_remove lines))
    as Hout.
  { unfold new_content. rewrite remove_empty_headings_eq. cbn [fst].
    fold lines. rewrite new_lines_cleanup. apply split_cleanup. }
  split; [done|]. split; [|split; [|split; [done|]]].
  - rewrite Hout. unfold new_lines. f_equal. apply filter_iff_in.
    intros [i text] Hin. cbn [fst].
    assert (lines !! i = Some text) as Hi.
    { apply elem_of_lookup_imap in Hin as (j & y & [= -> ->] & Hj). done. }
    split.
    + intros Hout' (p & Hp1 & Hp)%list_elem_of_fmap. destruct p as [n t].
      cbn [fst] in Hp1. subst n.
      apply Hagree in Hp as (j & Hj & Hrem & _).
      assert (j = i) as -> by lia. done.
    + intros Hout' Hrem. apply Hout'. apply list_elem_of_fmap.
      exists (i + 1, text). split; [done|]. apply Hagree. by exists i.
  - rewrite Hout, new_lines_cleanup, Hlen, remove_empty_headings_eq. cbn [snd].
    fold lines. pose proof (selected_cleanup_length lines lines 0 eq_refl). lia.
  - unfold process_file. fold found.
    destruct found as [|f fs] eqn:Hf; [done|].
    destruct (remove_empty_headings content) as [new_content' removed_count].
    simpl in *. done.
Qed.

End CleanupClaims.

(** ** The validator *)

(** A closed decidable proposition, settled by evaluation. *)
Ltac decide_closed :=
  match goal with
  | |- ?P => apply (proj1 (bool_decide_eq_true P)); vm_compute; reflexivity
  end.

Section IssueFacts.
Import Py Validate Spec.

Lemma count_check_app (chk : str) (a b : list ValidationIssue) :
  count_check chk (a ++ b) = count_check chk a + count_check chk b.
Proof. unfold count_check. by rewrite filter_app, length_app. Qed.

Lemma count_check_other (chk : str) (l : list ValidationIssue) :
  Forall (λ i, check i ≠ chk) l → count_check chk l = 0.
Proof.
  unfold count_check. induction 1 as [|i l Hi _ IH]; [done|].
  by rewrite filter_cons, decide_False.
Qed.

Lemma count_check_all (chk : str) (l : list ValidationIssue) :
  Forall (λ i, check i = chk) l → count_check chk l = length l.
Proof.
  unfold count_check. induction 1 as [|i l Hi _ IH]; [done|].
  rewrite filter_cons, decide_True by done. simpl. by rewrite IH.
Qed.

(** Every check appends to the list of issues it is given. *)
Lemma check_code_block_app (section title block : str) (issues : list ValidationIssue) :
  check_code_block section title block issues
  = issues ++ check_code_block section title block [].
Proof.
  unfold check_code_block.
  destruct (_ <? _); [|by rewrite app_nil_r].
  destruct (find SUBSECTION _ _); [by rewrite app_nil_r|done].
Qed.

Lemma check_code_block_checks (section title block : str) :
  Forall (λ i, check i = lit "code_block_subsection")
         (check_code_block section title block []).
Proof.
  unfold check_code_block.
  destruct (_ <? _); [|done].
  destruct (find SUBSECTION _ _); [done|]. by repeat constructor.
Qed.

Lemma code_blocks_fold (section title : str) (blocks : list str)
    (issues : list ValidationIssue) :
  ∃ new, foldl (λ issues block, check_code_block section title block issues)
               issues blocks = issues ++ new
         ∧ Forall (λ i, check i = lit "code_block_subsection") new.
Proof.
  revert issues. induction blocks as [|b blocks IH]; intros issues; cbn [foldl].
  - exists []. by rewrite app_nil_r.
  - destruct (IH (check_code_block section title b issues)) as (new & -> & Hnew).
    rewrite check_code_block_app, <-app_assoc. eexists. split; [done|].
    apply Forall_app. split; [apply check_code_block_checks|done].
Qed.

Lemma check_code_blocks_in_section_app (section title : str)
    (issues : list ValidationIssue) :
  ∃ new, _check_code_blocks_in_section section title issues = issues ++ new
         ∧ Forall (λ i, check i = lit "code_block_subsection") new.
Proof. apply code_blocks_fold. Qed.

Lemma check_bare_code_blocks_app (content : str) (issues : list ValidationIssue) :
  ∃ new, _check_bare_code_blocks content issues = issues ++ new
         ∧ Forall (λ i, check i = lit "bare_code_block") new.
Proof.
  unfold _check_bare_code_blocks.
  generalize (bare_matches 0 content). intros groups. revert issues.
  induction groups as [|g groups IH]; intros issues; cbn [foldl].
  - exists []. by rewrite app_nil_r.
  - match goal with
    | |- context [foldl _ ?a groups] => destruct (IH a) as (new & -> & Hnew)
    end.
    rewrite <-app_assoc. eexists. split; [done|].
    constructor; [done|done].
Qed.

Lemma hierarchy_loop_app (lines : list str) (n prev : nat)
    (issues : list ValidationIssue) :
  hierarchy_loop lines n prev issues
  = issues ++ hierarchy_loop lines n prev [].
Proof.
  revert n prev issues. induction lines as [|line lines IH]; intros n prev issues; cbn [hierarchy_loop].
  - by rewrite app_nil_r.
  - destruct (startswith _ line); [|apply IH].
    destruct (_ <? _); [|apply IH].
    rewrite IH, (IH _ _ ([] ++ _)). by rewrite <-app_assoc.
Qed.

Lemma hierarchy_loop_checks (lines : list str) (n prev : nat) :
  Forall (λ i, level i = WARN ∧ check i = lit "heading_hierarchy")
         (hierarchy_loop lines n prev []).
Proof.
  revert n prev. induction lines as [|line lines IH]; intros n prev; cbn [hierarchy_loop]; [done|].
  destruct (startswith _ line); [|apply IH].
  destruct (_ <? _); [|apply IH].
  rewrite hierarchy_loop_app. constructor; [done|apply IH].
Qed.

End IssueFacts.

Section HierarchyFacts.
Import Py Validate Spec.

Lemma previous_level_snoc (before : list str) (line : str) :
  previous_level (before ++ [line])
  = if is_heading line then heading_level line else previous_level before.
Proof.
  unfold previous_level. rewrite filter_app, filter_cons, filter_nil.
  destruct (is_heading line) eqn:Hh.
  - rewrite decide_True by done. by rewrite last_snoc.
  - rewrite decide_False by done. by rewrite app_nil_r.
Qed.

(** The loop, started after the lines [before], warns at the lines that
    skip a level, and only there. *)
Lemma hierarchy_loop_lines (before rest : list str) :
  line_number <$> hierarchy_loop rest (S (length before)) (previous_level before) []
  = (λ n, Some (S n))
      <$> filter (λ n, skips_level (before ++ rest) n = true)
                 (seq (length before) (length rest)).
Proof.
  revert before. induction rest as [|line rest IH]; intros before; [done|].
  cbn [hierarchy_loop length seq]. rewrite filter_cons.
  assert (skips_level (before ++ line :: rest) (length before)
          = is_heading line && (previous_level before + 1 <? heading_level line))
    as ->.
  { unfold skips_level. by rewrite list_lookup_middle, take_app_length. }
  specialize (IH (before ++ [line])).
  rewrite previous_level_snoc, length_app, <-app_assoc in IH.
  cbn [length app] in IH. rewrite Nat.add_1_r in IH.
  fold (is_heading line). destruct (is_heading line) eqn:Hh.
  - rewrite hierarchy_loop_app, fmap_app, IH.
    destruct (_ <? _); [rewrite decide_True by done|rewrite decide_False by done];
      done.
  - rewrite decide_False by done. exact IH.
Qed.

Lemma hierarchy_loop_count (lines : list str) (n prev : nat) :
  length (hierarchy_loop lines n prev [])
  = count_skips prev (heading_level <$> filter (λ l, is_heading l = true) lines).
Proof.
  revert n prev. induction lines as [|line lines IH]; intros n prev; [done|].
  cbn [hierarchy_loop]. rewrite filter_cons. fold (is_heading line).
  destruct (is_heading line) eqn:Hh.
  - rewrite decide_True by done. cbn [fmap list_fmap count_skips].
    rewrite hierarchy_loop_app, length_app, IH.
    by destruct (_ <? _).
  - rewrite decide_False by done. apply IH.
Qed.

End HierarchyFacts.

Section SectionFacts.
Import Py Validate Spec.

(** What one turn of the section loop appends. *)
Lemma check_section_app (i : nat) (section : str) (issues : list ValidationIssue) :
  ∃ lp pp cp,
    check_section i section issues = issues ++ lp ++ pp ++ cp
    ∧ (lp = [] ∧ length (H2 ++ section) ≤ MAX_SECTION_LENGTH
       ∨ ∃ x, lp = [x] ∧ level x = FAIL ∧ check x = SL
              ∧ MAX_SECTION_LENGTH < length (H2 ++ section))
    ∧ (pp = [] ∧ pronoun_fires (H2 ++ section) = false
       ∨ ∃ x, pp = [x] ∧ level x = FAIL ∧ check x = SP
              ∧ pronoun_fires (H2 ++ section) = true)
    ∧ Forall (λ x, check x = lit "code_block_subsection") cp.
Proof.
  unfold check_section, pronoun_fires.
  match goal with
  | |- context [_check_code_blocks_in_section ?s ?t ?a] =>
      destruct (check_code_blocks_in_section_app s t a) as (cp & -> & Hcp)
  end.
  destruct (MAX_SECTION_LENGTH <? length (H2 ++ section)) eqn:Hlen.
  - apply Nat.ltb_lt in Hlen.
    destruct (first_sentence _) as [fs|]; [destruct (pronoun_match fs) eqn:Hp|].
    + eexists [_], [_], cp. rewrite <-!app_assoc.
      split; [done|]. split; [right; eexists; done|].
      split; [right; eexists; done|done].
    + eexists [_], [], cp. rewrite <-!app_assoc.
      split; [done|]. split; [right; eexists; done|]. split; [by left|done].
    + eexists [_], [], cp. rewrite <-!app_assoc.
      split; [done|]. split; [right; eexists; done|]. split; [by left|done].
  - apply Nat.ltb_ge in Hlen.
    destruct (first_sentence _) as [fs|]; [destruct (pronoun_match fs) eqn:Hp|].
    + eexists [], [_], cp. rewrite <-!app_assoc.
      split; [done|]. split; [by left|].
      split; [right; eexists; done|done].
    + eexists [], [], cp. split; [done|]. split; [by left|]. split; [by left|done].
    + eexists [], [], cp. split; [done|]. split; [by left|]. split; [by left|done].
Qed.

Lemma count_check_single (chk : str) (x : ValidationIssue) :
  count_check chk [x] = if decide (check x = chk) then 1 else 0.
Proof. unfold count_check. rewrite filter_cons. by destruct (decide _). Qed.

Lemma check_section_counts (i : nat) (s : str) (issues : list ValidationIssue) :
  ∃ new,
    check_section i s issues = issues ++ new
    ∧ count_check SL new = (if is_long (H2 ++ s) then 1 else 0)
    ∧ count_check SP new = (if pronoun_fires (H2 ++ s) then 1 else 0)
    ∧ Forall (λ x, check x = SL ∨ check x = SP
                   ∨ check x = lit "code_block_subsection") new
    ∧ Forall (λ x, check x = SL ∨ check x = SP → level x = FAIL) new.
Proof.
  destruct (check_section_app i s issues)
    as (lp & pp & cp & -> & Hlp & Hpp & Hcp).
  exists (lp ++ pp ++ cp). split; [done|].
  assert (count_check SL cp = 0 ∧ count_check SP cp = 0) as [HcL HcP].
  { split; apply count_check_other; eapply Forall_impl; try exact Hcp;
      intros x -> ?; discriminate. }
  assert (Forall (λ x, check x = SL ∨ check x = SP → level x = FAIL) cp) as HcF.
  { eapply Forall_impl; [exact Hcp|]. intros x -> [?|?]; discriminate. }
  assert (Forall (λ x, check x = SL ∨ check x = SP
                       ∨ check x = lit "code_block_subsection") cp) as HcC.
  { eapply Forall_impl; [exact Hcp|]. intros x ->. auto. }
  rewrite !count_check_app, HcL, HcP. unfold is_long.
  destruct Hlp as [[-> Hle]|(x & -> & Hxl & Hxc & Hlt)];
    destruct Hpp as [[-> Hpf]|(y & -> & Hyl & Hyc & Hpf)]; rewrite Hpf.
  all: rewrite ?(proj2 (Nat.ltb_ge _ _) Hle), ?(proj2 (Nat.ltb_lt _ _) Hlt).
  all: rewrite ?count_check_single, ?Hxc, ?Hyc.
  all: repeat match goal with
         | |- context [decide (?a = ?b)] =>
             destruct (decide (a = b)) as [Heq|Hne];
               [try discriminate Heq|try done]
         end.
  all: cbn [app]; repeat split; repeat (constructor; auto); done.
Qed.

(** The issues of the section loop, check by check. *)
Lemma sections_loop_app (i : nat) (sections : list str)
    (issues : list ValidationIssue) :
  ∃ new,
    sections_loop i sections issues = issues ++ new
    ∧ count_check SL new
      = length (filter (λ s, is_long (H2 ++ s) = true) sections)
    ∧ count_check SP new
      = length (filter (λ s, pronoun_fires (H2 ++ s) = true) sections)
    ∧ Forall (λ x, check x = SL ∨ check x = SP
                   ∨ check x = lit "code_block_subsection") new
    ∧ Forall (λ x, check x = SL ∨ check x = SP → level x = FAIL) new.
Proof.
  revert i issues. induction sections as [|s sections IH]; intros i issues.
  - exists []. simpl. rewrite app_nil_r. repeat split; done.
  - cbn [sections_loop].
    destruct (IH (S i) (check_section i s issues))
      as (new & -> & HL & HP & Hchk & Hlv).
    destruct (check_section_counts i s issues)
      as (one & -> & HL1 & HP1 & Hchk1 & Hlv1).
    exists (one ++ new). rewrite <-app_assoc. split; [done|].
    rewrite !filter_cons, !count_check_app, HL, HP, HL1, HP1.
    split; [|split; [|split; by apply Forall_app]].
    + destruct (is_long (H2 ++ s));
        [rewrite decide_True by done|rewrite decide_False by done]; done.
    + destruct (pronoun_fires (H2 ++ s));
        [rewrite decide_True by done|rewrite decide_False by done]; done.
Qed.

End SectionFacts.

Section SectionsFacts.
Import Py Validate Spec.

Lemma cut_cons (at_start : bool) (c : char) (s : str) :
  cut at_start (c :: s)
  = if at_start && startswith H2 (c :: s)
    then ([], (c :: (cut (c =? NL)%N s).1) :: (cut (c =? NL)%N s).2)
    else (c :: (cut (c =? NL)%N s).1, (cut (c =? NL)%N s).2).
Proof. cbn [cut]. by destruct (cut (c =? NL)%N s). Qed.

Lemma cut_no_heading (s : str) :
  startswith H2 s = false → cut true s = cut false s.
Proof.
  destruct s as [|c s]; [done|]. intros Hs. by rewrite !cut_cons, Hs.
Qed.

(** The scan puts every character in the text before the first Section
    or in one Section, in order. *)
Lemma cut_concat (at_start : bool) (s : str) :
  s = (cut at_start s).1 ++ concat (cut at_start s).2.
Proof.
  revert at_start. induction s as [|c s IH]; intros at_start; [done|].
  rewrite cut_cons. specialize (IH (c =? NL)%N).
  destruct (at_start && startswith H2 (c :: s)); cbn [fst snd concat app];
    by rewrite <-?app_assoc, <-IH.
Qed.

Lemma unsplit_cons (c : char) (piece : str) (pieces : list str) :
  unsplit ((c :: piece) :: pieces)
  = (c :: (unsplit (piece :: pieces)).1, (unsplit (piece :: pieces)).2).
Proof. by destruct pieces. Qed.

Lemma unsplit_sep (pieces : list str) :
  pieces ≠ [] →
  unsplit ([] :: pieces)
  = ([NL], (H2 ++ (unsplit pieces).1) :: (unsplit pieces).2).
Proof.
  destruct pieces as [|q0 [|q1 qs]]; [done|done|]. intros _.
  cbn [unsplit fmap list_fmap with_newlines fst snd app].
  by rewrite <-!app_assoc.
Qed.

(** The scan from inside a line and the split on [SECTION_SEP] cut the
    text at the same places. *)
Lemma cut_split (s : str) : cut false s = unsplit (split SECTION_SEP s).
Proof.
  remember (length s) as n eqn:Hn. revert s Hn.
  induction n as [n IH] using lt_wf_ind. intros s Hn.
  destruct s as [|c s]; [done|].
  destruct (startswith SECTION_SEP (c :: s)) eqn:Hsep.
  - apply startswith_inv in Hsep as [t Ht].
    injection Ht as -> ->.
    change (split SECTION_SEP (NL :: 35%N :: 35%N :: 32%N :: t))
      with ([] :: split SECTION_SEP t).
    rewrite unsplit_sep by apply split_from_nonempty.
    rewrite <-(IH (length t)); [|simpl in Hn; lia|done].
    rewrite !cut_cons. cbn [andb fst snd]. done.
  - unfold split. cbn [split_from]. fold (split SECTION_SEP s).
    unfold split in Hsep |- *. rewrite Hsep. fold (split SECTION_SEP s).
    rewrite cut_cons. cbn [andb].
    assert (cut (c =? NL)%N s = cut false s) as ->.
    { destruct (N.eqb_spec c NL) as [->|]; [|done].
      apply cut_no_heading. cbn [SECTION_SEP startswith] in Hsep.
      by rewrite N.eqb_refl in Hsep. }
    rewrite (IH (length s)); [|simpl in Hn; lia|done].
    pose proof (split_from_nonempty SECTION_SEP 0 s) as Hne.
    fold (split SECTION_SEP s) in Hne.
    destruct (split SECTION_SEP s) as [|piece pieces]; [done|].
    by rewrite unsplit_cons.
Qed.

(** The Sections of the specification from the pieces of the split. A
    content that starts with a heading has its first Section in the
    piece that the checks skip. *)
Lemma document_sections_split (content : str) :
  document_sections content
  = with_newlines ((if startswith H2 content
                    then [hd [] (split SECTION_SEP content)] else [])
                   ++ section_contents content).
Proof.
  unfold document_sections, section_contents.
  destruct (startswith H2 content) eqn:Hh.
  - destruct content as [|c s]; [done|].
    pose proof (cut_split (c :: s)) as Hcut.
    rewrite !cut_cons in *. rewrite Hh. cbn [andb fst snd] in *.
    destruct (split SECTION_SEP (c :: s)) as [|p0 [|p1 ps]];
      cbn [unsplit] in Hcut; injection Hcut as H1 H2'.
    + done.
    + by rewrite H1, H2'.
    + rewrite H1, H2'. done.
  - rewrite cut_no_heading, cut_split by done.
    by destruct (split SECTION_SEP content) as [|p0 [|p1 ps]].
Qed.

Lemma preamble_split (content : str) :
  startswith H2 content = false →
  preamble content = (unsplit (split SECTION_SEP content)).1.
Proof. intros Hh. unfold preamble. by rewrite cut_no_heading, cut_split. Qed.

Lemma chop_newline_snoc (piece : str) : chop_newline (piece ++ [NL]) = piece.
Proof.
  unfold chop_newline. rewrite last_snoc. cbn.
  by rewrite removelast_last.
Qed.

Lemma with_newlines_cons (p q : str) (ps : list str) :
  with_newlines (p :: q :: ps) = (p ++ [NL]) :: with_newlines (q :: ps).
Proof. done. Qed.

Lemma as_checked_cons (a b : str) (secs : list str) :
  as_checked (a :: b :: secs) = chop_newline a :: as_checked (b :: secs).
Proof. done. Qed.

Lemma as_checked_with_newlines (pieces : list str) :
  as_checked (with_newlines pieces) = pieces.
Proof.
  induction pieces as [|p pieces IH]; [done|].
  destruct pieces as [|q ps]; [done|].
  assert (∃ x l, with_newlines (q :: ps) = x :: l) as (x & l & Hw)
    by (destruct ps; eauto).
  rewrite with_newlines_cons, Hw, as_checked_cons, <-Hw.
  by rewrite chop_newline_snoc, IH.
Qed.

(** Away from a heading on the first line, the checks are given the
    Sections of the specification, each without the newline that ends it
    when another Section follows. *)
Lemma section_contents_sections (content : str) :
  startswith H2 content = false →
  section_contents content = as_checked (document_sections content).
Proof.
  intros Hh. by rewrite document_sections_split, Hh, as_checked_with_newlines.
Qed.

Lemma with_newlines_lengths (n : nat) (pieces : list str) :
  Forall (λ s, length s ≤ n) (with_newlines pieces) →
  Forall (λ s, length s ≤ n) pieces.
Proof.
  induction pieces as [|p pieces IH]; [done|].
  destruct pieces as [|q ps]; [done|].
  rewrite with_newlines_cons. intros [Hp Hrest]%Forall_cons.
  constructor; [|by apply IH].
  rewrite length_app in Hp. simpl in Hp. lia.
Qed.

Lemma chop_newline_prefix (sec : str) :
  ∃ nl, sec = chop_newline sec ++ nl.
Proof.
  unfold chop_newline. destruct (last sec) as [c|] eqn:Hlast.
  - destruct (c =? NL)%N; [|exists []; by rewrite app_nil_r].
    apply last_Some in Hlast as [l' ->]. exists [c].
    by rewrite removelast_last.
  - exists []. by rewrite app_nil_r.
Qed.

(** Each section given to the checks is a contiguous piece of the
    Sections put end to end, and together they are a subsequence. *)
Lemma as_checked_pieces (secs : list str) :
  Forall (λ sc, ∃ pre post, concat secs = pre ++ sc ++ post) (as_checked secs)
  ∧ concat (as_checked secs) `sublist_of` concat secs.
Proof.
  induction secs as [|sec secs IH].
  - split; constructor.
  - destruct secs as [|sec' secs].
    + split; [|done]. constructor; [|constructor].
      exists [], []. cbn. by rewrite !app_nil_r.
    + destruct IH as [IH1 IH2]. rewrite as_checked_cons.
      change (concat (sec :: sec' :: secs)) with (sec ++ concat (sec' :: secs)).
      change (concat (chop_newline sec :: as_checked (sec' :: secs)))
        with (chop_newline sec ++ concat (as_checked (sec' :: secs))).
      destruct (chop_newline_prefix sec) as [nl Hnl]. split.
      * constructor.
        -- exists [], (nl ++ concat (sec' :: secs)). cbn [app].
           rewrite Hnl at 1. by rewrite <-app_assoc.
        -- eapply Forall_impl; [exact IH1|]. intros sc (pre & post & Hsc).
           exists (sec ++ pre), post. rewrite Hsc. by rewrite <-app_assoc.
      * apply sublist_app; [|done].
        rewrite Hnl at 2. by apply sublist_inserts_r.
Qed.

Lemma post_frontmatter_drop (content : str) :
  post_frontmatter content = drop (frontmatter_length content) content.
Proof.
  unfold post_frontmatter, frontmatter_length.
  destruct (startswith DELIM content); [|done].
  by destruct (find DELIM 3 content).
Qed.

End SectionsFacts.

Section SectionClaims.
Import Py Validate Spec.

Example check_sections_sample :
  check <$> _check_sections (lit "---
title: x
---
# T

## A
This is a test.

## B
```
code
```
#### deep
") []
  = [lit "section_pronoun"; lit "bare_code_block"; lit "heading_hierarchy"].
Proof. by vm_compute. Qed.

Lemma check_sections_none (content : str) (issues : list ValidationIssue) :
  length (split SECTION_SEP content) < 2 →
  _check_sections content issues
  = issues ++ [issue WARN (lit "sections_exist")
                 (lit "No ## sections found in document")].
Proof.
  intros Hlen. unfold _check_sections.
  by rewrite (proj2 (Nat.ltb_lt _ _) Hlen).
Qed.

Lemma check_sections_found (content : str) :
  2 ≤ length (split SECTION_SEP content) →
  ∃ bare,
    _check_sections content []
    = sections_loop 1 (tail (split SECTION_SEP content)) []
      ++ bare ++ _check_heading_hierarchy content []
    ∧ Forall (λ x, check x = lit "bare_code_block") bare.
Proof.
  intros Hlen. unfold _check_sections.
  rewrite (proj2 (Nat.ltb_ge _ _) Hlen).
  destruct (check_bare_code_blocks_app content
              (sections_loop 1 (tail (split SECTION_SEP content)) []))
    as (bare & -> & Hbare).
  exists bare. split; [|done].
  unfold _check_heading_hierarchy. by rewrite hierarchy_loop_app, app_assoc.
Qed.

Lemma filter_long_fmap (sections : list str) :
  length (filter (λ s, is_long (H2 ++ s) = true) sections)
  = length (filter (λ sc, is_long sc = true)
                   ((λ section, H2 ++ section) <$> sections)).
Proof.
  induction sections as [|s sections IH]; [done|].
  rewrite fmap_cons, !filter_cons.
  cbv beta. destruct (decide (is_long (H2 ++ s) = true)); cbn [length]; by rewrite IH.
Qed.

(** The [section_length] issues count the sections over the limit. *)
Lemma section_length_count (content : str) :
  count_check SL (_check_sections content [])
  = length (filter (λ sc, is_long sc = true) (section_contents content))
  ∧ Forall (λ x, check x = SL → level x = FAIL) (_check_sections content []).
Proof.
  unfold section_contents. rewrite <-filter_long_fmap.
  destruct (decide (length (split SECTION_SEP content) < 2)) as [Hlt|Hge].
  - rewrite check_sections_none by done.
    destruct (split SECTION_SEP content) as [|s0 [|s1 rest]]; simpl in Hlt;
      [| |lia]; (split; [done|]); repeat constructor; intros [=].
  - destruct (check_sections_found content) as (bare & -> & Hbare); [lia|].
    destruct (sections_loop_app 1 (tail (split SECTION_SEP content)) [])
      as (new & -> & HL & _ & _ & Hlv).
    cbn [app]. rewrite !count_check_app, HL.
    rewrite (count_check_other SL bare), (count_check_other SL (_check_heading_hierarchy _ _)).
    + split; [lia|]. rewrite !Forall_app. split; [|split].
      * eapply Forall_impl; [exact Hlv|]. simpl. auto.
      * eapply Forall_impl; [exact Hbare|]. intros x -> [=].
      * eapply Forall_impl; [apply hierarchy_loop_checks|]. intros x [_ ->] [=].
    + eapply Forall_impl; [apply hierarchy_loop_checks|]. intros x [_ ->] [=].
    + eapply Forall_impl; [exact Hbare|]. intros x -> [=].
Qed.

(** C4 (amended). A document whose every Section (from a line that
    starts with two hash marks and a space to the start of the next such
    line or the end) has at most 1500 characters gets no
    [section_length] issue. The check measures a Section that another
    one follows without the newline that ends it, the last one whole: in
    a document that does not start with a level-2 heading, the
    [section_length] issues are as many as the Sections over 1500
    characters when measured so, and one Section of exactly 1501
    characters so measured, the others within the limit, gives exactly
    one issue, a FAIL. *)
Theorem section_length_limit :
  (∀ content : str,
     Forall (λ sec, length sec ≤ 1500) (document_sections content) →
     count_check SL (_check_sections content []) = 0)
  ∧ (∀ content : str,
       startswith H2 content = false →
       count_check SL (_check_sections content [])
       = length (filter (λ sec, 1500 < length sec)
                        (as_checked (document_sections content))))
  ∧ (∀ (content : str) (before : list str) (sec : str) (after : list str),
       startswith H2 content = false →
       as_checked (document_sections content) = before ++ sec :: after →
       length sec = 1501 →
       Forall (λ s, length s ≤ 1500) before →
       Forall (λ s, length s ≤ 1500) after →
       count_check SL (_check_sections content []) = 1
       ∧ Forall (λ x, check x = SL → level x = FAIL) (_check_sections content [])).
Proof.
  assert (∀ l : list str, Forall (λ s, length s ≤ 1500) l →
            filter (λ sc, is_long sc = true) l = []) as Hshort.
  { induction 1 as [|s l Hs _ IH]; [done|].
    rewrite filter_cons, decide_False; [done|].
    unfold is_long, MAX_SECTION_LENGTH. rewrite (proj2 (Nat.ltb_ge _ _) Hs). done. }
  assert (∀ l : list str,
            filter (λ sc, is_long sc = true) l
            = filter (λ sec, 1500 < length sec) l) as Hlong.
  { intros l. apply filter_iff_in. intros sc _.
    unfold is_long, MAX_SECTION_LENGTH. apply Nat.ltb_lt. }
  split; [|split].
  - intros content Hall.
    rewrite document_sections_split in Hall.
    apply with_newlines_lengths, Forall_app in Hall as [_ Hall].
    rewrite (proj1 (section_length_count content)), Hshort; done.
  - intros content Hh.
    rewrite (proj1 (section_length_count content)), Hlong.
    by rewrite section_contents_sections.
  - intros content before sc after Hh Hsec Hlen Hb Ha.
    rewrite <-section_contents_sections in Hsec by done.
    split; [|apply section_length_count].
    rewrite (proj1 (section_length_count content)), Hsec.
    rewrite filter_app, filter_cons, (Hshort _ Hb), (Hshort _ Ha).
    rewrite decide_True; [done|].
    unfold is_long, MAX_SECTION_LENGTH. rewrite Hlen. done.
Qed.

Lemma section_length_limit_witness :
  (let content := lit "intro
## A
body" in
   count_check SL (_check_sections content []) = 0)
  ∧ (let content := lit "intro
## " ++ replicate 1498 97%N ++ lit "
## B
x" in
     count_check SL (_check_sections content []) = 1
     ∧ Forall (λ x, check x = SL → level x = FAIL) (_check_sections content [])).
Proof.
  split.
  - intros content. apply (proj1 section_length_limit content).
    vm_compute. repeat constructor.
  - intros content.
    apply (proj2 (proj2 section_length_limit) content []
             (H2 ++ replicate 1498 97%N) [lit "## B
x"]).
    + reflexivity.
    + vm_compute. reflexivity.
    + vm_compute. reflexivity.
    + constructor.
    + repeat constructor.
Defined.

(** C4 as stated fails: the first Section below has 1501 characters,
    the newline that ends it included, and the check, which measures it
    without that newline, reports nothing. *)
Lemma long_section_before_another :
  let content := lit "intro
## A
" ++ replicate 1495 98%N ++ lit "
## B
x" in
  document_sections content
  = [lit "## A
" ++ replicate 1495 98%N ++ [NL]; lit "## B
x"]
  ∧ length <$> document_sections content = [1501; 6]
  ∧ count_check SL (_check_sections content []) = 0.
Proof. intros content. split; [|split]; by vm_compute. Qed.

(** C5. The hierarchy check walks the lines that start with a hash mark
    in document order, the previous level being 1 at the start and the
    level of the last heading afterwards: it warns, with the 1-based line
    number, exactly at the headings whose level exceeds the previous level
    plus 1, and every issue is a [heading_hierarchy] WARN. Headings of
    levels 1, 2, 4 give exactly one warning and headings of levels
    1, 2, 3, 4 give none; when the document has sections these are the
    [heading_hierarchy] issues of the section rule engine. *)
Theorem heading_hierarchy_skips :
  (∀ content : str,
     let lines := split [NL] content in
     let issues := _check_heading_hierarchy content [] in
     line_number <$> issues
     = (λ n, Some (S n))
         <$> filter (λ n, skips_level lines n = true) (seq 0 (length lines))
     ∧ Forall (λ x, level x = WARN ∧ check x = HH) issues)
  ∧ (∀ content : str,
       heading_level <$> filter (λ l, is_heading l = true) (split [NL] content)
       = [1; 2; 4] →
       length (_check_heading_hierarchy content []) = 1)
  ∧ (∀ content : str,
       heading_level <$> filter (λ l, is_heading l = true) (split [NL] content)
       = [1; 2; 3; 4] →
       _check_heading_hierarchy content [] = [])
  ∧ (∀ content : str,
       2 ≤ length (split SECTION_SEP content) →
       count_check HH (_check_sections content [])
       = length (_check_heading_hierarchy content [])).
Proof.
  split; [|split; [|split]].
  - intros content lines issues. split.
    + apply (hierarchy_loop_lines [] lines).
    + apply hierarchy_loop_checks.
  - intros content Hlv. unfold _check_heading_hierarchy.
    by rewrite hierarchy_loop_count, Hlv.
  - intros content Hlv. apply length_zero_iff_nil.
    unfold _check_heading_hierarchy. by rewrite hierarchy_loop_count, Hlv.
  - intros content Hsec.
    destruct (check_sections_found content Hsec) as (bare & -> & Hbare).
    destruct (sections_loop_app 1 (tail (split SECTION_SEP content)) [])
      as (new & -> & _ & _ & Hchk & _).
    cbn [app]. rewrite !count_check_app.
    rewrite (count_check_other HH new), (count_check_other HH bare).
    + rewrite (count_check_all HH (_check_heading_hierarchy content [])); [done|].
      eapply Forall_impl; [apply hierarchy_loop_checks|]. by intros x [_ ->].
    + eapply Forall_impl; [exact Hbare|]. intros x -> [=].
    + eapply Forall_impl; [exact Hchk|].
      intros x [-> | [-> | ->]] [=].
Qed.

Lemma heading_hierarchy_skips_witness :
  length (_check_heading_hierarchy (lit "# Title
## Part
#### Deep") []) = 1
  ∧ _check_heading_hierarchy (lit "# Title
## Part
### Sub
#### Deep") [] = []
  ∧ count_check HH (_check_sections (lit "# Title
## Part
#### Deep") [])
    = length (_check_heading_hierarchy (lit "# Title
## Part
#### Deep") []).
Proof.
  split; [|split].
  - apply (proj1 (proj2 heading_hierarchy_skips)). reflexivity.
  - apply (proj1 (proj2 (proj2 heading_hierarchy_skips))). reflexivity.
  - apply (proj2 (proj2 (proj2 heading_hierarchy_skips))). vm_compute. lia.
Defined.

(** C2 (amended). On a document without any section, [_check_sections]
    appends the single [sections_exist] WARN and returns: the per-section
    checks have nothing to run on, and the two whole-document checks are
    not run either. *)
Theorem no_sections_single_warning
    (content : str) (issues : list ValidationIssue) :
  section_contents content = [] →
  _check_sections content issues
  = issues ++ [issue WARN (lit "sections_exist")
                 (lit "No ## sections found in document")].
Proof.
  intros Hnone. apply check_sections_none.
  unfold section_contents in Hnone.
  destruct (split SECTION_SEP content) as [|s0 [|s1 more]]; simpl; [lia|lia|done].
Qed.

Lemma no_sections_single_warning_witness :
  _check_sections (lit "# Title
Some prose.
") []
  = [issue WARN (lit "sections_exist") (lit "No ## sections found in document")].
Proof.
  apply (no_sections_single_warning (lit "# Title
Some prose.
") []).
  reflexivity.
Defined.

(** C2 as stated fails: the document below has no section, a heading
    that skips levels and a code block right under a heading; the two
    whole-document checks warn on it when they are run, and the section
    rule engine reports neither. *)
Lemma no_sections_skips_document_checks :
  let content := lit "# Title
#### Deep
```
code
```
" in
  section_contents content = []
  ∧ count_check HH (_check_heading_hierarchy content []) = 1
  ∧ count_check (lit "bare_code_block") (_check_bare_code_blocks content []) = 1
  ∧ count_check HH (_check_sections content []) = 0
  ∧ count_check (lit "bare_code_block") (_check_sections content []) = 0
  ∧ _check_sections content []
    = [issue WARN (lit "sections_exist") (lit "No ## sections found in document")].
Proof. by vm_compute. Qed.

End SectionClaims.

Section SplitterClaims.
Import Py Validate Spec.

Lemma section_sep_nonempty : SECTION_SEP ≠ [].
Proof. done. Qed.

(** The content is the text before the first section, then every section
    after the newline that opened it. *)
Lemma content_sections (content : str) :
  ∃ intro,
    split SECTION_SEP content = intro :: tail (split SECTION_SEP content)
    ∧ content = intro ++ concat ((λ sc, NL :: sc) <$> section_contents content).
Proof.
  pose proof (join_split SECTION_SEP content section_sep_nonempty) as Hjoin.
  pose proof (split_from_nonempty SECTION_SEP 0 content) as Hne.
  unfold section_contents. fold (split SECTION_SEP content) in Hne.
  destruct (split SECTION_SEP content) as [|intro rest]; [done|].
  exists intro. split; [done|].
  rewrite join_cons in Hjoin. rewrite <-Hjoin at 1. f_equal.
  cbn [tail]. rewrite <-list_fmap_compose. done.
Qed.

Lemma concat_sublist_separated (secs : list str) :
  concat secs `sublist_of` concat ((λ sc, NL :: sc) <$> secs).
Proof.
  induction secs as [|sc secs IH]; [constructor|].
  cbn [concat fmap list_fmap]. apply sublist_app; [|done].
  by apply sublist_cons.
Qed.

Lemma section_has_no_heading_inside (piece : str) :
  (∀ a b, piece ≠ a ++ SECTION_SEP ++ b) →
  ∀ a b, H2 ++ piece ≠ a ++ SECTION_SEP ++ b.
Proof.
  intros Hp a b Hab.
  destruct a as [|x0 [|x1 [|x2 a]]]; try discriminate Hab.
  injection Hab as _ _ _ Hab. by apply (Hp a b).
Qed.

(** The pieces of the split hold no further separator, and every section
    starts with its heading marker. *)
Lemma sections_hold_no_separator (content : str) :
  Forall (λ sc, startswith H2 sc = true ∧ ∀ a b, sc ≠ a ++ SECTION_SEP ++ b)
         (section_contents content).
Proof.
  destruct (content_sections content) as (intro & Hsplit & _).
  pose proof (split_from_pieces SECTION_SEP content 0 section_sep_nonempty) as Hpieces.
  fold (split SECTION_SEP content) in Hpieces. rewrite Hsplit in Hpieces.
  inversion Hpieces as [|?? Hintro Hrest]; subst.
  unfold section_contents. apply Forall_fmap.
  eapply Forall_impl; [exact Hrest|]. intros piece Hp. split.
  - apply startswith_app.
  - by apply section_has_no_heading_inside.
Qed.

Lemma analyze_file_total (content : str) :
  (SectionAnalyzer.analyze_file content).2 = length (section_contents content).
Proof.
  unfold SectionAnalyzer.analyze_file, section_contents.
  rewrite length_fmap.
  generalize (tail (split SECTION_SEP content)). intros secs.
  assert (∀ v t, (foldl (λ '(violations, total_sections) section,
              let section_content := H2 ++ section in
              let section_length := length section_content in
              ((if SectionAnalyzer.MAX_LENGTH <? section_length
                then violations + 1 else violations),
               total_sections + 1)) (v, t) secs).2 = t + length secs) as Hfold.
  { induction secs as [|s secs IH]; intros v t; simpl; [lia|].
    rewrite IH. lia. }
  apply (Hfold 0 0).
Qed.

(** C1 (amended). For a document that does not start with a level-2
    heading and whose frontmatter block ends in the text before the
    first Section, the section splitter gives, in order, the Sections of
    the document, each without the newline that ends it when another
    Section follows, and nothing else is lost or duplicated: the content
    is the text before the first Section followed by the Sections, the
    content after the frontmatter is what is left of that text followed
    by the Sections, the concatenation of the sections is a subsequence
    of the content after the frontmatter and every section is a
    contiguous piece of it, its text unchanged. The section analyzer
    counts these same sections. *)
Theorem sections_partition_content (content : str) :
  startswith H2 content = false →
  frontmatter_length content ≤ length (preamble content) →
  section_contents content = as_checked (document_sections content)
  ∧ content = preamble content ++ concat (document_sections content)
  ∧ post_frontmatter content
    = drop (frontmatter_length content) (preamble content)
      ++ concat (document_sections content)
  ∧ concat (section_contents content) `sublist_of` post_frontmatter content
  ∧ Forall (λ sc, ∃ pre post, post_frontmatter content = pre ++ sc ++ post)
           (section_contents content)
  ∧ (SectionAnalyzer.analyze_file content).2 = length (section_contents content).
Proof.
  intros Hh Hfm.
  pose proof (section_contents_sections content Hh) as Hsecs.
  pose proof (cut_concat true content) as Hcontent.
  fold (preamble content) (document_sections content) in Hcontent.
  assert (post_frontmatter content
          = drop (frontmatter_length content) (preamble content)
            ++ concat (document_sections content)) as Hpost.
  { rewrite post_frontmatter_drop. rewrite Hcontent at 2.
    by apply drop_app_le. }
  destruct (as_checked_pieces (document_sections content)) as [Hpieces Hsub].
  split; [done|]. split; [done|]. split; [done|].
  split; [|split; [|apply analyze_file_total]].
  - rewrite Hpost, Hsecs. by apply sublist_inserts_l.
  - rewrite Hsecs. eapply Forall_impl; [exact Hpieces|].
    intros sc (pre & post & Hsc).
    exists (drop (frontmatter_length content) (preamble content) ++ pre), post.
    rewrite Hpost, Hsc. by rewrite <-app_assoc.
Qed.

Lemma sections_partition_content_witness :
  let content := lit "---
title: Guide
---
# Guide

## A
body

## B
more
" in
  section_contents content = [lit "## A
body
"; lit "## B
more
"]
  ∧ section_contents content = as_checked (document_sections content)
  ∧ concat (section_contents content) `sublist_of` post_frontmatter content.
Proof.
  intros content. split; [by vm_compute|].
  destruct (sections_partition_content content) as (H1 & _ & _ & H4 & _).
  - reflexivity.
  - vm_compute. lia.
  - done.
Defined.

(** C1 as stated fails, in two ways. A line of the frontmatter block
    that starts with two hash marks and a space (a YAML comment) opens a
    section, and the sections then hold text that is not in the content
    after the frontmatter. And the newline that ends a Section followed
    by another one is in none of the sections: a character of the region
    of the first heading is lost. *)
Lemma sections_outside_post_frontmatter :
  (let content := lit "---
title: Guide
## internal note
---
# Guide
" in
   section_contents content = [lit "## internal note
---
# Guide
"]
   ∧ post_frontmatter content = lit "
# Guide
"
   ∧ ¬ (concat (section_contents content) `sublist_of` post_frontmatter content))
  ∧ (let content := lit "---
title: Guide
---
# Guide
## A
body
## B
more" in
     document_sections content = [lit "## A
body
"; lit "## B
more"]
     ∧ section_contents content = [lit "## A
body"; lit "## B
more"]
     ∧ length (concat (section_contents content)) + 1
       = length (concat (document_sections content))).
Proof.
  split.
  - intros content. split; [by vm_compute|]. split; [by vm_compute|].
    intros Hsub%sublist_length. vm_compute in Hsub. lia.
  - intros content. split; [by vm_compute|]. split; by vm_compute.
Qed.

(** A heading on the first line. Its Section lies in the piece that the
    loop of the source skips, which the comment there takes to be what
    comes before the first heading: no check sees it. *)
Example heading_on_first_line :
  let content := lit "## A
body
## B
more" in
  document_sections content = [lit "## A
body
"; lit "## B
more"]
  ∧ section_contents content = [lit "## B
more"].
Proof. intros content. split; by vm_compute. Qed.

End SplitterClaims.

Section FrontmatterClaims.
Import Py Validate Spec.

(** The first line of [splitlines] starts as the content does. *)
Lemma splitlines_first_h1 (content line0 : str) (rest : list str) :
  splitlines content = line0 :: rest →
  startswith (lit "# ") line0 = true →
  startswith (lit "# ") content = true.
Proof.
  intros Hlines Hh1.
  destruct (startswith_inv _ _ Hh1) as [r ->]. clear Hh1.
  destruct content as [|c content]; [done|]. simpl in Hlines.
  destruct (is_linebreak c) eqn:Hc.
  { destruct content as [|d content]; [done|]. by destruct (_ && _). }
  assert (c = 35%N) as ->.
  { destruct (splitlines content); by injection Hlines. }
  destruct content as [|d content]; [done|]. simpl in Hlines.
  destruct (is_linebreak d) eqn:Hd.
  { destruct content as [|e content]; [done|]. by destruct (_ && _). }
  assert (d = 32%N) as ->.
  { destruct (splitlines content); by injection Hlines. }
  done.
Qed.

(** The test for a level-1 heading is never true where it stands: the
    content then starts with the delimiter. *)
Lemma h1_test_unreachable (content : str) :
  startswith DELIM content = true →
  match splitlines content with
  | line0 :: _ => startswith (lit "# ") line0
  | [] => false
  end = false.
Proof.
  intros Hd.
  destruct (splitlines content) as [|line0 rest] eqn:Hlines; [done|].
  destruct (startswith (lit "# ") line0) eqn:Hh1; [|done].
  pose proof (splitlines_first_h1 _ _ _ Hlines Hh1) as Hc.
  destruct (startswith_inv _ _ Hc) as [r ->]. done.
Qed.

(** C3 (the code departs from it). A document whose first line is a
    level-1 heading does not start with the delimiter, so the checker
    stops at its first test with the [frontmatter_start] FAIL; the test
    for a level-1 heading comes second and is reached only by a content
    that starts with the delimiter, whose first line then never starts
    with a hash mark: [frontmatter_h1_before] is never emitted. *)
Theorem h1_first_line_reported_as_frontmatter_start :
  (∀ (L : Libraries) (content line0 : str) (rest : list str)
     (issues : list ValidationIssue),
     splitlines content = line0 :: rest →
     startswith (lit "# ") line0 = true →
     _check_frontmatter content (splitlines content) issues
     = Ok (issues ++
         [{| level := FAIL; check := lit "frontmatter_start";
             message := lit "File must start with " ++ DQ ++ DELIM ++ DQ
                        ++ lit " (frontmatter delimiter)";
             line_number := Some 1; details := None |}]))
  ∧ (∀ content : str,
       startswith DELIM content = true →
       match splitlines content with
       | line0 :: _ => startswith (lit "# ") line0
       | [] => false
       end = false).
Proof.
  split.
  - intros L content line0 rest issues Hlines Hh1.
    pose proof (splitlines_first_h1 _ _ _ Hlines Hh1) as Hc.
    destruct (startswith_inv _ _ Hc) as [r ->].
    unfold _check_frontmatter. done.
  - apply h1_test_unreachable.
Qed.

Lemma h1_first_line_reported_as_frontmatter_start_witness :
  (let content := lit "# Guide
---
title: Guide
---
" in
   _check_frontmatter (libs := sample_libraries) content (splitlines content) []
   = Ok [{| level := FAIL; check := lit "frontmatter_start";
            message := lit "File must start with " ++ DQ ++ DELIM ++ DQ
                       ++ lit " (frontmatter delimiter)";
            line_number := Some 1; details := None |}])
  ∧ (let content := lit "---
title: Guide
---
# Guide
" in
     match splitlines content with
     | line0 :: _ => startswith (lit "# ") line0
     | [] => false
     end = false).
Proof.
  split.
  - intros content.
    apply (proj1 h1_first_line_reported_as_frontmatter_start sample_libraries
             content (lit "# Guide") [lit "---"; lit "title: Guide"; lit "---"] []).
    + reflexivity.
    + reflexivity.
  - intros content.
    apply (proj2 h1_first_line_reported_as_frontmatter_start content).
    reflexivity.
Defined.

Lemma check_enum_valid (L : Libraries) (fm : list (yaml * yaml))
    (field s : str) (valid : list str) (issues : list ValidationIssue) :
  dict_get fm field = Some (YStr s) → s ∈ valid →
  check_enum fm field valid issues = Ok issues.
Proof.
  intros Hget Hin. unfold check_enum. rewrite Hget. simpl.
  by rewrite bool_decide_eq_false_2 by auto.
Qed.

Lemma check_enum_invalid (L : Libraries) (fm : list (yaml * yaml))
    (field s : str) (valid : list str) (issues : list ValidationIssue) :
  dict_get fm field = Some (YStr s) → s ∉ valid →
  check_enum fm field valid issues
  = Ok (issues ++
      [issue FAIL (lit "frontmatter_" ++ field)
         (lit "Invalid " ++ field ++ lit " value: " ++ DQ ++ s ++ DQ
          ++ lit ". Must be one of: " ++ join (lit ", ") (iter_set valid))]).
Proof.
  intros Hget Hin. unfold check_enum. rewrite Hget. simpl.
  by rewrite bool_decide_eq_true_2 by auto.
Qed.

Lemma check_enum_unhashable (L : Libraries) (fm : list (yaml * yaml))
    (field : str) (items : list yaml) (valid : list str)
    (issues : list ValidationIssue) :
  dict_get fm field = Some (YList items) →
  check_enum fm field valid issues
  = Raise (TypeError (lit "unhashable type: 'list'")).
Proof. intros Hget. unfold check_enum. by rewrite Hget. Qed.

(** The frontmatter of a content that starts with the delimiter, closes
    it and decodes to a dict goes through the schema checks. *)
Lemma check_frontmatter_schema (L : Libraries) (content : str)
    (second_delim : nat) (fm : list (yaml * yaml))
    (issues : list ValidationIssue) :
  startswith DELIM content = true →
  find DELIM 3 content = Some second_delim →
  safe_load (strip (take (second_delim - 3) (drop 3 content))) = Loaded (YDict fm) →
  _check_frontmatter content (splitlines content) issues
  = check_schema fm issues.
Proof.
  intros Hstart Hfind Hload. unfold _check_frontmatter.
  rewrite Hstart. cbn [negb].
  rewrite (h1_test_unreachable content Hstart).
  by rewrite Hfind, Hload.
Qed.

(** The example of C7: with [tags] missing and an unknown [stack], the
    other required keys being present and valid, the schema checks give
    exactly two FAILs, the first naming [tags]. *)
Lemma check_schema_missing_tags_bad_stack (L : Libraries)
    (fm : list (yaml * yaml)) (issues : list ValidationIssue) :
  (∀ field, field ∈ REQUIRED_FRONTMATTER →
     dict_get fm field = None ↔ field = lit "tags") →
  dict_get fm (lit "stack") = Some (YStr (lit "invalid-value")) →
  (∃ s, dict_get fm (lit "priority") = Some (YStr s) ∧ s ∈ VALID_PRIORITIES) →
  (∃ s, dict_get fm (lit "audience") = Some (YStr s) ∧ s ∈ VALID_AUDIENCES) →
  (∃ s, dict_get fm (lit "complexity") = Some (YStr s) ∧ s ∈ VALID_COMPLEXITIES) →
  (∃ v, dict_get fm (lit "source_confidence") = Some v
        ∧ confidence_match (str_of v) = true) →
  (∃ v, dict_get fm (lit "last_updated") = Some v
        ∧ fromisoformat_ok (str_of v) = true) →
  check_schema fm issues
  = Ok (issues ++
      [issue FAIL (lit "frontmatter_required_fields")
         (lit "Missing required frontmatter fields: tags");
       issue FAIL (lit "frontmatter_stack")
         (lit "Invalid stack value: " ++ DQ ++ lit "invalid-value" ++ DQ
          ++ lit ". Must be one of: " ++ join (lit ", ") (iter_set VALID_STACKS))]).
Proof.
  intros Hreq Hstack (p & Hp & Hpv) (a & Ha & Hav) (c & Hc & Hcv)
    (conf & Hconf & Hcm) (d & Hd & Hdm).
  assert (dict_get fm (lit "tags") = None) as Htags.
  { apply Hreq; [|done]. by apply (proj1 (bool_decide_eq_true _)). }
  unfold check_schema, check_required, check_confidence, check_date, check_tags.
  rewrite (filter_iff_in _ (λ field, field = lit "tags") _ Hreq).
  change (filter (λ field, field = lit "tags") REQUIRED_FRONTMATTER)
    with [lit "tags"].
  rewrite (check_enum_invalid L fm (lit "stack") (lit "invalid-value"))
    by (done || by apply (proj1 (bool_decide_eq_true _))).
  cbn [mbind result_bind].
  rewrite (check_enum_valid L fm _ p) by done. cbn [mbind result_bind].
  rewrite (check_enum_valid L fm _ a) by done. cbn [mbind result_bind].
  rewrite (check_enum_valid L fm _ c) by done. cbn [mbind result_bind].
  rewrite Hconf, Hcm, Hd, Hdm, Htags.
  by rewrite <-app_assoc.
Qed.

Lemma check_enum_hashable (L : Libraries) (fm : list (yaml * yaml))
    (field : str) (valid : list str) (issues : list ValidationIssue) :
  (∀ v, dict_get fm field = Some v → hashable v = true) →
  check_enum fm field valid issues = Ok (issues ++ enum_issues fm field valid).
Proof.
  intros Hhash. unfold enum_issues, check_enum.
  destruct (dict_get fm field) as [v|]; [|by rewrite app_nil_r].
  specialize (Hhash v eq_refl).
  destruct v as [s| | |tn text]; try discriminate Hhash; simpl.
  - destruct (bool_decide (s ∉ valid)); [done|by rewrite app_nil_r].
  - done.
Qed.

(** Away from the values that cannot be hashed, the schema checks are
    independent and additive: the result is the issues each check gives
    on its own, one after the other. *)
Lemma check_schema_additive (L : Libraries) (fm : list (yaml * yaml))
    (issues : list ValidationIssue) :
  enums_hashable fm →
  check_schema fm issues
  = Ok (issues ++ check_required fm []
        ++ enum_issues fm (lit "stack") VALID_STACKS
        ++ enum_issues fm (lit "priority") VALID_PRIORITIES
        ++ enum_issues fm (lit "audience") VALID_AUDIENCES
        ++ enum_issues fm (lit "complexity") VALID_COMPLEXITIES
        ++ check_confidence fm [] ++ check_date fm [] ++ check_tags fm []).
Proof.
  intros Hhash.
  assert (∀ X, check_required fm X = X ++ check_required fm []) as Hreq.
  { intros X. unfold check_required. by destruct (filter _ _); rewrite ?app_nil_r. }
  assert (∀ X, check_confidence fm X = X ++ check_confidence fm []) as Hconf.
  { intros X. unfold check_confidence.
    destruct (dict_get fm _) as [v|]; [|by rewrite app_nil_r].
    simpl. by destruct (confidence_match _); rewrite ?app_nil_r. }
  assert (∀ X, check_date fm X = X ++ check_date fm []) as Hdate.
  { intros X. unfold check_date.
    destruct (dict_get fm _) as [v|]; [|by rewrite app_nil_r].
    by destruct (fromisoformat_ok _); rewrite ?app_nil_r. }
  assert (∀ X, check_tags fm X = X ++ check_tags fm []) as Htags.
  { intros X. unfold check_tags.
    destruct (dict_get fm _) as [[s|[|x xs]|d|tn text]|]; by rewrite ?app_nil_r. }
  unfold check_schema.
  do 4 (rewrite check_enum_hashable by (intros v; apply Hhash; decide_closed);
        cbn [mbind result_bind]).
  rewrite Htags, Hdate, Hconf, Hreq. by rewrite <-!app_assoc.
Qed.

(** Each schema check gives an issue exactly on its violation. *)
Lemma schema_checks_fire (L : Libraries) (fm : list (yaml * yaml)) :
  (check_required fm [] ≠ []
   ↔ ∃ field, field ∈ REQUIRED_FRONTMATTER ∧ dict_get fm field = None)
  ∧ (∀ field valid,
       (∀ v, dict_get fm field = Some v → hashable v = true) →
       enum_issues fm field valid ≠ []
       ↔ ∃ v, dict_get fm field = Some v ∧ ∀ s, v = YStr s → s ∉ valid)
  ∧ (check_confidence fm [] ≠ []
     ↔ ∃ v, dict_get fm (lit "source_confidence") = Some v
            ∧ confidence_match (str_of v) = false)
  ∧ (check_date fm [] ≠ []
     ↔ ∃ v, dict_get fm (lit "last_updated") = Some v
            ∧ fromisoformat_ok (str_of v) = false)
  ∧ (check_tags fm [] ≠ []
     ↔ ∃ v, dict_get fm (lit "tags") = Some v ∧ ∀ x xs, v ≠ YList (x :: xs)).
Proof.
  split; [|split; [|split; [|split]]].
  - unfold check_required.
    destruct (filter _ REQUIRED_FRONTMATTER) as [|f fs] eqn:Hf; split.
    + done.
    + intros (field & Hin & Hnone). exfalso.
      assert (field ∈ filter (λ field, dict_get fm field = None) REQUIRED_FRONTMATTER)
        as Hfield by (by apply list_elem_of_filter).
      rewrite Hf in Hfield. by apply elem_of_nil in Hfield.
    + intros _. exists f.
      assert (f ∈ filter (λ field, dict_get fm field = None) REQUIRED_FRONTMATTER)
        as Hfield by (rewrite Hf; by left).
      apply list_elem_of_filter in Hfield as [? ?]. done.
    + intros _. by destruct (issue _ _ _).
  - intros field valid Hhash. unfold enum_issues, check_enum.
    destruct (dict_get fm field) as [v|]; [|split; [done|by intros (? & ? & _)]].
    specialize (Hhash v eq_refl).
    destruct v as [s| | |tn text]; try discriminate Hhash; simpl.
    + destruct (bool_decide (s ∉ valid)) eqn:Hs; split.
      * intros _. exists (YStr s). split; [done|]. intros ? [= <-].
        by apply bool_decide_eq_true in Hs.
      * done.
      * done.
      * intros (v & [= <-] & Hv). apply bool_decide_eq_false in Hs.
        exfalso. by apply Hs, (Hv s).
    + split; [|done]. intros _. eexists. split; [done|]. by intros.
  - unfold check_confidence.
    destruct (dict_get fm _) as [v|]; [|split; [done|by intros (? & ? & _)]].
    simpl. destruct (confidence_match (str_of v)) eqn:Hc; split; try done.
    + intros (? & [= <-] & ?). congruence.
    + intros _. by exists v.
  - unfold check_date.
    destruct (dict_get fm _) as [v|]; [|split; [done|by intros (? & ? & _)]].
    destruct (fromisoformat_ok (str_of v)) eqn:Hc; split; try done.
    + intros (? & [= <-] & ?). congruence.
    + intros _. by exists v.
  - unfold check_tags.
    destruct (dict_get fm _) as [v|]; [|split; [done|by intros (? & ? & _)]].
    destruct v as [s|[|x xs]|d|tn text]; split; try done;
      try (intros _; eexists; split; [done|]; by intros).
    intros (? & [= <-] & Hv). by destruct (Hv x xs).
Qed.

(** The same on a whole document, with the stand-in decoder. *)
Example frontmatter_missing_tags_bad_stack :
  let content := lit "---
title: Guide
category: tooling
subcategory: docs
stack: invalid-value
priority: high
audience: backend
complexity: beginner
doc_type: guide
source_confidence: 90%
last_updated: 2026-01-15
---
# Guide
" in
  _check_frontmatter (libs := sample_libraries) content (splitlines content) []
  = Ok [issue FAIL (lit "frontmatter_required_fields")
          (lit "Missing required frontmatter fields: tags");
        issue FAIL (lit "frontmatter_stack")
          (lit "Invalid stack value: " ++ DQ ++ lit "invalid-value" ++ DQ
           ++ lit ". Must be one of: js-nextjs, sanity, php-wp, cross-stack")].
Proof. by vm_compute. Qed.

(** C7 (the code departs from it). The schema checks do not report
    every violation of a document: when the value of [stack] is a YAML
    list, the membership test in the set of valid stacks raises
    [TypeError], which nothing catches; the checker is left at once, no
    issue of the frontmatter, not even for missing fields, reaches the
    result, and the validation of the file ends with the exception. *)
Theorem unhashable_enum_value_raises
    (L : Libraries) (content : str) (second_delim : nat)
    (fm : list (yaml * yaml)) (items : list yaml)
    (issues : list ValidationIssue) :
  startswith DELIM content = true →
  find DELIM 3 content = Some second_delim →
  safe_load (strip (take (second_delim - 3) (drop 3 content))) = Loaded (YDict fm) →
  dict_get fm (lit "stack") = Some (YList items) →
  _check_frontmatter content (splitlines content) issues
  = Raise (TypeError (lit "unhashable type: 'list'"))
  ∧ ∀ path relative filename,
      validate_file path relative filename (inl content)
      = Raise (TypeError (lit "unhashable type: 'list'")).
Proof.
  intros Hstart Hfind Hload Hstack.
  assert (∀ X, _check_frontmatter content (splitlines content) X
               = Raise (TypeError (lit "unhashable type: 'list'"))) as Hraise.
  { intros X.
    rewrite (check_frontmatter_schema L content second_delim fm) by done.
    unfold check_schema.
    by rewrite (check_enum_unhashable L fm (lit "stack") items). }
  split; [apply Hraise|].
  intros path relative filename. unfold validate_file. by rewrite Hraise.
Qed.

Lemma unhashable_enum_value_raises_witness :
  let content := lit "---
stack: [js-nextjs, sanity]
---
# Guide
" in
  _check_frontmatter (libs := sample_libraries) content (splitlines content) []
  = Raise (TypeError (lit "unhashable type: 'list'"))
  ∧ ∀ path relative filename,
      validate_file (libs := sample_libraries) path relative filename (inl content)
      = Raise (TypeError (lit "unhashable type: 'list'")).
Proof.
  intros content.
  apply (unhashable_enum_value_raises sample_libraries content 31
           [(YStr (lit "stack"),
             YList [YStr (lit "js-nextjs"); YStr (lit "sanity")])]
           [YStr (lit "js-nextjs"); YStr (lit "sanity")] []).
  - reflexivity.
  - reflexivity.
  - reflexivity.
  - reflexivity.
Defined.

End FrontmatterClaims.

Section PronounFacts.
Import Py Validate Spec.
Import RemoveEmptyHeadings (is_blank).

Lemma is_blank_lstrip (l : str) : is_blank l = true ↔ lstrip l = [].
Proof.
  unfold is_blank. rewrite <-strip_nil_iff.
  destruct (strip l); split; done.
Qed.

Lemma not_blank_lstrip (l : str) : is_blank l = false ↔ lstrip l ≠ [].
Proof.
  rewrite <-is_blank_lstrip. destruct (is_blank l); split; done.
Qed.

(** Stripping the joined body leaves the first non-blank line in front. *)
Lemma lstrip_body (lines : list str) :
  (lstrip (join [NL] lines) = []
   ∧ head (filter (λ l, is_blank l = false) lines) = None)
  ∨ (∃ l t, head (filter (λ l, is_blank l = false) lines) = Some l
            ∧ lstrip (join [NL] lines) = lstrip l ++ t
            ∧ (t = [] ∨ ∃ t', t = NL :: t')).
Proof.
  induction lines as [|l lines IH]; [by left|].
  rewrite join_nl_cons, filter_cons, lstrip_app.
  destruct (decide (is_blank l = false)) as [Hnb|Hb].
  - right. apply not_blank_lstrip in Hnb.
    destruct (lstrip l) as [|c r] eqn:Hl; [done|].
    exists l. eexists. rewrite Hl. split; [done|]. split; [done|].
    destruct lines; [by left|right; by eexists].
  - apply not_false_is_true, is_blank_lstrip in Hb. rewrite Hb.
    destruct lines as [|l' lines]; [by left|].
    change (lstrip (NL :: join [NL] (l' :: lines)))
      with (lstrip (join [NL] (l' :: lines))).
    exact IH.
Qed.

Lemma not_in_lstrip (l : str) : NL ∉ l → NL ∉ lstrip l.
Proof.
  intros Hl Hin. apply Hl.
  destruct (lstrip_suffix l) as [ws Hws]. rewrite Hws.
  apply elem_of_app. by right.
Qed.

(** The first sentence the check looks at is the first non-blank line of
    the body without the whitespace around it. *)
Lemma first_sentence_spec (title : str) (lines : list str) :
  Forall (λ line, NL ∉ line) lines →
  first_sentence (title :: lines)
  = strip <$> head (filter (λ l, is_blank l = false) lines).
Proof.
  intros Hlines. unfold first_sentence. cbn [tail].
  destruct (lstrip_body lines) as [[Hnil Hnone]|(l & t & Hsome & Hbody & Ht)].
  - unfold strip at 1. by rewrite Hnil, Hnone.
  - rewrite Hsome. cbn [fmap option_fmap option_map].
    assert (l ∈ lines) as Hin.
    { apply head_Some_elem_of in Hsome. by apply list_elem_of_filter in Hsome as [_ ?]. }
    assert (NL ∉ lstrip l) as Hnl.
    { apply not_in_lstrip. rewrite Forall_forall in Hlines. by apply Hlines. }
    assert (lstrip l ≠ []) as Hne.
    { apply head_Some_elem_of, list_elem_of_filter in Hsome as [Hnb _].
      by apply not_blank_lstrip. }
    destruct (strip (join [NL] lines)) as [|c r] eqn:Hstrip.
    { apply strip_nil_iff in Hstrip. rewrite Hbody in Hstrip.
      by destruct (lstrip l). }
    rewrite <-Hstrip.
    destruct (split_nl_head (strip (join [NL] lines))) as [rest ->].
    f_equal. unfold strip. rewrite Hbody.
    rewrite <-lstrip_rstrip, rstrip_line_prefix, lstrip_rstrip.
    rewrite (line_prefix_line _ _ Hnl Ht). by rewrite lstrip_lstrip.
Qed.

Lemma pronoun_fires_lead (section_content : str) :
  pronoun_fires section_content = pronoun_lead section_content.
Proof.
  unfold pronoun_fires, pronoun_lead, first_nonblank_line, body_lines.
  pose proof (split_nl_lines section_content) as Hall.
  destruct (split [NL] section_content) as [|title lines] eqn:Hsplit.
  { by destruct (split_from_nonempty [NL] 0 section_content). }
  inversion Hall; subst. rewrite first_sentence_spec by done.
  cbn [tail]. by destruct (head _).
Qed.

End PronounFacts.

Section PronounClaims.
Import Py Validate Spec.
Import RemoveEmptyHeadings (is_blank).

Lemma line_prefix_app (a s : str) :
  NL ∉ a → line_prefix (a ++ s) = a ++ line_prefix s.
Proof.
  induction a as [|c a IH]; intros Ha; [done|].
  apply not_elem_of_cons in Ha as [Hc Ha]. cbn [app line_prefix].
  destruct (c =? NL)%N eqn:Hcn; [by apply N.eqb_eq in Hcn|].
  by rewrite IH.
Qed.

(** The body lines of a section whose heading line is [H2 ++ title]. *)
Lemma body_lines_after_title (title body : str) :
  NL ∉ title → body_lines (H2 ++ title ++ NL :: body) = split [NL] body.
Proof.
  intros Ht. unfold body_lines. rewrite app_assoc, split_nl_app; [done|].
  intros [Hin|Hin]%elem_of_app; [|done].
  revert Hin. change (NL ∉ H2). decide_closed.
Qed.

(** The pronoun rule on a section whose body starts with the characters
    [f0 :: first] and then [c], neither [f0] nor [c] being whitespace. *)
Lemma pronoun_lead_body (title : str) (f0 : char) (first : str) (c : char)
    (rest : str) :
  NL ∉ title → NL ∉ f0 :: first → isspace f0 = false → isspace c = false →
  pronoun_lead (H2 ++ title ++ NL :: (f0 :: first) ++ c :: rest)
  = pronoun_match ((f0 :: first) ++ c :: rstrip (line_prefix rest)).
Proof.
  intros Ht Hf Hf0 Hc.
  unfold pronoun_lead, first_nonblank_line.
  rewrite body_lines_after_title by done.
  destruct (split_nl_head ((f0 :: first) ++ c :: rest)) as [more ->].
  rewrite line_prefix_app by done. cbn [line_prefix].
  assert ((c =? NL)%N = false) as ->.
  { apply N.eqb_neq. by intros ->. }
  rewrite filter_cons, decide_True.
  - cbn [head]. unfold strip.
    rewrite <-app_comm_cons, (lstrip_nonspace f0 _ Hf0), app_comm_cons.
    by rewrite rstrip_app_nonspace.
  - apply not_blank_lstrip. rewrite <-app_comm_cons.
    by rewrite (lstrip_nonspace f0 _ Hf0).
Qed.

Lemma filter_pronoun_fmap (sections : list str) :
  length (filter (λ s, pronoun_fires (H2 ++ s) = true) sections)
  = length (filter (λ sc, pronoun_lead sc = true)
                   ((λ section, H2 ++ section) <$> sections)).
Proof.
  induction sections as [|s sections IH]; [done|].
  rewrite fmap_cons, !filter_cons. cbv beta.
  rewrite <-pronoun_fires_lead.
  destruct (decide (pronoun_fires (H2 ++ s) = true)); cbn [length]; by rewrite IH.
Qed.

(** C6 (amended). The pronoun check of a section looks at the first
    non-blank line of the body with the whitespace around it removed: it
    emits one [section_pronoun] FAIL when that text starts with It, This,
    These, They, That or We followed by whitespace, and none otherwise;
    over a document the [section_pronoun] issues count the sections with
    such a lead. A section whose body begins with "This is a test." gets
    the FAIL, one whose body begins with "The test covers..." gets
    none. *)
Theorem pronoun_lead_check :
  (∀ (i : nat) (section : str),
     count_check SP (check_section i section [])
     = (if pronoun_lead (H2 ++ section) then 1 else 0)
     ∧ Forall (λ x, check x = SP → level x = FAIL) (check_section i section []))
  ∧ (∀ content : str,
       count_check SP (_check_sections content [])
       = length (filter (λ sc, pronoun_lead sc = true) (section_contents content)))
  ∧ (∀ title rest : str,
       NL ∉ title →
       pronoun_lead (H2 ++ title ++ NL :: lit "This is a test." ++ rest) = true)
  ∧ (∀ title rest : str,
       NL ∉ title →
       pronoun_lead (H2 ++ title ++ NL :: lit "The test covers..." ++ rest) = false).
Proof.
  split; [|split; [|split]].
  - intros i section.
    destruct (check_section_counts i section [])
      as (new & -> & _ & HP & _ & Hlv).
    cbn [app]. rewrite HP, pronoun_fires_lead. split; [done|].
    eapply Forall_impl; [exact Hlv|]. simpl. auto.
  - intros content. unfold section_contents. rewrite <-filter_pronoun_fmap.
    destruct (decide (length (split SECTION_SEP content) < 2)) as [Hlt|Hge].
    + rewrite check_sections_none by done.
      by destruct (split SECTION_SEP content) as [|s0 [|s1 more]];
        simpl in Hlt; [| |lia].
    + destruct (check_sections_found content) as (bare & -> & Hbare); [lia|].
      destruct (sections_loop_app 1 (tail (split SECTION_SEP content)) [])
        as (new & -> & _ & HP & _ & _).
      cbn [app]. rewrite !count_check_app, HP.
      rewrite (count_check_other SP bare),
        (count_check_other SP (_check_heading_hierarchy _ _)); [lia| |].
      * eapply Forall_impl; [apply hierarchy_loop_checks|]. intros x [_ ->] [=].
      * eapply Forall_impl; [exact Hbare|]. intros x -> [=].
  - intros title rest Ht.
    change (lit "This is a test." ++ rest)
      with ((84%N :: lit "his is a test") ++ 46%N :: rest).
    rewrite pronoun_lead_body; [done|done| |done|done].
    decide_closed.
  - intros title rest Ht.
    change (lit "The test covers..." ++ rest)
      with ((84%N :: lit "he test covers..") ++ 46%N :: rest).
    rewrite pronoun_lead_body; [done|done| |done|done].
    decide_closed.
Qed.

Lemma pronoun_lead_check_witness :
  pronoun_lead (lit "## Setup
This is a test. More text.
## Next") = true
  ∧ pronoun_lead (lit "## Setup
The test covers... the rest.") = false.
Proof.
  split.
  - apply (proj1 (proj2 (proj2 pronoun_lead_check))
             (lit "Setup") (lit " More text.
## Next")).
    decide_closed.
  - apply (proj2 (proj2 (proj2 pronoun_lead_check))
             (lit "Setup") (lit " the rest.")).
    decide_closed.
Defined.

(** C6 as stated fails: the check does not test the first non-empty line
    as it stands. A body whose first line is ["This "], a pronoun and
    whitespace, gets no issue, because the line is stripped before the
    test; an indented first line gets the FAIL although it does not start
    with the pronoun; and a first line of spaces only is passed over. *)
Lemma pronoun_check_strips_line :
  (let section := lit "Setup
This" ++ 32%N :: NL :: lit "keeps going" in
   first_nonempty_line (H2 ++ section) = Some (lit "This ")
   ∧ pronoun_lead_as_stated (H2 ++ section) = true
   ∧ count_check SP (check_section 1 section []) = 0)
  ∧ (let section := lit "Setup
  This is a test." in
     first_nonempty_line (H2 ++ section) = Some (lit "  This is a test.")
     ∧ pronoun_lead_as_stated (H2 ++ section) = false
     ∧ count_check SP (check_section 1 section []) = 1)
  ∧ (let section := lit "Setup" ++ [NL; 32%N; 32%N; 32%N; NL]
                    ++ lit "This is a test." in
     first_nonempty_line (H2 ++ section) = Some (lit "   ")
     ∧ pronoun_lead_as_stated (H2 ++ section) = false
     ∧ count_check SP (check_section 1 section []) = 1).
Proof. repeat split; by vm_compute. Qed.

End PronounClaims.

(** * Further properties of the code *)

(** ** The heading-cleanup utility *)

Section CleanupMore.
Import Py RemoveEmptyHeadings Spec.

Lemma find_empty_headings_eq (content : str) :
  find_empty_headings content
  = (λ k, (k + 1, default [] (split [NL] content !! k)))
      <$> selected (split [NL] content) (split [NL] content) 0.
Proof. unfold find_empty_headings. by rewrite find_loop_selected. Qed.

Lemma remove_output_lines (content : str) :
  split [NL] (remove_empty_headings content).1 = cleanup (split [NL] content).
Proof. rewrite remove_empty_headings_eq. apply split_cleanup. Qed.

Lemma cleanup_keeps_other_lines (lines : list str) :
  filter (λ l, is_h2 l = false) (cleanup lines)
  = filter (λ l, is_h2 l = false) lines.
Proof.
  induction lines as [|l lines IH]; [done|]. cbn [cleanup].
  destruct (is_h2 l) eqn:Hh; cbn [andb].
  - destruct (first_nonblank_is_h2 lines); rewrite !filter_cons, Hh;
      by rewrite !decide_False by done.
  - by rewrite !filter_cons, Hh, !decide_True, IH by done.
Qed.

Lemma cleanup_same_length (lines : list str) :
  length (cleanup lines) = length lines → cleanup lines = lines.
Proof.
  induction lines as [|l lines IH]; [done|]. simpl.
  destruct (is_h2 l && first_nonblank_is_h2 lines).
  - intros Hlen. pose proof (sublist_length _ _ (cleanup_sublist lines)). lia.
  - simpl. intros [= Hlen]. by rewrite IH.
Qed.

(** X1. The cleanup only takes level-2 heading lines out: the lines of
    the output are the lines of the input in the same order with some
    left out, the number left out is the returned count, and the lines
    that are not level-2 headings are all kept. *)
Theorem remove_keeps_other_lines (content : str) :
  let lines := split [NL] content in
  let out := split [NL] (remove_empty_headings content).1 in
  out `sublist_of` lines
  ∧ length lines = length out + (remove_empty_headings content).2
  ∧ filter (λ l, is_h2 l = false) out = filter (λ l, is_h2 l = false) lines.
Proof.
  intros lines out. unfold out. rewrite remove_output_lines.
  split; [apply cleanup_sublist|]. split; [|apply cleanup_keeps_other_lines].
  rewrite remove_empty_headings_eq. cbn [snd].
  pose proof (selected_cleanup_length lines lines 0 eq_refl). fold lines. lia.
Qed.

(** X2. A content without empty heading is a fixed point: nothing is
    reported exactly when the cleanup returns the content itself with a
    count of zero. *)
Theorem nothing_found_nothing_changed (content : str) :
  find_empty_headings content = []
  ↔ remove_empty_headings content = (content, 0).
Proof.
  rewrite find_empty_headings_eq, remove_empty_headings_eq.
  pose proof (selected_cleanup_length (split [NL] content)
                (split [NL] content) 0 eq_refl) as Hlen.
  split.
  - intros Hnone%fmap_nil_inv. rewrite Hnone in *. simpl in Hlen.
    rewrite cleanup_same_length by done.
    by rewrite (join_split [NL] content).
  - intros [= _ Hzero]. by apply length_zero_iff_nil in Hzero as ->.
Qed.

Lemma selected_bound (lines todo : list str) (i k : nat) :
  drop i lines = todo → k ∈ selected lines todo i → S k < length lines.
Proof.
  intros Hd [_ He]%(selected_spec lines todo i k Hd).
  unfold is_empty_heading in He.
  destruct (lines !! k) as [l|] eqn:Hk; [|done].
  apply andb_true_iff in He as [_ Hf].
  destruct (first_nonblank_reaches _ Hf) as (pre & next & post & Hdrop & _).
  pose proof (length_drop lines (S k)) as Hl.
  rewrite Hdrop, length_app in Hl. simpl in Hl. lia.
Qed.

Lemma selected_sorted (lines todo : list str) (i : nat) :
  StronglySorted lt (selected lines todo i).
Proof.
  revert i. induction todo as [|line todo IH]; intros i; simpl; [constructor|].
  destruct (_ && _); simpl; [|apply IH].
  constructor; [apply IH|].
  apply Forall_forall. intros k Hk%selected_lower. lia.
Qed.

(** X3. The report of [find_empty_headings] is in document order: the
    line numbers increase strictly, each lies between 1 and the number
    of lines minus one (the last line is never reported), and each text
    is the line of that number, a level-2 heading. *)
Theorem find_empty_headings_report (content : str) :
  let lines := split [NL] content in
  let found := find_empty_headings content in
  StronglySorted lt found.*1
  ∧ ∀ n text, (n, text) ∈ found →
      1 ≤ n < length lines ∧ lines !! (n - 1) = Some text ∧ is_h2 text = true.
Proof.
  intros lines found. unfold found. rewrite find_empty_headings_eq. fold lines.
  split.
  - rewrite <-list_fmap_compose.
    pose proof (selected_sorted lines lines 0) as Hs.
    induction Hs as [|k ks Hs IH Hall]; [constructor|].
    cbn. constructor; [done|].
    apply Forall_fmap. eapply Forall_impl; [exact Hall|]. simpl. lia.
  - intros n text (k & [= -> ->] & Hk)%list_elem_of_fmap.
    pose proof (selected_bound lines lines 0 k eq_refl Hk) as Hb.
    apply (selected_spec lines lines 0 k eq_refl) in Hk as [_ He].
    unfold is_empty_heading in He.
    replace (k + 1 - 1) with k by lia.
    destruct (lines !! k) as [l|] eqn:Hl; [|done].
    apply andb_true_iff in He as [Hh _]. simpl. split; [lia|done].
Qed.

Lemma selected_of_cleanup (lines : list str) :
  selected (cleanup lines) (cleanup lines) 0 = [].
Proof.
  apply length_zero_iff_nil.
  pose proof (selected_cleanup_length (cleanup lines) (cleanup lines) 0 eq_refl) as Hlen.
  rewrite cleanup_idempotent in Hlen. lia.
Qed.

Lemma find_after_remove (content : str) :
  find_empty_headings (remove_empty_headings content).1 = [].
Proof.
  rewrite find_empty_headings_eq, remove_output_lines.
  by rewrite selected_of_cleanup.
Qed.

(** X4. After the cleanup nothing is left to report: on the content that
    [remove_empty_headings] returns, [find_empty_headings] finds nothing
    and [process_file], in either mode, counts zero and writes nothing. *)
Theorem cleaned_content_is_clean (content : str) (dry_run : bool) :
  let new_content := (remove_empty_headings content).1 in
  find_empty_headings new_content = []
  ∧ process_file new_content dry_run
    = ({| empty_count := 0; removed := 0; empty_headings := [] |}, None).
Proof.
  intros new_content. split; [apply find_after_remove|].
  unfold process_file, new_content. by rewrite find_after_remove.
Qed.

(** The characters of the lines, each counted with one newline. *)
Lemma join_nl_length (lines : list str) :
  lines ≠ [] →
  length (join [NL] lines) + 1 = sum_list_with (λ l, length l + 1) lines.
Proof.
  induction lines as [|l lines IH]; [done|]. intros _.
  rewrite join_nl_cons, length_app. cbn [sum_list_with].
  destruct lines as [|l' lines]; [simpl; lia|].
  cbn [length]. rewrite <-IH by done. lia.
Qed.

Lemma is_h2_length (line : str) : is_h2 line = true → 3 ≤ length line.
Proof.
  intros [r ->]%startswith_inv. rewrite length_app. simpl. lia.
Qed.

Lemma cleanup_shorter (lines : list str) :
  sum_list_with (λ l, length l + 1) (cleanup lines)
  + 4 * (length lines - length (cleanup lines))
  ≤ sum_list_with (λ l, length l + 1) lines.
Proof.
  induction lines as [|l lines IH]; [done|]. cbn [cleanup].
  pose proof (sublist_length _ _ (cleanup_sublist lines)) as Hsub.
  destruct (is_h2 l && first_nonblank_is_h2 lines) eqn:Hsel.
  - apply andb_true_iff in Hsel as [Hh%is_h2_length _].
    cbn [sum_list_with length]. lia.
  - cbn [sum_list_with length]. lia.
Qed.

Lemma process_file_found (content : str) (dry_run : bool) :
  process_file content dry_run
  = match find_empty_headings content with
    | [] => ({| empty_count := 0; removed := 0; empty_headings := [] |}, None)
    | _ :: _ =>
        ({| empty_count := length (find_empty_headings content);
            removed := length (find_empty_headings content);
            empty_headings := (find_empty_headings content).*2 |},
         if dry_run then None else Some (remove_empty_headings content).1)
    end.
Proof.
  unfold process_file.
  destruct (find_empty_headings content) as [|f fs] eqn:Hf; [done|].
  assert ((remove_empty_headings content).2 = length (f :: fs)) as Hcount.
  { rewrite <-Hf, find_empty_headings_eq, remove_empty_headings_eq.
    by rewrite length_fmap. }
  destruct (remove_empty_headings content) as [new n]. simpl in *. by subst n.
Qed.

(** X5. [process_file] writes the file back only when it is not a dry
    run and an empty heading was found; what it writes is the result of
    [remove_empty_headings], and it is shorter than the original by at
    least four characters for each removed heading. *)
Theorem process_file_writes (content : str) (dry_run : bool) :
  match (process_file content dry_run).2 with
  | None => dry_run = true ∨ find_empty_headings content = []
  | Some new_content =>
      dry_run = false
      ∧ new_content = (remove_empty_headings content).1
      ∧ 1 ≤ removed (process_file content dry_run).1
      ∧ length new_content + 4 * removed (process_file content dry_run).1
        ≤ length content
  end.
Proof.
  rewrite process_file_found.
  destruct (find_empty_headings content) as [|f fs] eqn:Hf; [by right|].
  destruct dry_run; [by left|]. cbn [fst snd removed].
  split; [done|]. split; [done|]. split; [simpl; lia|].
  rewrite <-Hf, find_empty_headings_eq, length_fmap, remove_empty_headings_eq.
  cbn [fst].
  pose proof (selected_cleanup_length (split [NL] content)
                (split [NL] content) 0 eq_refl) as Hlen.
  pose proof (cleanup_shorter (split [NL] content)) as Hshort.
  pose proof (join_nl_length (cleanup (split [NL] content))
                (cleanup_nonempty _ (split_from_nonempty [NL] 0 content))) as Hnew.
  pose proof (join_nl_length (split [NL] content)
                (split_from_nonempty [NL] 0 content)) as Hold.
  rewrite (join_split [NL] content) in Hold by done. lia.
Qed.

Lemma count_file_totals (dry_run : bool) (t : totals) (content : str) :
  let t' := count_file dry_run t content in
  total_files t' = total_files t + 1
  ∧ total_empty t' = total_empty t + length (find_empty_headings content)
  ∧ total_removed t' = total_removed t + length (find_empty_headings content)
  ∧ length (files_with_empty t')
    = length (files_with_empty t)
      + (if decide (find_empty_headings content = []) then 0 else 1).
Proof.
  unfold count_file. rewrite process_file_found.
  destruct (find_empty_headings content) as [|f fs]; cbn.
  - rewrite decide_True by done. lia.
  - rewrite decide_False by done. rewrite length_app. simpl. lia.
Qed.

(** X6. The counters of [main] over the files it visits: every file is
    counted, the headings found and the headings removed have the same
    total, which is the number of headings reported over all the files,
    and [files_with_empty] has one entry for each file with an empty
    heading. The exit status is 1 exactly for a dry run that found an
    empty heading in some file, and 0 otherwise. *)
Theorem main_totals (dry_run : bool) (visited : list str) :
  let t := (main dry_run visited).1 in
  let status := (main dry_run visited).2 in
  total_files t = length visited
  ∧ total_empty t = sum_list_with (λ c, length (find_empty_headings c)) visited
  ∧ total_removed t = total_empty t
  ∧ length (files_with_empty t)
    = length (filter (λ c, find_empty_headings c ≠ []) visited)
  ∧ (status = 1
     ↔ dry_run = true ∧ ∃ c, c ∈ visited ∧ find_empty_headings c ≠ [])
  ∧ (status = 0 ∨ status = 1).
Proof.
  assert (∀ t0,
    let t := foldl (count_file dry_run) t0 visited in
    total_files t = total_files t0 + length visited
    ∧ total_empty t
      = total_empty t0
        + sum_list_with (λ c, length (find_empty_headings c)) visited
    ∧ total_removed t
      = total_removed t0
        + sum_list_with (λ c, length (find_empty_headings c)) visited
    ∧ length (files_with_empty t)
      = length (files_with_empty t0)
        + length (filter (λ c, find_empty_headings c ≠ []) visited)) as Hfold.
  { induction visited as [|c visited IH]; intros t0; [simpl; lia|].
    cbn [foldl]. specialize (IH (count_file dry_run t0 c)).
    destruct (count_file_totals dry_run t0 c) as (H1 & H2 & H3 & H4).
    destruct IH as (I1 & I2 & I3 & I4).
    rewrite filter_cons. cbn [sum_list_with length].
    cbv zeta. rewrite I1, I2, I3, I4, H1, H2, H3, H4.
    destruct (decide (find_empty_headings c = [])) as [He|Hne].
    - rewrite decide_False by (intros Hn; by apply Hn). lia.
    - rewrite decide_True by done. simpl. lia. }
  intros t status. unfold status, t, main. cbn [fst snd].
  match goal with |- context [foldl _ ?t0 visited] =>
    destruct (Hfold t0) as (F1 & F2 & F3 & F4) end.
  cbn [total_files total_empty total_removed files_with_empty length] in *.
  split; [lia|]. split; [lia|]. split; [lia|]. split; [lia|].
  assert (sum_list_with (λ c, length (find_empty_headings c)) visited ≠ 0
          ↔ ∃ c, c ∈ visited ∧ find_empty_headings c ≠ []) as Hpos.
  { clear. induction visited as [|c visited IH]; simpl.
    - split; [done|]. intros (c & Hc%elem_of_nil & _). done.
    - split.
      + intros Hs. destruct (find_empty_headings c) eqn:Hc.
        * destruct (proj1 IH Hs) as (c' & Hin & Hne).
          exists c'. split; [by right|done].
        * exists c. split; [by left|]. by rewrite Hc.
      + intros (c' & [->|Hin]%elem_of_cons & Hne).
        * destruct (find_empty_headings c); [done|simpl; lia].
        * assert (sum_list_with (λ c, length (find_empty_headings c)) visited ≠ 0)
            by (apply IH; eauto).
          lia. }
  rewrite F2. cbn [Nat.add].
  destruct (sum_list_with _ visited =? 0) eqn:Hs.
  - apply Nat.eqb_eq in Hs. split; [|by left].
    split; [done|]. intros [_ Hex%Hpos]. done.
  - apply Nat.eqb_neq in Hs. destruct dry_run.
    + split; [|by right]. split; [|done]. intros _. split; [done|].
      by apply Hpos.
    + split; [|by left]. split; [done|]. by intros [? _].
Qed.

End CleanupMore.

(** ** The structural checks *)

Section StructuralMore.
Import Py Validate Spec.

(** The strings that [kebab_from] accepts, the state [in_run] telling
    whether the first run may be empty. *)
Lemma kebab_from_grammar (in_run : bool) (s : str) :
  kebab_from in_run s = true
  ↔ ∃ (run0 : str) (runs : list str) (nl : str),
      forallb is_lower_alnum run0 = true
      ∧ (in_run = false → run0 ≠ [])
      ∧ Forall (λ r, r ≠ [] ∧ forallb is_lower_alnum r = true) runs
      ∧ (nl = [] ∨ nl = [NL])
      ∧ s = run0 ++ concat ((λ r, 45%N :: r) <$> runs) ++ nl.
Proof.
  revert in_run. induction s as [|c s IH]; intros in_run.
  - simpl. split.
    + intros ->. exists [], [], []. repeat split; (done || by left).
    + intros (run0 & runs & nl & _ & Hne & _ & _ & Heq).
      destruct in_run; [done|]. destruct run0; [by destruct Hne|done].
  - cbn [kebab_from]. destruct (is_lower_alnum c) eqn:Hc.
    + rewrite IH. split.
      * intros (run0 & runs & nl & H0 & _ & Hr & Hnl & ->).
        exists (c :: run0), runs, nl. cbn [forallb]. rewrite Hc, H0.
        repeat split; done.
      * intros (run0 & runs & nl & H0 & Hne & Hr & Hnl & Heq).
        destruct run0 as [|d run0].
        { exfalso. destruct runs as [|r runs]; simpl in Heq.
          - destruct Hnl as [->| ->]; [done|]. by injection Heq as ->.
          - by injection Heq as ->. }
        injection Heq as -> ->. cbn [forallb] in H0.
        apply andb_true_iff in H0 as [_ H0].
        exists run0, runs, nl. repeat split; done.
    + destruct (c =? 45)%N eqn:H45.
      * apply N.eqb_eq in H45 as ->. rewrite andb_true_iff, IH. split.
        -- intros [-> (run0 & runs & nl & H0 & Hne & Hr & Hnl & ->)].
           exists [], (run0 :: runs), nl.
           split; [done|]. split; [done|].
           split; [constructor; [split; [by apply Hne|done]|done]|].
           split; [done|]. simpl. by rewrite <-app_assoc.
        -- intros (run0 & runs & nl & H0 & Hne & Hr & Hnl & Heq).
           destruct run0 as [|d run0]; [|injection Heq as <- _; by simpl in H0].
           destruct in_run; [|by destruct Hne]. split; [done|].
           destruct runs as [|r runs]; simpl in Heq.
           { destruct Hnl as [->| ->]; [done|]. by injection Heq. }
           injection Heq as ->. inversion Hr as [|?? [Hrne Hral] Hrs]; subst.
           exists r, runs, nl. repeat split; try done. by rewrite <-app_assoc.
      * destruct (c =? NL)%N eqn:Hnlc.
        -- apply N.eqb_eq in Hnlc as ->.
           rewrite andb_true_iff, bool_decide_eq_true. split.
           ++ intros [-> ->]. exists [], [], [NL]. repeat split; (done || by right).
           ++ intros (run0 & runs & nl & H0 & Hne & Hr & Hnl & Heq).
              destruct run0 as [|d run0]; [|injection Heq as <- _; by simpl in H0].
              destruct in_run; [|by destruct Hne].
              destruct runs as [|r runs]; simpl in Heq; [|by injection Heq].
              destruct Hnl as [->| ->]; [done|]. by injection Heq as <-.
        -- split; [done|].
           intros (run0 & runs & nl & H0 & Hne & Hr & Hnl & Heq). exfalso.
           destruct run0 as [|d run0].
           ++ destruct runs as [|r runs]; simpl in Heq.
              ** destruct Hnl as [->| ->]; [done|]. injection Heq as -> _.
                 by rewrite N.eqb_refl in Hnlc.
              ** injection Heq as -> _. by rewrite N.eqb_refl in H45.
           ++ injection Heq as -> _. cbn [forallb] in H0. by rewrite Hc in H0.
Qed.

(** X7. The file name test accepts exactly the lowercase-kebab-case
    names, also when one newline follows: one or more non-empty runs of
    the characters a-z and 0-9, joined by single hyphens. *)
Theorem filename_convention_grammar (filename : str) :
  kebab_from false filename = true
  ↔ ∃ (runs : list str) (nl : str),
      runs ≠ []
      ∧ Forall (λ r, r ≠ [] ∧ forallb is_lower_alnum r = true) runs
      ∧ (nl = [] ∨ nl = [NL])
      ∧ filename = join [45%N] runs ++ nl.
Proof.
  rewrite kebab_from_grammar. split.
  - intros (run0 & runs & nl & H0 & Hne & Hr & Hnl & ->).
    exists (run0 :: runs), nl. split; [done|]. split.
    + constructor; [|done]. split; [by apply Hne|done].
    + split; [done|]. by rewrite join_cons, <-app_assoc.
  - intros (runs & nl & Hne & Hr & Hnl & ->).
    destruct runs as [|run0 runs]; [done|].
    inversion Hr as [|?? [H0ne H0] Hrs]; subst.
    exists run0, runs, nl. repeat split; try done.
    by rewrite join_cons, <-app_assoc.
Qed.

End StructuralMore.

(** ** How the checks compose *)

Section AppendFacts.
Import Py Validate Spec.

Lemma count_level_app (lv : Level) (a b : list ValidationIssue) :
  count_level lv (a ++ b) = count_level lv a + count_level lv b.
Proof. unfold count_level. by rewrite filter_app, length_app. Qed.

Lemma count_level_other (lv : Level) (l : list ValidationIssue) :
  Forall (λ i, level i ≠ lv) l → count_level lv l = 0.
Proof.
  unfold count_level. induction 1 as [|i l Hi _ IH]; [done|].
  by rewrite filter_cons, decide_False.
Qed.

Lemma foldl_append {A : Type} (f : list ValidationIssue → A → list ValidationIssue)
    (xs : list A) (issues : list ValidationIssue) :
  (∀ X x, f X x = X ++ f [] x) →
  foldl f issues xs = issues ++ foldl f [] xs.
Proof.
  intros Hf. revert issues. induction xs as [|x xs IH]; intros issues; simpl.
  - by rewrite app_nil_r.
  - rewrite IH, (IH (f [] x)), Hf. by rewrite app_assoc.
Qed.

Lemma check_code_blocks_in_section_eq (section title : str)
    (issues : list ValidationIssue) :
  _check_code_blocks_in_section section title issues
  = issues ++ _check_code_blocks_in_section section title [].
Proof.
  unfold _check_code_blocks_in_section.
  apply (foldl_append (λ issues block, check_code_block section title block issues)).
  intros X x. apply check_code_block_app.
Qed.

Lemma check_code_blocks_levels (section title : str) :
  Forall (λ i, level i = WARN ∧ check i = lit "code_block_subsection")
         (_check_code_blocks_in_section section title []).
Proof.
  unfold _check_code_blocks_in_section.
  generalize (findall_fenced 0 section). intros blocks.
  assert (∀ X, Forall (λ i, level i = WARN ∧ check i = lit "code_block_subsection") X →
               Forall (λ i, level i = WARN ∧ check i = lit "code_block_subsection")
                 (foldl (λ issues block, check_code_block section title block issues)
                        X blocks)) as Hall.
  { induction blocks as [|b blocks IH]; intros X HX; [done|].
    cbn [foldl]. apply IH. unfold check_code_block.
    destruct (_ <? _); [|done]. destruct (find SUBSECTION _ _); [done|].
    apply Forall_app. split; [done|]. by repeat constructor. }
  by apply Hall.
Qed.

Lemma check_bare_code_blocks_eq (content : str) (issues : list ValidationIssue) :
  _check_bare_code_blocks content issues
  = issues ++ _check_bare_code_blocks content [].
Proof.
  unfold _check_bare_code_blocks.
  by apply (foldl_append (λ issues group1, issues ++ [_])).
Qed.

Lemma check_bare_code_blocks_levels (content : str) :
  Forall (λ i, level i = WARN ∧ check i = lit "bare_code_block")
         (_check_bare_code_blocks content []).
Proof.
  unfold _check_bare_code_blocks.
  generalize (bare_matches 0 content). intros groups.
  assert (∀ X, Forall (λ i, level i = WARN ∧ check i = lit "bare_code_block") X →
               Forall (λ i, level i = WARN ∧ check i = lit "bare_code_block")
                 (foldl (λ issues group1,
                    issues ++
                      [{| level := WARN; check := lit "bare_code_block";
                          message := lit "Code block immediately follows heading without prose";
                          line_number := None;
                          details := Some (lit "After: " ++ DQ ++ strip group1 ++ DQ) |}])
                    X groups)) as Hall.
  { induction groups as [|g groups IH]; intros X HX; [done|].
    cbn [foldl]. apply IH. apply Forall_app. split; [done|]. by repeat constructor. }
  by apply Hall.
Qed.

Lemma check_section_eq (i : nat) (section : str) (issues : list ValidationIssue) :
  check_section i section issues = issues ++ check_section i section [].
Proof.
  unfold check_section.
  match goal with
  | |- _check_code_blocks_in_section ?s ?t ?A
       = _ ++ _check_code_blocks_in_section ?s ?t ?B =>
      rewrite (check_code_blocks_in_section_eq s t A),
        (check_code_blocks_in_section_eq s t B)
  end.
  rewrite (app_assoc issues). f_equal.
  destruct (MAX_SECTION_LENGTH <? _);
    destruct (first_sentence _) as [fs|]; try destruct (pronoun_match fs);
    first [done | by rewrite app_nil_r | by rewrite <-(app_assoc issues)].
Qed.

Lemma sections_loop_eq (i : nat) (sections : list str)
    (issues : list ValidationIssue) :
  sections_loop i sections issues = issues ++ sections_loop i sections [].
Proof.
  revert i issues. induction sections as [|s sections IH]; intros i issues; simpl.
  - by rewrite app_nil_r.
  - rewrite IH, (IH _ (check_section i s [])), check_section_eq.
    by rewrite app_assoc.
Qed.

Lemma check_sections_eq (content : str) (issues : list ValidationIssue) :
  _check_sections content issues = issues ++ _check_sections content [].
Proof.
  unfold _check_sections, _check_heading_hierarchy.
  destruct (_ <? 2); [done|].
  rewrite hierarchy_loop_app, check_bare_code_blocks_eq, sections_loop_eq.
  rewrite (hierarchy_loop_app _ _ _ (_check_bare_code_blocks _ _)).
  rewrite (check_bare_code_blocks_eq _ (sections_loop _ _ _)).
  by rewrite <-!app_assoc.
Qed.

(** The FAILs of one turn of the section loop. *)
Lemma check_section_levels (i : nat) (section : str) :
  count_level FAIL (check_section i section [])
  = (if is_long (H2 ++ section) then 1 else 0)
    + (if pronoun_lead (H2 ++ section) then 1 else 0)
  ∧ count_level INFO (check_section i section []) = 0.
Proof.
  rewrite <-pronoun_fires_lead. unfold check_section, pronoun_fires, is_long.
  rewrite check_code_blocks_in_section_eq, !count_level_app.
  rewrite (count_level_other FAIL (_check_code_blocks_in_section _ _ [])),
    (count_level_other INFO (_check_code_blocks_in_section _ _ []));
    [| eapply Forall_impl; [apply check_code_blocks_levels|];
       by intros x [-> _]..].
  destruct (MAX_SECTION_LENGTH <? _);
    destruct (first_sentence _) as [fs|]; try destruct (pronoun_match fs);
    done.
Qed.

End AppendFacts.

(** ** Searching *)

Section FindFacts.
Import Py Spec.

Lemma startswith_occurs (sub s : str) : startswith sub s = true → occurs sub s.
Proof. intros [r ->]%startswith_inv. by exists [], r. Qed.

(** [find_from] returns the place of the first occurrence. *)
Lemma find_from_Some (sub : str) (pos : nat) (s : str) (p : nat) :
  find_from sub pos s = Some p →
  ∃ a b, s = a ++ sub ++ b ∧ p = pos + length a
         ∧ ∀ a' b', s = a' ++ sub ++ b' → length a ≤ length a'.
Proof.
  revert pos. induction s as [|c s IH]; intros pos; simpl.
  - destruct (startswith sub []) eqn:Hst; [|done]. intros [= <-].
    destruct (startswith_inv _ _ Hst) as [r Hr].
    exists [], r. split; [done|]. split; [simpl; lia|]. intros; simpl; lia.
  - destruct (startswith sub (c :: s)) eqn:Hst.
    + intros [= <-]. destruct (startswith_inv _ _ Hst) as [r Hr].
      exists [], r. split; [done|]. split; [simpl; lia|]. intros; simpl; lia.
    + intros (a & b & -> & -> & Hmin)%IH.
      exists (c :: a), b. split; [done|]. split; [simpl; lia|].
      intros [|c' a'] b' Heq.
      * simpl in Heq. rewrite Heq, startswith_app in Hst. done.
      * injection Heq as _ Heq. simpl. apply Hmin in Heq. lia.
Qed.

Lemma find_from_None (sub : str) (pos : nat) (s : str) :
  find_from sub pos s = None ↔ ¬ occurs sub s.
Proof.
  revert pos. induction s as [|c s IH]; intros pos; simpl.
  - destruct (startswith sub []) eqn:Hst.
    + split; [done|]. intros Hno. destruct Hno. by apply startswith_occurs.
    + split; [|done]. intros _ ([|? ?] & b & Heq); [|done].
      simpl in Heq. by rewrite Heq, startswith_app in Hst.
  - destruct (startswith sub (c :: s)) eqn:Hst.
    + split; [done|]. intros Hno. destruct Hno. by apply startswith_occurs.
    + rewrite IH. split.
      * intros Hno ([|c' a] & b & Heq).
        -- simpl in Heq. by rewrite Heq, startswith_app in Hst.
        -- injection Heq as _ Heq. apply Hno. by exists a, b.
      * intros Hno (a & b & ->). apply Hno. by exists (c :: a), b.
Qed.

Lemma find_None (sub : str) (start : nat) (s : str) :
  start ≤ length s → find sub start s = None ↔ ¬ occurs sub (drop start s).
Proof.
  intros Hs. unfold find. rewrite decide_True by done. apply find_from_None.
Qed.

Lemma find_Some (sub : str) (start : nat) (s : str) (p : nat) :
  find sub start s = Some p →
  ∃ a b, drop start s = a ++ sub ++ b ∧ p = start + length a
         ∧ start ≤ length s
         ∧ ∀ a' b', drop start s = a' ++ sub ++ b' → length a ≤ length a'.
Proof.
  unfold find. destruct (decide (start ≤ length s)); [|done].
  intros (a & b & Heq & Hp & Hmin)%find_from_Some. by exists a, b.
Qed.

Lemma occurs_app_r (sub a s : str) : occurs sub s → occurs sub (a ++ s).
Proof. intros (x & y & ->). exists (a ++ x), y. by rewrite <-app_assoc. Qed.

Lemma occurs_app_l (sub s b : str) : occurs sub s → occurs sub (s ++ b).
Proof. intros (x & y & ->). exists x, (y ++ b). by rewrite <-!app_assoc. Qed.

End FindFacts.

(** ** The section checks *)

Section SectionMore.
Import Py Validate Spec.

Lemma check_sections_found_eq (content : str) :
  2 ≤ length (split SECTION_SEP content) →
  _check_sections content []
  = sections_loop 1 (tail (split SECTION_SEP content)) []
    ++ _check_bare_code_blocks content []
    ++ _check_heading_hierarchy content [].
Proof.
  intros Hlen. unfold _check_sections, _check_heading_hierarchy.
  rewrite (proj2 (Nat.ltb_ge _ _) Hlen).
  rewrite hierarchy_loop_app, check_bare_code_blocks_eq.
  by rewrite <-app_assoc.
Qed.

Lemma sections_loop_levels (i : nat) (sections : list str) :
  count_level FAIL (sections_loop i sections [])
  = length (filter (λ sc, is_long sc = true) ((λ s, H2 ++ s) <$> sections))
    + length (filter (λ sc, pronoun_lead sc = true) ((λ s, H2 ++ s) <$> sections))
  ∧ count_level INFO (sections_loop i sections []) = 0.
Proof.
  revert i. induction sections as [|s sections IH]; intros i; [done|].
  cbn [sections_loop]. rewrite sections_loop_eq, !count_level_app.
  destruct (IH (S i)) as [-> ->].
  destruct (check_section_levels i s) as [-> ->].
  rewrite fmap_cons, !filter_cons. split; [|done].
  destruct (is_long (H2 ++ s)), (pronoun_lead (H2 ++ s));
    rewrite ?decide_True by done; rewrite ?decide_False by done;
    cbn [length]; rewrite ?Nat.add_succ_r; simpl; done.
Qed.

(** X8. The section checks append to the issues they are given and never
    change them; they raise a FAIL exactly for the sections that are too
    long and for those that lead with a pronoun, one FAIL for each, and
    every other issue they give is a WARN. *)
Theorem section_checks_levels (content : str) (issues : list ValidationIssue) :
  _check_sections content issues = issues ++ _check_sections content []
  ∧ count_level FAIL (_check_sections content [])
    = length (filter (λ sc, is_long sc = true) (section_contents content))
      + length (filter (λ sc, pronoun_lead sc = true) (section_contents content))
  ∧ count_level INFO (_check_sections content []) = 0.
Proof.
  split; [apply check_sections_eq|].
  unfold section_contents.
  destruct (decide (length (split SECTION_SEP content) < 2)) as [Hlt|Hge].
  - rewrite check_sections_none by done.
    by destruct (split SECTION_SEP content) as [|s0 [|s1 more]];
      simpl in Hlt; [| |lia].
  - rewrite check_sections_found_eq by lia. rewrite !count_level_app.
    destruct (sections_loop_levels 1 (tail (split SECTION_SEP content))) as [-> ->].
    rewrite !(count_level_other _ (_check_bare_code_blocks _ _)),
      !(count_level_other _ (_check_heading_hierarchy _ _)); [lia|..].
    all: try (eapply Forall_impl; [apply hierarchy_loop_checks|]; by intros x [-> _]).
    all: eapply Forall_impl; [apply check_bare_code_blocks_levels|]; by intros x [-> _].
Qed.

(** X9. The section analyzer and the validator agree: the violations the
    analyzer counts are the sections over 1500 characters, as many as
    the [section_length] issues of the validator on the same content,
    and its total is the number of sections. *)
Theorem analyzer_agrees_with_validator (content : str) :
  SectionAnalyzer.analyze_file content
  = (length (filter (λ sc, is_long sc = true) (section_contents content)),
     length (section_contents content))
  ∧ (SectionAnalyzer.analyze_file content).1
    = count_check SL (_check_sections content [])
  ∧ (SectionAnalyzer.analyze_file content).1
    ≤ (SectionAnalyzer.analyze_file content).2.
Proof.
  assert (SectionAnalyzer.analyze_file content
          = (length (filter (λ sc, is_long sc = true) (section_contents content)),
             length (section_contents content))) as Heq.
  { unfold SectionAnalyzer.analyze_file, section_contents.
    generalize (tail (split SECTION_SEP content)). intros secs.
    assert (∀ v t,
      foldl (λ '(violations, total_sections) section,
               let section_content := H2 ++ section in
               let section_length := length section_content in
               ((if SectionAnalyzer.MAX_LENGTH <? section_length
                 then violations + 1 else violations),
                total_sections + 1)) (v, t) secs
      = (v + length (filter (λ sc, is_long sc = true) ((λ s, H2 ++ s) <$> secs)),
         t + length ((λ s, H2 ++ s) <$> secs))) as Hfold.
    { induction secs as [|s secs IH]; intros v t; [simpl; f_equal; lia|].
      cbn [foldl]. rewrite IH, fmap_cons, filter_cons.
      change (SectionAnalyzer.MAX_LENGTH <? length (H2 ++ s))
        with (is_long (H2 ++ s)).
      destruct (is_long (H2 ++ s));
        [rewrite decide_True by done|rewrite decide_False by done];
        cbn [length]; f_equal;
        first [reflexivity | exact (eq_sym (Nat.add_assoc _ 1 _))]. }
    apply (Hfold 0 0). }
  rewrite Heq. cbn [fst snd]. split; [done|]. split.
  - symmetry. apply section_length_count.
  - apply length_filter.
Qed.

(** X10. The characters of a document are those of the part before the
    first section and, for each section, its own characters and the
    newline in front of its heading. *)
Theorem section_characters (content : str) :
  length content
  = length (hd [] (split SECTION_SEP content))
    + sum_list_with (λ sc, S (length sc)) (section_contents content).
Proof.
  destruct (content_sections content) as (intro & Hsplit & Hcontent).
  rewrite Hsplit. cbn [hd]. rewrite Hcontent at 1. rewrite length_app. f_equal.
  generalize (section_contents content). intros secs.
  induction secs as [|sc secs IH]; [done|].
  cbn [fmap list_fmap concat sum_list_with]. rewrite length_app, IH. done.
Qed.

Lemma heading_level_heading (line : str) :
  is_heading line = true → 1 ≤ heading_level line.
Proof.
  intros [r ->]%startswith_inv. simpl. lia.
Qed.

Lemma hierarchy_loop_bound (lines : list str) (n prev : nat) :
  1 ≤ prev →
  length (hierarchy_loop lines n prev [])
  ≤ length (filter (λ l, is_heading l = true ∧ 3 ≤ heading_level l) lines).
Proof.
  revert n prev. induction lines as [|line lines IH]; intros n prev Hprev; [done|].
  cbn [hierarchy_loop]. rewrite filter_cons. fold (is_heading line).
  destruct (is_heading line) eqn:Hh.
  - pose proof (heading_level_heading line Hh) as Hlv.
    rewrite hierarchy_loop_app, length_app.
    specialize (IH (S n) (heading_level line) Hlv).
    destruct (prev + 1 <? heading_level line) eqn:Hskip.
    + apply Nat.ltb_lt in Hskip. rewrite decide_True by (split; [done|lia]).
      simpl. lia.
    + destruct (decide _); simpl; lia.
  - rewrite decide_False by (by intros [? _]). by apply IH.
Qed.

(** X11. A heading-hierarchy warning needs a heading of level 3 or
    deeper: there are at most as many warnings as such headings, so a
    document whose headings have one or two hash marks gets none. *)
Theorem heading_hierarchy_bound (content : str) :
  length (_check_heading_hierarchy content [])
  ≤ length (filter (λ l, is_heading l = true ∧ 3 ≤ heading_level l)
                   (split [NL] content)).
Proof. by apply hierarchy_loop_bound. Qed.

End SectionMore.

(** ** Code blocks *)

Section CodeBlockMore.
Import Py Validate Spec.

Lemma lstrip_split (s : str) :
  ∃ ws, s = ws ++ lstrip s ∧ forallb isspace ws = true.
Proof.
  induction s as [|c s (ws & IH & Hws)]; simpl; [by exists []|].
  destruct (isspace c) eqn:Hc; [|by exists []].
  exists (c :: ws). simpl. rewrite Hc, Hws. split; [by rewrite <-IH|done].
Qed.

Lemma line_prefix_split (s : str) :
  ∃ rest, s = line_prefix s ++ rest
          ∧ (rest = [] ∨ ∃ t, rest = NL :: t)
          ∧ NL ∉ line_prefix s.
Proof.
  induction s as [|c s (rest & IH & Hrest & Hnl)]; cbn [line_prefix].
  - exists []. split; [done|]. split; [by left|]. by intros ?%elem_of_nil.
  - destruct (c =? NL)%N eqn:Hc.
    + apply N.eqb_eq in Hc as ->. exists (NL :: s).
      split; [done|]. split; [right; by eexists|]. by intros ?%elem_of_nil.
    + exists rest. split; [simpl; by rewrite <-IH|]. split; [done|].
      apply not_elem_of_cons. split; [|done].
      intros Heq. by rewrite <-Heq, N.eqb_refl in Hc.
Qed.

Lemma count_nl_app (a b : str) : count_nl (a ++ b) = count_nl a + count_nl b.
Proof. unfold count_nl. by rewrite filter_app, length_app. Qed.

(** A block that [findall_fenced] returns is a piece of the text between
    two fences, the nearest ones. *)
Lemma findall_fenced_member (k : nat) (s block : str) :
  block ∈ findall_fenced k s →
  ∃ pre post inner,
    s = pre ++ block ++ post
    ∧ block = FENCE ++ inner ++ FENCE
    ∧ ¬ occurs FENCE (inner ++ [96%N; 96%N]).
Proof.
  revert k. induction s as [|c s IH]; intros k; cbn [findall_fenced].
  { by intros ?%elem_of_nil. }
  assert (∀ k', block ∈ findall_fenced k' s →
            ∃ pre post inner,
              c :: s = pre ++ block ++ post
              ∧ block = FENCE ++ inner ++ FENCE
              ∧ ¬ occurs FENCE (inner ++ [96%N; 96%N])) as Htail.
  { intros k' (pre & post & inner & -> & Hb & Hmin)%IH.
    by exists (c :: pre), post, inner. }
  destruct k as [|k]; [|apply Htail].
  destruct (startswith FENCE (c :: s)) eqn:Hst; [|apply Htail].
  destruct (find FENCE 3 (c :: s)) as [close|] eqn:Hfind; [|apply Htail].
  intros [->|Hin]%elem_of_cons; [|by apply (Htail (close + 2))].
  destruct (startswith_inv _ _ Hst) as [r Hr].
  destruct (find_Some _ _ _ _ Hfind) as (a & b & Hdrop & -> & _ & Hmin).
  rewrite Hr in Hdrop, Hmin |- *.
  change (drop 3 (FENCE ++ r)) with r in Hdrop, Hmin. subst r.
  assert (take (3 + length a + 3) (FENCE ++ a ++ FENCE ++ b)
          = FENCE ++ a ++ FENCE) as ->.
  { rewrite (app_assoc a), (app_assoc FENCE), take_app_length'; [done|].
    rewrite !length_app. simpl. lia. }
  exists [], b, a. split; [|split].
  - cbn [app]. by rewrite <-!app_assoc.
  - done.
  - intros (x & y & Hxy).
    assert (length x + 3 + length y = length a + 2) as Hlen.
    { apply (f_equal length) in Hxy. rewrite !length_app in Hxy. simpl in Hxy. lia. }
    specialize (Hmin x (y ++ 96%N :: b)).
    assert (length a ≤ length x); [|lia].
    apply Hmin.
    change (FENCE ++ b) with ([96%N; 96%N] ++ 96%N :: b).
    rewrite app_assoc, Hxy. by rewrite <-!app_assoc.
Qed.

(** X12. The code blocks the long-code-block check looks at are pieces
    of the section: each one starts with a fence, ends with the nearest
    fence after it, and holds no fence in between. *)
Theorem fenced_blocks_shape (section block : str) :
  block ∈ findall_fenced 0 section →
  ∃ pre post inner,
    section = pre ++ block ++ post
    ∧ block = FENCE ++ inner ++ FENCE
    ∧ ¬ occurs FENCE (inner ++ [96%N; 96%N]).
Proof. apply findall_fenced_member. Qed.

Lemma fenced_blocks_shape_witness :
  ∃ pre post inner,
    lit "text
```
code
```
more" = pre ++ lit "```
code
```" ++ post
    ∧ lit "```
code
```" = FENCE ++ inner ++ FENCE
    ∧ ¬ occurs FENCE (inner ++ [96%N; 96%N]).
Proof.
  apply (fenced_blocks_shape (lit "text
```
code
```
more") (lit "```
code
```")).
  vm_compute. by left.
Defined.

Lemma check_code_block_short (section title block : str)
    (issues : list ValidationIssue) :
  count_nl block ≤ CODE_BLOCK_LONG_THRESHOLD →
  check_code_block section title block issues = issues.
Proof.
  intros Hle. unfold check_code_block.
  by rewrite (proj2 (Nat.ltb_ge _ _) Hle).
Qed.

Lemma code_blocks_bound (section title : str) (blocks : list str) :
  length (foldl (λ issues block, check_code_block section title block issues)
                [] blocks)
  ≤ length (filter (λ b, CODE_BLOCK_LONG_THRESHOLD < count_nl b) blocks).
Proof.
  induction blocks as [|b blocks IH]; [done|].
  cbn [foldl]. rewrite filter_cons.
  rewrite (foldl_append (λ issues block, check_code_block section title block issues))
    by (intros; apply check_code_block_app).
  rewrite length_app.
  destruct (decide (CODE_BLOCK_LONG_THRESHOLD < count_nl b)) as [Hlong|Hshort].
  - assert (length (check_code_block section title b []) ≤ 1).
    { unfold check_code_block. destruct (_ <? _); [|simpl; lia].
      destruct (find SUBSECTION _ _); simpl; lia. }
    simpl. lia.
  - rewrite check_code_block_short by lia. simpl. lia.
Qed.

(** X13. The long-code-block check warns at most once for each fenced
    block with more than 10 line breaks; a section without a fence, or
    with at most 10 line breaks in all, gets no warning. *)
Theorem long_code_block_warnings (section title : str) :
  length (_check_code_blocks_in_section section title [])
  ≤ length (filter (λ b, CODE_BLOCK_LONG_THRESHOLD < count_nl b)
                   (findall_fenced 0 section))
  ∧ (¬ occurs FENCE section ∨ count_nl section ≤ CODE_BLOCK_LONG_THRESHOLD →
     ∀ issues, _check_code_blocks_in_section section title issues = issues).
Proof.
  split; [apply code_blocks_bound|].
  intros Hcase issues. rewrite check_code_blocks_in_section_eq.
  assert (_check_code_blocks_in_section section title [] = []) as ->;
    [|by rewrite app_nil_r].
  apply length_zero_iff_nil.
  pose proof (code_blocks_bound section title (findall_fenced 0 section)) as Hb.
  assert (filter (λ b, CODE_BLOCK_LONG_THRESHOLD < count_nl b)
                 (findall_fenced 0 section) = []) as Hnone.
  { apply elem_of_nil_inv. intros b [Hlong Hin]%list_elem_of_filter.
    apply findall_fenced_member in Hin as (pre & post & inner & Hs & Hshape & _).
    destruct Hcase as [Hno|Hshort].
    - apply Hno. exists pre, (inner ++ FENCE ++ post).
      rewrite Hs, Hshape. by rewrite <-!app_assoc.
    - rewrite Hs, !count_nl_app in Hshort. lia. }
  unfold _check_code_blocks_in_section. rewrite Hnone in Hb. simpl in Hb. lia.
Qed.

Lemma long_code_block_warnings_witness :
  _check_code_blocks_in_section (lit "## A
```
one
two
```
") (lit "## A") [] = [].
Proof.
  refine (proj2 (long_code_block_warnings (lit "## A
```
one
two
```
") (lit "## A")) _ []).
  right. vm_compute. lia.
Defined.

(** What a match of the bare-code-block pattern at the start of [s]
    covers. *)
Lemma bare_match_shape (s group1 : str) (len : nat) :
  bare_match s = Some (group1, len) →
  ∃ run ws post,
    s = group1 ++ ws ++ FENCE ++ post
    ∧ group1 = run ++ [NL]
    ∧ startswith [35%N; 35%N] run = true
    ∧ 3 ≤ length run
    ∧ (NL ∉ run)
    ∧ forallb isspace ws = true
    ∧ len = length group1 + length ws + 3.
Proof.
  unfold bare_match.
  destruct (line_prefix_split s) as (rest & Hs & Hrest & Hnl).
  destruct (startswith [35%N; 35%N] s) eqn:Hhash; [|done].
  destruct (3 <=? length (line_prefix s)) eqn:Hlen; [|done].
  apply Nat.leb_le in Hlen.
  destruct (startswith [NL] (drop (length (line_prefix s)) s)) eqn:Hend; [|done].
  cbn [andb].
  destruct (lstrip_split (drop (length (line_prefix s) + 1) s)) as (ws & Hws & Hsp).
  destruct (startswith FENCE (lstrip _)) eqn:Hfence; [|done].
  intros [= <- <-].
  destruct (startswith_inv _ _ Hfence) as [post Hpost].
  assert (rest = NL :: drop (length (line_prefix s) + 1) s) as Hr.
  { destruct Hrest as [->|[t ->]].
    - rewrite app_nil_r in Hs. rewrite <-Hs, drop_all in Hend. done.
    - rewrite Hs at 2. rewrite <-drop_drop, drop_app_length. done. }
  exists (line_prefix s), ws, post. split; [|split; [done|split; [|split; [done|split; [done|split; [done|]]]]]].
  - rewrite Hs at 1. rewrite Hr, Hws, Hpost at 1. by rewrite <-!app_assoc.
  - destruct (line_prefix s) as [|x [|y run]]; simpl in Hlen; try lia.
    rewrite Hs in Hhash. done.
  - rewrite Hws at 1. rewrite !length_app. simpl. lia.
Qed.

Lemma bare_matches_member (k : nat) (s group1 : str) :
  group1 ∈ bare_matches k s →
  ∃ pre run ws post,
    s = pre ++ group1 ++ ws ++ FENCE ++ post
    ∧ group1 = run ++ [NL]
    ∧ startswith [35%N; 35%N] run = true
    ∧ 3 ≤ length run
    ∧ (NL ∉ run)
    ∧ forallb isspace ws = true.
Proof.
  revert k. induction s as [|c s IH]; intros k; cbn [bare_matches].
  { by intros ?%elem_of_nil. }
  assert (∀ k', group1 ∈ bare_matches k' s →
            ∃ pre run ws post,
              c :: s = pre ++ group1 ++ ws ++ FENCE ++ post
              ∧ group1 = run ++ [NL]
              ∧ startswith [35%N; 35%N] run = true
              ∧ 3 ≤ length run ∧ (NL ∉ run)
              ∧ forallb isspace ws = true) as Htail.
  { intros k' (pre & run & ws & post & -> & H)%IH.
    by exists (c :: pre), run, ws, post. }
  destruct k as [|k]; [|apply Htail].
  destruct (bare_match (c :: s)) as [[g len]|] eqn:Hm; [|apply Htail].
  intros [->|Hin]%elem_of_cons; [|by apply (Htail (len - 1))].
  destruct (bare_match_shape _ _ _ Hm)
    as (run & ws & post & Hs & Hg & Hh & Hlen & Hnl & Hws & _).
  by exists [], run, ws, post.
Qed.

(** X14. A bare-code-block warning comes from a piece of the content
    made of two or more hash marks and the rest of their line (three
    characters at least), the newline, then whitespace only and a fence;
    every issue of the check is such a WARN, and a content without a
    fence gets none. *)
Theorem bare_code_block_warnings (content : str) :
  Forall (λ i, level i = WARN ∧ check i = lit "bare_code_block")
         (_check_bare_code_blocks content [])
  ∧ length (_check_bare_code_blocks content []) = length (bare_matches 0 content)
  ∧ Forall (λ group1, ∃ pre run ws post,
              content = pre ++ group1 ++ ws ++ FENCE ++ post
              ∧ group1 = run ++ [NL]
              ∧ startswith [35%N; 35%N] run = true
              ∧ 3 ≤ length run
              ∧ (NL ∉ run)
              ∧ forallb isspace ws = true)
           (bare_matches 0 content)
  ∧ (¬ occurs FENCE content →
     ∀ issues, _check_bare_code_blocks content issues = issues).
Proof.
  assert (Forall (λ group1, ∃ pre run ws post,
              content = pre ++ group1 ++ ws ++ FENCE ++ post
              ∧ group1 = run ++ [NL]
              ∧ startswith [35%N; 35%N] run = true
              ∧ 3 ≤ length run
              ∧ (NL ∉ run)
              ∧ forallb isspace ws = true)
           (bare_matches 0 content)) as Hshape.
  { apply Forall_forall. intros g. apply bare_matches_member. }
  assert (∀ groups X,
    length (foldl (λ issues group1,
               issues ++
                 [{| level := WARN; check := lit "bare_code_block";
                     message := lit "Code block immediately follows heading without prose";
                     line_number := None;
                     details := Some (lit "After: " ++ DQ ++ strip group1 ++ DQ) |}])
             X groups) = length X + length groups) as Hlen.
  { induction groups as [|g groups IH]; intros X; [simpl; lia|].
    cbn [foldl]. rewrite IH, length_app. simpl. lia. }
  split; [apply check_bare_code_blocks_levels|].
  split; [apply (Hlen _ [])|]. split; [done|].
  intros Hno issues.
  assert (bare_matches 0 content = []) as Hnone.
  { apply elem_of_nil_inv. intros g Hg.
    rewrite Forall_forall in Hshape.
    destruct (Hshape g Hg) as (pre & run & ws & post & Hc & _).
    apply Hno. exists (pre ++ g ++ ws), post. rewrite Hc at 1.
    by rewrite <-!app_assoc. }
  unfold _check_bare_code_blocks. by rewrite Hnone.
Qed.

Lemma bare_code_block_warnings_witness :
  _check_bare_code_blocks (lit "# Title
## Part
prose
") [] = [].
Proof.
  refine (proj2 (proj2 (proj2 (bare_code_block_warnings (lit "# Title
## Part
prose
")))) _ []).
  apply (find_None FENCE 0); [lia|]. reflexivity.
Defined.

End CodeBlockMore.

(** ** The frontmatter checks *)

Section FrontmatterMore.
Import Py Validate Spec.
Context {L : Libraries}.

Lemma check_required_eq (fm : list (yaml * yaml)) (X : list ValidationIssue) :
  check_required fm X = X ++ check_required fm [].
Proof. unfold check_required. by destruct (filter _ _); rewrite ?app_nil_r. Qed.

Lemma check_confidence_eq (fm : list (yaml * yaml)) (X : list ValidationIssue) :
  check_confidence fm X = X ++ check_confidence fm [].
Proof.
  unfold check_confidence.
  destruct (dict_get fm _) as [v|]; [|by rewrite app_nil_r].
  cbv zeta. by destruct (confidence_match _); rewrite ?app_nil_r.
Qed.

Lemma check_date_eq (fm : list (yaml * yaml)) (X : list ValidationIssue) :
  check_date fm X = X ++ check_date fm [].
Proof.
  unfold check_date.
  destruct (dict_get fm _) as [v|]; [|by rewrite app_nil_r].
  by destruct (fromisoformat_ok _); rewrite ?app_nil_r.
Qed.

Lemma check_tags_eq (fm : list (yaml * yaml)) (X : list ValidationIssue) :
  check_tags fm X = X ++ check_tags fm [].
Proof.
  unfold check_tags.
  destruct (dict_get fm _) as [[s|[|x xs]|d|tn text]|]; by rewrite ?app_nil_r.
Qed.

(** An enum check either raises, whatever the issues so far, or appends
    at most its own FAIL. *)
Lemma check_enum_cases (fm : list (yaml * yaml)) (field : str) (valid : list str) :
  (∃ e, ∀ X, check_enum fm field valid X = Raise e)
  ∨ (∃ new, (∀ X, check_enum fm field valid X = Ok (X ++ new))
            ∧ enum_issues fm field valid = new
            ∧ (∀ v, dict_get fm field = Some v → hashable v = true)
            ∧ (new = [] ∨ ∃ x, new = [x] ∧ level x = FAIL
                               ∧ check x = lit "frontmatter_" ++ field)).
Proof.
  unfold enum_issues, check_enum.
  destruct (dict_get fm field) as [[s|items|d|tn text]|]; simpl.
  - right. destruct (bool_decide (s ∉ valid)).
    + eexists. split; [done|]. split; [done|]. split; [by intros ? [= <-]|].
      right. by eexists.
    + exists []. split; [intros; by rewrite app_nil_r|]. split; [done|].
      split; [by intros ? [= <-]|by left].
  - left. by eexists.
  - left. by eexists.
  - right. eexists. split; [done|]. split; [done|]. split; [by intros ? [= <-]|].
    right. by eexists.
  - right. exists []. split; [intros; by rewrite app_nil_r|]. split; [done|].
    split; [done|by left].
Qed.

Lemma check_schema_eq (fm : list (yaml * yaml)) (X : list ValidationIssue) :
  check_schema fm X
  = match check_schema fm [] with
    | Ok new => Ok (X ++ new)
    | Raise e => Raise e
    end.
Proof.
  unfold check_schema.
  destruct (check_enum_cases fm (lit "stack") VALID_STACKS)
    as [[e He]|(n1 & H1 & _)]; [by rewrite !He|].
  rewrite !H1. cbn [mbind result_bind].
  destruct (check_enum_cases fm (lit "priority") VALID_PRIORITIES)
    as [[e He]|(n2 & H2 & _)]; [by rewrite !He|].
  rewrite !H2. cbn [mbind result_bind].
  destruct (check_enum_cases fm (lit "audience") VALID_AUDIENCES)
    as [[e He]|(n3 & H3 & _)]; [by rewrite !He|].
  rewrite !H3. cbn [mbind result_bind].
  destruct (check_enum_cases fm (lit "complexity") VALID_COMPLEXITIES)
    as [[e He]|(n4 & H4 & _)]; [by rewrite !He|].
  rewrite !H4. cbn [mbind result_bind]. f_equal.
  rewrite check_tags_eq, check_date_eq, check_confidence_eq, check_required_eq.
  rewrite (check_tags_eq fm (check_date _ _)), (check_date_eq fm (check_confidence _ _)),
    (check_confidence_eq fm (_ ++ n4)), (check_required_eq fm []).
  by rewrite <-!app_assoc.
Qed.

Lemma check_frontmatter_eq (content : str) (lines : list str)
    (X : list ValidationIssue) :
  _check_frontmatter content lines X
  = match _check_frontmatter content lines [] with
    | Ok new => Ok (X ++ new)
    | Raise e => Raise e
    end.
Proof.
  unfold _check_frontmatter.
  destruct (negb _); [done|].
  destruct (match lines with [] => false | line0 :: _ => _ end); [done|].
  destruct (find DELIM 3 content) as [k|]; [|done].
  destruct (safe_load _) as [[s|items|fm|tn text]|e|e]; try done.
  apply check_schema_eq.
Qed.

Lemma one_fail_sublist (chk : str) (part : list ValidationIssue) :
  one_fail chk part →
  check <$> part `sublist_of` [chk] ∧ Forall (λ i, level i = FAIL) part.
Proof.
  intros [->|(x & -> & Hl & <-)].
  - split; [apply sublist_nil_l|done].
  - split; [done|]. by repeat constructor.
Qed.

Lemma schema_parts (fm : list (yaml * yaml)) :
  one_fail (lit "frontmatter_required_fields") (check_required fm [])
  ∧ one_fail (lit "frontmatter_confidence") (check_confidence fm [])
  ∧ one_fail (lit "frontmatter_date") (check_date fm [])
  ∧ one_fail (lit "frontmatter_tags") (check_tags fm []).
Proof.
  unfold one_fail. split; [|split; [|split]].
  - unfold check_required. destruct (filter _ _); [by left|right; by eexists].
  - unfold check_confidence. destruct (dict_get fm _) as [v|]; [|by left].
    cbv zeta. destruct (confidence_match _); [by left|right; by eexists].
  - unfold check_date. destruct (dict_get fm _) as [v|]; [|by left].
    destruct (fromisoformat_ok _); [by left|right; by eexists].
  - unfold check_tags.
    destruct (dict_get fm _) as [[s|[|x xs]|d|tn text]|];
      first [by left | right; by eexists].
Qed.

Lemma check_schema_ok_hashable (fm : list (yaml * yaml))
    (X r : list ValidationIssue) :
  check_schema fm X = Ok r → enums_hashable fm.
Proof.
  unfold check_schema.
  destruct (check_enum_cases fm (lit "stack") VALID_STACKS)
    as [[e He]|(n1 & H1 & _ & Hh1 & _)]; [by rewrite He|].
  rewrite H1. cbn [mbind result_bind].
  destruct (check_enum_cases fm (lit "priority") VALID_PRIORITIES)
    as [[e He]|(n2 & H2 & _ & Hh2 & _)]; [by rewrite He|].
  rewrite H2. cbn [mbind result_bind].
  destruct (check_enum_cases fm (lit "audience") VALID_AUDIENCES)
    as [[e He]|(n3 & H3 & _ & Hh3 & _)]; [by rewrite He|].
  rewrite H3. cbn [mbind result_bind].
  destruct (check_enum_cases fm (lit "complexity") VALID_COMPLEXITIES)
    as [[e He]|(n4 & H4 & _ & Hh4 & _)]; [by rewrite He|].
  intros _ field v Hin Hget.
  repeat (apply elem_of_cons in Hin as [->|Hin]; [eauto|]).
  by apply elem_of_nil in Hin.
Qed.

Lemma enum_issues_one_fail (fm : list (yaml * yaml)) (field : str)
    (valid : list str) :
  one_fail (lit "frontmatter_" ++ field) (enum_issues fm field valid).
Proof.
  destruct (check_enum_cases fm field valid)
    as [[e He]|(n & _ & -> & _ & Hn)]; [|done].
  left. unfold enum_issues. by rewrite He.
Qed.

(** The issues of the schema checks, when none raises. *)
Lemma check_schema_shape (fm : list (yaml * yaml)) (new : list ValidationIssue) :
  check_schema fm [] = Ok new →
  check <$> new `sublist_of` SCHEMA_CHECKS
  ∧ Forall (λ i, level i = FAIL) new.
Proof.
  intros Hok.
  pose proof (check_schema_ok_hashable fm [] new Hok) as Hhash.
  rewrite (check_schema_additive L fm [] Hhash) in Hok.
  injection Hok as <-. cbn [app].
  destruct (schema_parts fm) as (HR & HC & HD & HT).
  apply one_fail_sublist in HR as [HR1 HR2], HC as [HC1 HC2],
    HD as [HD1 HD2], HT as [HT1 HT2].
  destruct (one_fail_sublist _ _ (enum_issues_one_fail fm (lit "stack") VALID_STACKS))
    as [H11 H12].
  destruct (one_fail_sublist _ _ (enum_issues_one_fail fm (lit "priority") VALID_PRIORITIES))
    as [H21 H22].
  destruct (one_fail_sublist _ _ (enum_issues_one_fail fm (lit "audience") VALID_AUDIENCES))
    as [H31 H32].
  destruct (one_fail_sublist _ _ (enum_issues_one_fail fm (lit "complexity") VALID_COMPLEXITIES))
    as [H41 H42].
  split.
  - rewrite !fmap_app.
    change SCHEMA_CHECKS with
      ([lit "frontmatter_required_fields"] ++ [lit "frontmatter_" ++ lit "stack"]
       ++ [lit "frontmatter_" ++ lit "priority"]
       ++ [lit "frontmatter_" ++ lit "audience"]
       ++ [lit "frontmatter_" ++ lit "complexity"]
       ++ [lit "frontmatter_confidence"] ++ [lit "frontmatter_date"]
       ++ [lit "frontmatter_tags"]).
    repeat (apply sublist_app; [done|]). done.
  - rewrite !Forall_app. repeat split; done.
Qed.

Lemma check_enum_raises (fm : list (yaml * yaml)) (field : str)
    (valid : list str) (X : list ValidationIssue) (e : exn) :
  check_enum fm field valid X = Raise e →
  e = TypeError (lit "unhashable type: 'list'")
  ∨ e = TypeError (lit "unhashable type: 'dict'").
Proof.
  unfold check_enum.
  destruct (dict_get fm field) as [[s|items|d|tn text]|]; simpl;
    try destruct (bool_decide _); try discriminate; intros [= <-]; auto.
Qed.

Lemma check_schema_raises (fm : list (yaml * yaml))
    (X : list ValidationIssue) (e : exn) :
  check_schema fm X = Raise e →
  e = TypeError (lit "unhashable type: 'list'")
  ∨ e = TypeError (lit "unhashable type: 'dict'").
Proof.
  unfold check_schema.
  destruct (check_enum fm (lit "stack") _ _) as [i1|e1] eqn:E1;
    cbn [mbind result_bind];
    [|intros [= <-]; by eapply check_enum_raises].
  destruct (check_enum fm (lit "priority") _ _) as [i2|e2] eqn:E2;
    cbn [mbind result_bind];
    [|intros [= <-]; by eapply check_enum_raises].
  destruct (check_enum fm (lit "audience") _ _) as [i3|e3] eqn:E3;
    cbn [mbind result_bind];
    [|intros [= <-]; by eapply check_enum_raises].
  destruct (check_enum fm (lit "complexity") _ _) as [i4|e4] eqn:E4;
    cbn [mbind result_bind];
    [|intros [= <-]; by eapply check_enum_raises].
  discriminate.
Qed.

(** X15. The frontmatter checker ends in one of three ways. It raises
    the exception that [safe_load] raised on the text between the
    delimiters and that is no [YAMLError]; or it raises the [TypeError]
    of an enum value that cannot be hashed; or it keeps the issues it
    was given and appends FAILs only, at most 8 of them, no two of the
    same check. *)
Theorem frontmatter_issues_shape (content : str) (lines : list str)
    (issues : list ValidationIssue) :
  match _check_frontmatter content lines issues with
  | Ok result =>
      ∃ new, result = issues ++ new
             ∧ _check_frontmatter content lines [] = Ok new
             ∧ Forall (λ i, level i = FAIL) new
             ∧ length new ≤ 8
             ∧ NoDup (check <$> new)
  | Raise e =>
      (∃ second_delim,
         find DELIM 3 content = Some second_delim
         ∧ safe_load (strip (take (second_delim - 3) (drop 3 content)))
           = LoadRaises e)
      ∨ e = TypeError (lit "unhashable type: 'list'")
      ∨ e = TypeError (lit "unhashable type: 'dict'")
  end.
Proof.
  rewrite check_frontmatter_eq. unfold _check_frontmatter.
  assert (∀ x, level x = FAIL →
            ∃ new, issues ++ [x] = issues ++ new ∧ Ok [x] = Ok new
                   ∧ Forall (λ i, level i = FAIL) new ∧ length new ≤ 8
                   ∧ NoDup (check <$> new)) as Hone.
  { intros x Hx. exists [x]. repeat split; [by repeat constructor|simpl; lia|].
    apply NoDup_singleton. }
  destruct (negb _); [by apply Hone|].
  destruct (match lines with [] => false | line0 :: _ => _ end); [by apply Hone|].
  destruct (find DELIM 3 content) as [k|]; [|by apply Hone].
  destruct (safe_load _) as [[s|items|fm|tn text]|e|e] eqn:Hload;
    try by apply Hone.
  - destruct (check_schema fm []) as [new|e] eqn:Hschema.
    + destruct (check_schema_shape fm new Hschema) as [Hsub Hfail].
      exists new. split; [done|]. split; [done|]. split; [done|]. split.
      * apply sublist_length in Hsub. rewrite length_fmap in Hsub. exact Hsub.
      * eapply sublist_NoDup; [|exact Hsub]. by apply (bool_decide_unpack _).
    + right. by eapply check_schema_raises.
  - left. by exists k.
Qed.

Lemma app_parts_nil (a b : list ValidationIssue) :
  a ++ b = [] ↔ a = [] ∧ b = [].
Proof. split; [apply app_eq_nil|by intros [-> ->]]. Qed.

(** The schema checks pass exactly on the frontmatters that meet the
    schema. *)
Lemma check_schema_valid (fm : list (yaml * yaml)) :
  check_schema fm [] = Ok [] ↔ valid_frontmatter fm.
Proof.
  destruct (schema_checks_fire L fm) as (FR & FE & FC & FD & FT).
  split.
  - intros Hok.
    pose proof (check_schema_ok_hashable fm [] [] Hok) as Hhash.
    rewrite (check_schema_additive L fm [] Hhash) in Hok.
    injection Hok as Hok. cbn [app] in Hok.
    repeat (apply app_parts_nil in Hok as [? Hok]).
    assert (∀ field, field ∈ REQUIRED_FRONTMATTER → dict_get fm field ≠ None)
      as Hreq.
    { intros field Hin Hnone. apply (proj2 FR); [|done]. by exists field. }
    assert (∀ field valid,
              field ∈ ENUM_FIELDS → field ∈ REQUIRED_FRONTMATTER →
              enum_issues fm field valid = [] →
              ∃ s, dict_get fm field = Some (YStr s) ∧ s ∈ valid) as Henum.
    { intros field valid Hf Hr Hnil.
      destruct (dict_get fm field) as [v|] eqn:Hget; [|by destruct (Hreq field Hr)].
      pose proof (Hhash field v Hf Hget) as Hv.
      assert (∀ v', dict_get fm field = Some v' → hashable v' = true) as Hh.
      { intros v' Hv'. rewrite Hget in Hv'. by injection Hv' as <-. }
      destruct v as [s| | |tn text]; try discriminate Hv.
      - exists s. split; [done|].
        destruct (decide (s ∈ valid)) as [|Hout]; [done|]. exfalso.
        apply (proj2 (FE field valid Hh)); [|done].
        exists (YStr s). split; [done|]. by intros ? [= <-].
      - exfalso.
        apply (proj2 (FE field valid Hh)); [|done].
        eexists. split; [done|]. by intros. }
    assert (∀ field, field ∈ REQUIRED_FRONTMATTER →
              ∃ v, dict_get fm field = Some v) as Hpresent.
    { intros field Hin. specialize (Hreq field Hin).
      destruct (dict_get fm field); [by eexists|done]. }
    split; [done|].
    split; [apply Henum; [decide_closed|decide_closed|done]|].
    split; [apply Henum; [decide_closed|decide_closed|done]|].
    split; [apply Henum; [decide_closed|decide_closed|done]|].
    split; [apply Henum; [decide_closed|decide_closed|done]|].
    split; [|split].
    + destruct (Hpresent (lit "source_confidence") ltac:(decide_closed)) as [v Hv].
      exists v. split; [done|].
      destruct (confidence_match (str_of v)) eqn:Hm; [done|]. exfalso.
      apply (proj2 FC); [|done]. by exists v.
    + destruct (Hpresent (lit "last_updated") ltac:(decide_closed)) as [v Hv].
      exists v. split; [done|].
      destruct (fromisoformat_ok (str_of v)) eqn:Hm; [done|]. exfalso.
      apply (proj2 FD); [|done]. by exists v.
    + destruct (Hpresent (lit "tags") ltac:(decide_closed)) as [v Hv].
      destruct v as [s|[|x xs]|d|tn text]; [| |by eauto| |]; exfalso;
        (apply (proj2 FT); [|done]); eexists; (split; [done|]); by intros.
  - intros (Hreq & (s1 & G1 & V1) & (s2 & G2 & V2) & (s3 & G3 & V3)
            & (s4 & G4 & V4) & (vc & GC & VC) & (vd & GD & VD) & (x & xs & GT)).
    assert (enums_hashable fm) as Hhash.
    { intros field v Hin Hget.
      repeat (apply elem_of_cons in Hin as [Heq|Hin];
              [rewrite Heq in Hget;
               first [injection (eq_trans (eq_sym Hget) G1) as ->
                     |injection (eq_trans (eq_sym Hget) G2) as ->
                     |injection (eq_trans (eq_sym Hget) G3) as ->
                     |injection (eq_trans (eq_sym Hget) G4) as ->]; done|]).
      by apply elem_of_nil in Hin. }
    rewrite (check_schema_additive L fm [] Hhash). cbn [app]. f_equal.
    assert (∀ field valid s, dict_get fm field = Some (YStr s) → s ∈ valid →
              enum_issues fm field valid = []) as Henum.
    { intros field valid s Hget Hin. unfold enum_issues.
      by rewrite (check_enum_valid L fm field s valid []). }
    rewrite (Henum _ _ s1), (Henum _ _ s2), (Henum _ _ s3), (Henum _ _ s4) by done.
    assert (check_required fm [] = []) as ->.
    { destruct (check_required fm []) eqn:Hr; [done|]. exfalso.
      destruct (proj1 FR) as (field & Hin & Hnone); [rewrite ?Hr; done|].
      by apply (Hreq field). }
    unfold check_confidence, check_date, check_tags.
    by rewrite GC, VC, GD, VD, GT.
Qed.

(** X16. A document passes the frontmatter checks without any issue
    exactly when it starts with the delimiter, the delimiter occurs
    again, the text in between decodes to a mapping, and that mapping
    meets the schema: every required key present, the four enumerated
    fields strings of their value sets, [source_confidence] matching the
    pattern, [last_updated] a date, [tags] a non-empty list. *)
Theorem frontmatter_passes (content : str) :
  _check_frontmatter content (splitlines content) [] = Ok []
  ↔ startswith DELIM content = true
    ∧ ∃ second_delim fm,
        find DELIM 3 content = Some second_delim
        ∧ safe_load (strip (take (second_delim - 3) (drop 3 content)))
          = Loaded (YDict fm)
        ∧ valid_frontmatter fm.
Proof.
  split.
  - unfold _check_frontmatter.
    destruct (startswith DELIM content) eqn:Hstart; [|done]. cbn [negb].
    rewrite (h1_test_unreachable content Hstart).
    destruct (find DELIM 3 content) as [k|]; [|done].
    destruct (safe_load _) as [[s|items|fm|tn text]|e|e] eqn:Hload; try done.
    intros Hok%check_schema_valid. split; [done|]. by exists k, fm.
  - intros (Hstart & k & fm & Hfind & Hload & Hvalid).
    rewrite (check_frontmatter_schema L content k fm) by done.
    by apply check_schema_valid.
Qed.

Lemma check_schema_ext (fm fm' : list (yaml * yaml)) (X : list ValidationIssue) :
  (∀ field, field ≠ lit "doc_type" → dict_get fm field = dict_get fm' field) →
  (dict_get fm (lit "doc_type") = None ↔ dict_get fm' (lit "doc_type") = None) →
  check_schema fm X = check_schema fm' X.
Proof.
  intros Hother Hdoc.
  assert (check_required fm X = check_required fm' X) as HR.
  { unfold check_required.
    rewrite (filter_iff_in (λ field, dict_get fm field = None)
               (λ field, dict_get fm' field = None)); [done|].
    intros field _. destruct (decide (field = lit "doc_type")) as [->|Hne]; [done|].
    by rewrite Hother. }
  unfold check_schema, check_enum, check_confidence, check_date, check_tags.
  rewrite HR. by rewrite !Hother by done.
Qed.

(** X17. The value of [doc_type] is never looked at: once the key is
    present, giving it any other value changes nothing in the outcome of
    the schema checks (the set of valid document types is not used). *)
Theorem doc_type_value_ignored (fm : list (yaml * yaml)) (v' : yaml)
    (issues : list ValidationIssue) :
  dict_get fm (lit "doc_type") ≠ None →
  check_schema ((YStr (lit "doc_type"), v') :: fm) issues = check_schema fm issues.
Proof.
  intros Hpresent. apply check_schema_ext.
  - intros field Hne. cbn [dict_get]. by rewrite decide_False by done.
  - cbn [dict_get]. rewrite decide_True by done. split; done.
Qed.

(** X18. The two ways of failing fast on the delimiters: the only issue
    is [frontmatter_start] exactly when the content does not start with
    three dashes, and it is [frontmatter_end] exactly when it does and
    three dashes occur nowhere after them. *)
Theorem frontmatter_delimiters (content : str) :
  (_check_frontmatter content (splitlines content) [] = Ok [frontmatter_start_issue]
   ↔ startswith DELIM content = false)
  ∧ (_check_frontmatter content (splitlines content) [] = Ok [frontmatter_end_issue]
     ↔ startswith DELIM content = true ∧ ¬ occurs DELIM (drop 3 content)).
Proof.
  assert (∀ fm x, check x ∉ SCHEMA_CHECKS → check_schema fm [] ≠ Ok [x]) as Hschema.
  { intros fm x Hx Hok. destruct (check_schema_shape fm _ Hok) as [Hsub _].
    apply Hx. eapply elem_of_sublist; [|exact Hsub]. by left. }
  assert (startswith DELIM content = true → 3 ≤ length content) as Hlen.
  { intros [r ->]%startswith_inv. rewrite length_app. simpl. lia. }
  unfold _check_frontmatter.
  destruct (startswith DELIM content) eqn:Hstart; cbn [negb].
  - rewrite (h1_test_unreachable content Hstart).
    destruct (find DELIM 3 content) as [k|] eqn:Hfind.
    + assert (occurs DELIM (drop 3 content)) as Hocc.
      { destruct (find_Some _ _ _ _ Hfind) as (a & b & Hd & _). by exists a, b. }
      destruct (safe_load _) as [[s|items|fm|tn text]|e|e];
        (split; [split; [try done|done]|split; [try done|by intros [_ ?]]]).
      * intros Hok. exfalso. revert Hok. apply Hschema. decide_closed.
      * intros Hok. exfalso. revert Hok. apply Hschema. decide_closed.
    + split; [done|]. split; [|done]. intros _. split; [done|].
      apply (find_None DELIM 3 content); [by apply Hlen|done].
  - split; [done|]. split; [done|by intros [? _]].
Qed.

(** X27. When [safe_load] raises an exception that is no [YAMLError] on
    the text between the delimiters, nothing catches it: the frontmatter
    check gives no issue, and the validation of the file, the section
    and structural checks included, ends with that exception. *)
Theorem load_exception_not_caught (content : str) (second_delim : nat) (e : exn)
    (issues : list ValidationIssue) (path relative filename : str) :
  startswith DELIM content = true →
  find DELIM 3 content = Some second_delim →
  safe_load (strip (take (second_delim - 3) (drop 3 content))) = LoadRaises e →
  _check_frontmatter content (splitlines content) issues = Raise e
  ∧ validate_file path relative filename (inl content) = Raise e.
Proof.
  intros Hstart Hfind Hload.
  assert (∀ X, _check_frontmatter content (splitlines content) X = Raise e)
    as Hraise.
  { intros X. unfold _check_frontmatter. rewrite Hstart. cbn [negb].
    by rewrite (h1_test_unreachable content Hstart), Hfind, Hload. }
  split; [apply Hraise|].
  unfold validate_file. by rewrite Hraise.
Qed.

End FrontmatterMore.

Lemma load_exception_not_caught_witness :
  let content := lit "---
last_updated: 2024-02-30
---
# Guide
" in
  Validate._check_frontmatter (libs := Spec.sample_libraries) content
    (Py.splitlines content) []
  = Validate.Raise (Validate.ValueError (lit "day is out of range for month"))
  ∧ Validate.validate_file (libs := Spec.sample_libraries)
      (lit "docs/guide.md") (lit "guide.md") (lit "guide") (inl content)
    = Validate.Raise (Validate.ValueError (lit "day is out of range for month")).
Proof.
  intros content.
  apply (load_exception_not_caught (L := Spec.sample_libraries) content 29).
  - reflexivity.
  - reflexivity.
  - reflexivity.
Defined.

Lemma doc_type_value_ignored_witness :
  let fm := [(Validate.YStr (lit "doc_type"), Validate.YStr (lit "guide"))] in
  Validate.dict_get fm (lit "doc_type") ≠ None
  ∧ Validate.check_schema (libs := Spec.sample_libraries)
      ((Validate.YStr (lit "doc_type"), Validate.YStr (lit "memo")) :: fm) []
    = Validate.check_schema (libs := Spec.sample_libraries) fm [].
Proof.
  intros fm. split; [done|].
  apply (doc_type_value_ignored (L := Spec.sample_libraries)). done.
Defined.

(** *** The structural checks and the validation of one file *)

Section FileMore.
Import Py Validate Spec.
Context {L : Libraries}.

Lemma check_structural_eq (content : str) (lines : list str) (filename : str)
    (X : list ValidationIssue) :
  _check_structural content lines filename X
  = X ++ _check_structural content lines filename [].
Proof.
  unfold _check_structural.
  destruct (_ <? STUB_LINE_COUNT); [|destruct (OVERSIZED_LINE_COUNT <? _)];
    destruct (kebab_from false filename);
    (destruct (last content) as [c|]; [destruct (c =? NL)%N|]);
    cbn [app]; rewrite ?app_nil_r, <-?app_assoc; done.
Qed.

(** X19. The structural checks only append, at most three issues: a
    [stub_file] warning below 80 lines or else an [oversized_file] note
    above 600, never both; one FAIL, [filename_convention], exactly when
    the stem is not kebab-case; a [trailing_newline] warning exactly when
    the content is not empty and does not end with a newline. *)
Theorem structural_issues (content : str) (lines : list str) (filename : str)
    (issues : list ValidationIssue) :
  ∃ new,
    _check_structural content lines filename issues = issues ++ new
    ∧ length new ≤ 3
    ∧ count_check (lit "stub_file") new
      = (if decide (length lines < 80) then 1 else 0)
    ∧ count_check (lit "oversized_file") new
      = (if decide (600 < length lines) then 1 else 0)
    ∧ count_check (lit "filename_convention") new
      = (if kebab_from false filename then 0 else 1)
    ∧ count_check (lit "trailing_newline") new
      = (if decide (content ≠ [] ∧ last content ≠ Some NL) then 1 else 0)
    ∧ count_level FAIL new = count_check (lit "filename_convention") new
    ∧ count_level INFO new = count_check (lit "oversized_file") new.
Proof.
  exists (_check_structural content lines filename []).
  split; [apply check_structural_eq|].
  unfold _check_structural.
  change STUB_LINE_COUNT with 80. change OVERSIZED_LINE_COUNT with 600.
  destruct (Nat.ltb_spec (length lines) 80);
    [|destruct (Nat.ltb_spec 600 (length lines))];
    destruct (kebab_from false filename);
    (destruct (last content) as [c|] eqn:Hc;
     [destruct (N.eqb_spec c NL) as [->|Hne]|]);
    repeat match goal with
           | |- context [decide ?P] => destruct (decide P)
           end;
    try lia;
    repeat split; try reflexivity; try (cbn; lia);
    exfalso;
    try match goal with
        | H : _ ∧ _ |- _ => destruct H as [H1 H2]
        end;
    try (apply last_None in Hc; done); try done;
    try match goal with
        | H : ¬ (_ ∧ _) |- _ => apply H; split; [by intros ->|congruence]
        end.
Qed.

(** X20. The issues of a file that could be read are those of the three
    groups of checks, each as if run on its own, in the order
    frontmatter, sections, structural; the line count is that of
    [splitlines]; an exception of the frontmatter check is the outcome of
    the whole validation. *)
Theorem validate_file_issues (path relative filename content : str) :
  match _check_frontmatter content (splitlines content) [] with
  | Ok frontmatter_issues =>
      validate_file path relative filename (inl content)
      = Ok {| file_path := path; relative_path := relative;
              line_count := length (splitlines content);
              issues := frontmatter_issues
                        ++ _check_sections content []
                        ++ _check_structural content (splitlines content)
                             filename [] |}
  | Raise e => validate_file path relative filename (inl content) = Raise e
  end.
Proof.
  unfold validate_file.
  destruct (_check_frontmatter content (splitlines content) []) as [F|e]; [|done].
  cbn. by rewrite check_structural_eq, check_sections_eq, <-app_assoc.
Qed.

Lemma has_failures_count (r : FileValidationResult) :
  has_failures r = true ↔ 0 < failure_count r.
Proof.
  unfold has_failures, failure_count. induction (issues r) as [|i l IH]; simpl.
  - lia.
  - rewrite filter_cons. destruct (decide (level i = FAIL)) as [Hi|Hi].
    + rewrite (bool_decide_eq_true_2 _ Hi). simpl. lia.
    + by rewrite (bool_decide_eq_false_2 _ Hi).
Qed.

Lemma has_warnings_count (r : FileValidationResult) :
  has_warnings r = true ↔ 0 < warning_count r.
Proof.
  unfold has_warnings, warning_count. induction (issues r) as [|i l IH]; simpl.
  - lia.
  - rewrite filter_cons. destruct (decide (level i = WARN)) as [Hi|Hi].
    + rewrite (bool_decide_eq_true_2 _ Hi). simpl. lia.
    + by rewrite (bool_decide_eq_false_2 _ Hi).
Qed.

(** A file that cannot be read gets the single issue [file_read], a
    FAIL, and no line; none of the checks is run on it. *)
Lemma unreadable_file_fails (path relative filename e : str) :
  ∃ r, validate_file path relative filename (inr e) = Ok r
       ∧ check <$> issues r = [lit "file_read"]
       ∧ has_failures r = true ∧ failure_count r = 1
       ∧ has_warnings r = false ∧ line_count r = 0.
Proof. eexists. split; [reflexivity|]. by repeat split. Qed.

Lemma validate_all_app (files : list md_file) (results : list FileValidationResult) :
  validate_all files results
  = match validate_all files [] with
    | Ok new => Ok (results ++ new)
    | Raise e => Raise e
    end.
Proof.
  revert results. induction files as [|f files IH]; intros results; simpl.
  - by rewrite app_nil_r.
  - destruct (validate_file _ _ _ _) as [r|e]; [|done]. cbn.
    rewrite (IH (results ++ [r])), (IH [r]).
    destruct (validate_all files []) as [new|e]; [|done].
    by rewrite <-app_assoc.
Qed.

Lemma validate_all_nil (files : list md_file) :
  match validate_all files [] with
  | Ok new => Forall2 (λ f r, validate_md f = Ok r) files new
  | Raise e =>
      ∃ k f, files !! k = Some f ∧ validate_md f = Raise e
             ∧ ∀ j g, j < k → files !! j = Some g → ∃ r, validate_md g = Ok r
  end.
Proof.
  induction files as [|f files IH]; simpl; [done|].
  destruct (validate_file _ _ _ _) as [r|e] eqn:Hf; cbn.
  - rewrite (validate_all_app files [r]).
    destruct (validate_all files []) as [new|e].
    + by constructor.
    + destruct IH as (k & g & Hk & Hg & Hbefore).
      exists (S k), g. split; [done|]. split; [done|].
      intros [|j] h Hj Hh.
      * injection Hh as <-. by exists r.
      * apply (Hbefore j h); [lia|done].
  - exists 0, f. split; [done|]. split; [done|]. intros; lia.
Qed.

(** X21. The scan appends one result per file, in the order of the
    files, to the results it had; if the validation of a file raises,
    the scan ends with the exception of the first such file and gives no
    result at all. *)
Theorem validate_all_outcome (files : list md_file)
    (results : list FileValidationResult) :
  match validate_all files results with
  | Ok out =>
      ∃ new, out = results ++ new
             ∧ Forall2 (λ f r, validate_md f = Ok r) files new
  | Raise e =>
      ∃ k f, files !! k = Some f ∧ validate_md f = Raise e
             ∧ ∀ j g, j < k → files !! j = Some g → ∃ r, validate_md g = Ok r
  end.
Proof.
  rewrite validate_all_app. pose proof (validate_all_nil files) as Hnew.
  destruct (validate_all files []) as [new|e]; [by exists new|done].
Qed.

End FileMore.

(** *** The report and the exit status *)

Section ReportMore.
Import Py Validate Spec.
Context {L : Libraries}.
Variable path_name : str → str.

Lemma bump_lookup (d : gmap str nat) (k c : str) :
  default 0 (bump d k !! c)
  = default 0 (d !! c) + (if decide (k = c) then 1 else 0).
Proof.
  unfold bump. rewrite lookup_insert.
  destruct (decide (k = c)) as [->|]; simpl; lia.
Qed.

Lemma histogram_total_bump (d : gmap str nat) (k : str) :
  histogram_total (bump d k) = histogram_total d + 1.
Proof.
  unfold histogram_total, bump. destruct (d !! k) as [n|] eqn:Hk; simpl.
  - rewrite <-(insert_delete_eq d).
    rewrite map_fold_insert_L; [|intros; lia|apply lookup_delete_eq].
    rewrite (map_fold_delete_L _ _ k n d); [lia|intros; lia|done].
  - rewrite map_fold_insert_L; [lia|intros; lia|done].
Qed.

(** The histogram made of a list of keys. *)
Lemma foldl_bump (keys : list str) (d : gmap str nat) :
  (∀ c, default 0 (foldl bump d keys !! c)
        = default 0 (d !! c) + length (filter (λ k, k = c) keys))
  ∧ histogram_total (foldl bump d keys) = histogram_total d + length keys
  ∧ ((∀ c, d !! c ≠ Some 0) → ∀ c, foldl bump d keys !! c ≠ Some 0).
Proof.
  revert d. induction keys as [|k keys IH]; intros d; simpl.
  - repeat split; [intros; lia|lia|done].
  - destruct (IH (bump d k)) as (IH1 & IH2 & IH3). repeat split.
    + intros c. rewrite IH1, bump_lookup, filter_cons.
      destruct (decide (k = c)); simpl; lia.
    + rewrite IH2, histogram_total_bump. lia.
    + intros Hpos. apply IH3. intros c. unfold bump. rewrite lookup_insert.
      destruct (decide (k = c)); [intros [= ?]; lia|apply Hpos].
Qed.

Lemma count_issue_fold (l : list ValidationIssue) (d : gmap str nat * gmap str nat) :
  foldl count_issue d l
  = (foldl bump d.1 (check <$> filter (λ i, level i = FAIL) l),
     foldl bump d.2 (check <$> filter (λ i, level i = WARN) l)).
Proof.
  revert d. induction l as [|i l IH]; intros [d1 d2]; simpl; [done|].
  rewrite IH, !filter_cons. unfold count_issue.
  by destruct (level i); simpl.
Qed.

Lemma by_check_issues (results : list FileValidationResult) :
  by_check results = foldl count_issue (∅, ∅) (results ≫= issues).
Proof.
  unfold by_check. generalize ((∅, ∅) : gmap str nat * gmap str nat).
  induction results as [|r results IH]; intros d; simpl; [done|].
  by rewrite IH, foldl_app.
Qed.

Lemma count_issues_keys (lv : Level) (c : str) (results : list FileValidationResult) :
  length (filter (λ k, k = c) (check <$> filter (λ i, level i = lv) (results ≫= issues)))
  = count_issues lv c results.
Proof.
  unfold count_issues. induction results as [|r results IH]; [done|].
  rewrite bind_cons. cbn [sum_list_with].
  rewrite filter_app, fmap_app, filter_app, length_app, IH. f_equal.
  clear IH. induction (issues r) as [|i l IHl]; [done|].
  rewrite (filter_cons (λ i, level i = lv)),
    (filter_cons (λ i, level i = lv ∧ check i = c)).
  destruct (decide (level i = lv)) as [Hl|Hl].
  - rewrite fmap_cons, filter_cons. destruct (decide (check i = c)) as [Hc|Hc].
    + rewrite decide_True by done. cbn [length]. by rewrite IHl.
    + rewrite decide_False by (by intros [_ ?]). done.
  - rewrite decide_False by (by intros [? _]). done.
Qed.

Lemma count_level_total (lv : Level) (results : list FileValidationResult) :
  length (filter (λ i, level i = lv) (results ≫= issues))
  = sum_list ((λ r, count_level lv (issues r)) <$> results).
Proof.
  induction results as [|r results IH]; [done|].
  by rewrite bind_cons, fmap_cons, filter_app, length_app, IH.
Qed.

(** X22. The two histograms of the report count, for every check, its
    FAIL and its WARN issues over all the results; a check is a key of a
    histogram only when it has such an issue; INFO issues are counted
    nowhere; and the counts of a histogram add up to the total of the
    summary. *)
Theorem report_histograms (results : list FileValidationResult) (c : str) :
  let rep := generate_report path_name results in
  default 0 (failures_by_check rep !! c) = count_issues FAIL c results
  ∧ default 0 (warnings_by_check rep !! c) = count_issues WARN c results
  ∧ (failures_by_check rep !! c = None ↔ count_issues FAIL c results = 0)
  ∧ (warnings_by_check rep !! c = None ↔ count_issues WARN c results = 0)
  ∧ histogram_total (failures_by_check rep) = total_failures (report_summary rep)
  ∧ histogram_total (warnings_by_check rep) = total_warnings (report_summary rep).
Proof.
  cbn [generate_report failures_by_check warnings_by_check report_summary
       total_failures total_warnings].
  rewrite by_check_issues, count_issue_fold. cbn [fst snd].
  destruct (foldl_bump (check <$> filter (λ i, level i = FAIL) (results ≫= issues)) ∅)
    as (F1 & F2 & F3).
  destruct (foldl_bump (check <$> filter (λ i, level i = WARN) (results ≫= issues)) ∅)
    as (W1 & W2 & W3).
  specialize (F1 c). specialize (W1 c).
  rewrite count_issues_keys, lookup_empty in F1.
  rewrite count_issues_keys, lookup_empty in W1.
  specialize (F3 ltac:(by intros ?; rewrite lookup_empty) c).
  specialize (W3 ltac:(by intros ?; rewrite lookup_empty) c).
  rewrite length_fmap, count_level_total in F2.
  rewrite length_fmap, count_level_total in W2.
  repeat split.
  - exact F1.
  - exact W1.
  - intros Hn. rewrite Hn in F1. simpl in F1. lia.
  - intros Hz. rewrite Hz in F1.
    match goal with
    | |- ?m !! c = None => destruct (m !! c) as [[|n]|] eqn:E
    end; [by destruct F3|rewrite ?E in F1; simpl in F1; lia|done].
  - intros Hn. rewrite Hn in W1. simpl in W1. lia.
  - intros Hz. rewrite Hz in W1.
    match goal with
    | |- ?m !! c = None => destruct (m !! c) as [[|n]|] eqn:E
    end; [by destruct W3|rewrite ?E in W1; simpl in W1; lia|done].
  - exact F2.
  - exact W2.
Qed.

Lemma inclusion_exclusion {A : Type} (p q : A → bool) (l : list A) :
  (Z.of_nat (length l) - Z.of_nat (length (filter (λ x, p x = true) l))
   - Z.of_nat (length (filter (λ x, q x = true) l)))%Z
  = (Z.of_nat (length (filter (λ x, negb (p x) && negb (q x) = true) l))
     - Z.of_nat (length (filter (λ x, p x && q x = true) l)))%Z.
Proof.
  induction l as [|x l IH]; [done|].
  rewrite !filter_cons. cbn [length].
  destruct (p x), (q x); cbn [negb andb];
    repeat match goal with
           | |- context [decide ?P] => destruct (decide P); try done
           end;
    cbn [length]; lia.
Qed.

(** X23. [files_passing] is the number of results with neither a FAIL
    nor a WARN less the number of results with both: a file with both is
    subtracted twice. The figure is the number of clean files exactly
    when no file has both. *)
Theorem files_passing_count (results : list FileValidationResult) :
  let passing := files_passing (report_summary (generate_report path_name results)) in
  let clean := length (filter (λ r, is_clean r = true) results) in
  let mixed := length (filter (λ r, is_mixed r = true) results) in
  passing = (Z.of_nat clean - Z.of_nat mixed)%Z
  ∧ (passing = Z.of_nat clean ↔ Forall (λ r, is_mixed r = false) results).
Proof.
  cbn zeta. cbn [generate_report report_summary files_passing].
  rewrite (inclusion_exclusion has_failures has_warnings results).
  split; [done|]. unfold is_clean, is_mixed.
  split.
  - intros Heq.
    assert (length (filter (λ r, has_failures r && has_warnings r = true) results) = 0)
      as Hnil%nil_length_inv by lia.
    apply Forall_forall. intros r Hr.
    destruct (has_failures r && has_warnings r) eqn:Hm; [exfalso|done].
    assert (r ∈ filter (λ r, has_failures r && has_warnings r = true) results)
      as Hin by (by apply list_elem_of_filter).
    rewrite Hnil in Hin. by apply elem_of_nil in Hin.
  - intros Hall.
    assert (filter (λ r, has_failures r && has_warnings r = true) results = [])
      as ->; [|simpl; lia].
    induction Hall as [|r l Hr _ IH]; [done|].
    rewrite filter_cons, decide_False; [done|]. by rewrite Hr.
Qed.

Lemma basename_map_lookup (results : list FileValidationResult)
    (d : gmap str (list str)) (b : str) :
  foldl (add_basename path_name) d results !! b
  = match paths_named path_name b results with
    | [] => d !! b
    | paths => Some (default [] (d !! b) ++ paths)
    end.
Proof.
  unfold paths_named. revert d.
  induction results as [|r results IH]; intros d; simpl; [done|].
  rewrite IH, filter_cons. unfold add_basename. cbn zeta.
  rewrite lookup_insert.
  destruct (decide (path_name (file_path r) = b)) as [Hb|Hb].
  - rewrite fmap_cons, Hb.
    destruct (relative_path <$> filter _ results); simpl; [done|].
    by rewrite <-app_assoc.
  - done.
Qed.

(** X24. The duplicate basenames of the report: a name is a key exactly
    when at least two results have a file of that name, and its value is
    the relative paths of these results, in the order of the results. *)
Theorem duplicate_basenames_paths (results : list FileValidationResult)
    (b : str) (paths : list str) :
  let rep := generate_report path_name results in
  (duplicate_basenames rep !! b = Some paths
   ↔ paths = paths_named path_name b results ∧ 1 < length paths)
  ∧ duplicate_basenames_count (report_summary rep) = size (duplicate_basenames rep).
Proof.
  cbn zeta. split; [|done].
  cbn [generate_report duplicate_basenames].
  rewrite map_lookup_filter_Some. cbn [snd].
  unfold basename_map. rewrite basename_map_lookup, lookup_empty.
  destruct (paths_named path_name b results) as [|p ps]; simpl.
  - split; [by intros [? _]|]. intros [-> H]. simpl in H. lia.
  - split.
    + intros [[= <-] H]. done.
    + intros [-> H]. done.
Qed.

Lemma existsb_failures (results : list FileValidationResult) :
  existsb has_failures results = true
  ↔ 0 < sum_list (failure_count <$> results).
Proof.
  induction results as [|r results IH]; [simpl; lia|].
  rewrite fmap_cons. cbn [existsb].
  change (sum_list (failure_count r :: (failure_count <$> results)))
    with (failure_count r + sum_list (failure_count <$> results)).
  rewrite orb_true_iff, IH, has_failures_count. lia.
Qed.

(** X25. The exit status is 1 exactly when the report counts a failure,
    and 0 otherwise; warnings never change it. *)
Theorem exit_status_failures (results : list FileValidationResult) :
  let failures :=
    total_failures (report_summary (generate_report path_name results)) in
  exit_status results = (if decide (0 < failures) then 1 else 0)
  ∧ files_with_failures (report_summary (generate_report path_name results))
    ≤ failures.
Proof.
  cbn zeta. cbn [generate_report report_summary total_failures files_with_failures].
  split.
  - unfold exit_status. pose proof (existsb_failures results) as Hex.
    destruct (existsb has_failures results); destruct (decide _) as [Hd|Hd];
      [done| |exfalso|done].
    + exfalso. apply Hd. by apply Hex.
    + by apply Hex in Hd.
  - induction results as [|r results IH]; [simpl; lia|].
    rewrite fmap_cons, filter_cons.
    change (sum_list (failure_count r :: (failure_count <$> results)))
      with (failure_count r + sum_list (failure_count <$> results)).
    destruct (decide (has_failures r = true)) as [Hf|Hf]; cbn [length].
    + apply has_failures_count in Hf. lia.
    + lia.
Qed.

(** X26. One file that cannot be read makes a completed scan exit with
    status 1. *)
Theorem unreadable_file_exit_status (files : list md_file)
    (out : list FileValidationResult) :
  validate_all files [] = Ok out →
  (∃ f e, f ∈ files ∧ md_read f = inr e) →
  exit_status out = 1.
Proof.
  intros Hok (f & e & Hin & Hread).
  pose proof (validate_all_nil files) as Hall. rewrite Hok in Hall.
  apply list_elem_of_lookup in Hin as [k Hk].
  destruct (Forall2_lookup_l _ _ _ _ _ Hall Hk) as (r & Hr & Hval).
  unfold validate_md in Hval. rewrite Hread in Hval.
  destruct (unreadable_file_fails (md_path f) (md_relative f) (md_stem f) e)
    as (r' & Hr' & _ & Hfail & _).
  rewrite Hr' in Hval. injection Hval as ->.
  unfold exit_status.
  assert (existsb has_failures out = true) as ->; [|done].
  apply existsb_exists. exists r. split; [|done].
  apply list_elem_of_In. by eapply list_elem_of_lookup_2.
Qed.

End ReportMore.

Lemma unreadable_file_exit_status_witness :
  let files := [ {| Validate.md_path := lit "docs/a.md";
                    Validate.md_relative := lit "a.md";
                    Validate.md_stem := lit "a";
                    Validate.md_read := inr (lit "permission denied") |} ] in
  ∃ out, Validate.validate_all (libs := Spec.sample_libraries) files [] = Validate.Ok out
         ∧ Validate.exit_status out = 1.
Proof.
  intros files. eexists. split; [reflexivity|].
  apply (unreadable_file_exit_status (L := Spec.sample_libraries) files).
  - reflexivity.
  - eexists _, _. split; [by left|reflexivity].
Defined.
